(** * blksails/broadcast: the signal-broadcast registries

    A shallow embedding of [Broadcast[T]] (unnamed/part_001) and of
    [UniqueBroadcast[K,T]] (unique.go).

    Go slices are modelled as headers (backing array, offset, length,
    capacity) over an explicit store of backing arrays, because the direct
    registry appends and removes in place and hands slice headers around;
    a panic of the Go runtime (index out of range, nil dereference, write
    to a nil map) is the [None] of the option monad.  The reader/writer
    lock is not modelled: every operation below is one critical section,
    and [Broadcast] is the snapshot followed by the dispatch loop, during
    which handlers may call back into the registry. *)

From stdpp Require Import gmap strings list fin_maps.

(** ** Slices and backing arrays *)

(** A slice header; [SNil] is Go's nil slice. *)
Inductive slice : Type :=
  | SNil
  | SMk (arr off len cap : nat).

Definition slen (s : slice) : nat :=
  match s with SNil => 0 | SMk _ _ l _ => l end.

Definition scap (s : slice) : nat :=
  match s with SNil => 0 | SMk _ _ _ c => c end.

(** [s == nil] *)
Definition is_nil (s : slice) : bool :=
  match s with SNil => true | SMk _ _ _ _ => false end.

(** A cell holds [None] for the zero value of the element type (the zero
    [unique.Handle], the nil interface) and [Some x] otherwise.  The store
    maps an address (an index) to a backing array. *)
Abbreviation heap X := (list (list (option X))).

Section Slices.
Context {X : Type}.

(** The elements [s[0], ..., s[len(s)-1]], read at once. *)
Definition contents (h : heap X) (s : slice) : option (list (option X)) :=
  match s with
  | SNil => Some []
  | SMk a o l _ => cells ← h !! a; Some (take l (drop o cells))
  end.

(** [s[i]]: panics when [i] is out of range. *)
Definition sread (h : heap X) (s : slice) (i : nat) : option (option X) :=
  match s with
  | SNil => None
  | SMk a o l _ => if decide (i < l) then cells ← h !! a; cells !! (o + i) else None
  end.

(** Overwrite the cells [k, k + length xs) of an array. *)
Definition write_at (cells : list (option X)) (k : nat) (xs : list (option X))
  : list (option X) :=
  take k cells ++ xs ++ drop (k + length xs) cells.

(** [s[i] = x]: panics when [i] is out of range. *)
Definition swrite (h : heap X) (s : slice) (i : nat) (x : option X) : option (heap X) :=
  match s with
  | SNil => None
  | SMk a o l _ =>
      if decide (i < l) then cells ← h !! a; Some (<[a := write_at cells (o + i) [x]]> h)
      else None
  end.

(** [make([]X, n, c)]: a fresh zeroed array; panics when [n > c]. *)
Definition make (h : heap X) (n c : nat) : option (heap X * slice) :=
  if decide (n ≤ c) then Some (h ++ [replicate c None], SMk (length h) 0 n c)
  else None.

(** [s[:i]]: panics when [i] exceeds the capacity. *)
Definition sprefix (s : slice) (i : nat) : option slice :=
  match s with
  | SNil => if decide (i = 0) then Some SNil else None
  | SMk a o _ c => if decide (i ≤ c) then Some (SMk a o i c) else None
  end.

(** [s[i:]]: panics when [i] exceeds the length. *)
Definition ssuffix (s : slice) (i : nat) : option slice :=
  match s with
  | SNil => if decide (i = 0) then Some SNil else None
  | SMk a o l c => if decide (i ≤ l) then Some (SMk a (o + i) (l - i) (c - i)) else None
  end.

(** [copy(dst, src)]: the first [min(len(dst), len(src))] elements, read
    before they are written. *)
Definition copy (h : heap X) (dst src : slice) : option (heap X) :=
  xs ← contents h src;
  match dst with
  | SNil => Some h
  | SMk a o l _ =>
      cells ← h !! a; Some (<[a := write_at cells o (take l xs)]> h)
  end.

Section Append.
(** The capacity the runtime picks when [append] has to reallocate: a
    function of the old capacity and of the length needed.  The Go
    runtime is not part of the repository; whatever it picks is at least
    the length needed. *)
Variable growcap : nat → nat → nat.

(** [append(s, xs...)]: in place when the capacity allows, in a fresh
    array otherwise.  The elements [xs] have been read before. *)
Definition append (h : heap X) (s : slice) (xs : list (option X))
  : option (heap X * slice) :=
  let n := slen s + length xs in
  if decide (n ≤ scap s) then
    match s with
    | SNil => Some (h, SNil)
    | SMk a o l c =>
        cells ← h !! a; Some (<[a := write_at cells (o + l) xs]> h, SMk a o n c)
    end
  else
    old ← contents h s;
    let c := n `max` growcap (scap s) n in
    Some (h ++ [old ++ xs ++ replicate (c - n) None], SMk (length h) 0 n c).
End Append.
End Slices.


(** ** The registry state shared by both types *)

Section Registry.
(** [P]: what a listener slot holds ([T] behind a [unique.Handle] for
    [Broadcast[T]], a [Uniquer[K,T]] value for [UniqueBroadcast[K,T]]);
    [T]: the payload handed to handlers; [E]: the state of the rest of
    the program, which a handler may read and write. *)
Context {P T E : Type}.

(** What a handler does to the registry it is registered in while it
    runs.  [Handle], [Watch], [Unwatch], [Clean] and [CleanAll] are
    covered; a nested [Broadcast] is not. *)
#[local] Unset Elimination Schemes.
Inductive call : Type :=
  | CWatch (signal : string) (data : P)
  | CUnwatch (signal : string) (data : P)
  | CClean (signal : string)
  | CCleanAll
  | CHandle (handler : string → T → E → E * list call * bool).
#[local] Set Elimination Schemes.

(** [Handler[T]] and [UniqueHandler[K,T]]: [func(signal string, data T) error].
    The result carries the new program state, the registry calls the
    handler made, and whether the returned error is non-nil. *)
Definition Handler : Type := string → T → E → E * list call * bool.

(** The struct: [handlers] is a slice that is only ever appended to, so
    no element below a length once seen is overwritten and a header taken
    earlier sees the same handlers as a copy; it is modelled by its
    contents.  [listeners] is [None] for the nil map of the zero value.
    [mem] holds the backing arrays of the listener slices. *)
Record registry : Type := Registry {
  mem : heap P;
  handlers : list Handler;
  listeners : option (gmap string slice);
}.

Definition set_mem (b : registry) (h : heap P) : registry :=
  {| mem := h; handlers := handlers b; listeners := listeners b |}.

Definition set_listeners (b : registry) (m : option (gmap string slice)) : registry :=
  {| mem := mem b; handlers := handlers b; listeners := m |}.

(** [&Broadcast[T]{}] and [&UniqueBroadcast[K,T]{}]: the zero value. *)
Definition zero : registry :=
  {| mem := []; handlers := []; listeners := None |}.

(** [New] and [NewUnique]. *)
Definition New : registry :=
  {| mem := []; handlers := []; listeners := Some ∅ |}.

(** [v, ok := m[signal]] on a possibly nil map. *)
Definition map_get (m : option (gmap string slice)) (signal : string)
  : slice * bool :=
  match m with
  | None => (SNil, false)
  | Some g => match g !! signal with Some s => (s, true) | None => (SNil, false) end
  end.

(** [m[signal] = s]: panics on a nil map. *)
Definition map_set (m : option (gmap string slice)) (signal : string) (s : slice)
  : option (option (gmap string slice)) :=
  match m with
  | None => None
  | Some g => Some (Some (<[signal := s]> g))
  end.

(** [delete(m, signal)]: nothing happens on a nil map. *)
Definition map_delete (m : option (gmap string slice)) (signal : string)
  : option (gmap string slice) :=
  match m with
  | None => None
  | Some g => Some (delete signal g)
  end.

(** [Handle]: identical in both types. *)
Definition Handle (b : registry) (handler : Handler) : registry :=
  {| mem := mem b; handlers := handlers b ++ [handler]; listeners := listeners b |}.

(** [Clean]: identical in both types. *)
Definition Clean (b : registry) (signal : string) : registry :=
  set_listeners b (map_delete (listeners b) signal).

(** [CleanAll]: identical in both types. *)
Definition CleanAll (b : registry) : registry :=
  set_listeners b (Some ∅).

(** [HasWatch]: identical in both types. *)
Definition HasWatch (b : registry) (signal : string) : bool :=
  let '(ls, exists_) := map_get (listeners b) signal in
  exists_ && bool_decide (0 < slen ls).

(** [WatchCount]: identical in both types.  Go's [int] is wide enough
    for any length, so the count is a [nat]. *)
Definition WatchCount (b : registry) (signal : string) : nat :=
  slen (map_get (listeners b) signal).1.

(** The order in which [range] walks a map is picked by the runtime: any
    enumeration of the entries, each once. *)
Definition enumerates (b : registry) (entries : list (string * slice)) : Prop :=
  entries ≡ₚ map_to_list (default ∅ (listeners b)).

Section Range.
(** The visitor is a closure: [V] is what it captured. *)
Context {V : Type}.

End Range.

(** One handler invocation made by [Broadcast]: which handler of the
    snapshot, which slot of the listener snapshot, the payload passed,
    and whether the handler returned an error. *)
Record invocation : Type := Invocation {
  inv_handler : nat;
  inv_slot : nat;
  inv_payload : T;
  inv_err : bool;
}.

(** The dispatch loops of [Broadcast], the same in both types up to how
    a slot yields its payload ([value]) and which methods a handler calls
    back ([exec]). *)
Section Dispatch.
Variable exec : registry → call → option registry.
Variable value : option P → option T.

Fixpoint run_calls (b : registry) (cs : list call) : option registry :=
  match cs with
  | [] => Some b
  | c :: rest => b1 ← exec b c; run_calls b1 rest
  end.

(** [for _, data := range listeners { _ = handler(signal, data.Value()) }]:
    the length of [ls] was fixed when the loop started ([js] are the
    indices still to visit); each element is read from the backing
    array when its turn comes. *)
Fixpoint range_listeners (hi : nat) (handler : Handler) (signal : string)
    (ls : slice) (js : list nat) (st : registry * E * list invocation)
  : option (registry * E * list invocation) :=
  match js with
  | [] => Some st
  | j :: rest =>
      let '(b, env, tr) := st in
      data ← sread (mem b) ls j;
      v ← value data;
      let '(env1, calls, err) := handler signal v env in
      b1 ← run_calls b calls;
      range_listeners hi handler signal ls rest
        (b1, env1, tr ++ [Invocation hi j v err])
  end.

(** [for _, handler := range handlers { ... }] *)
Fixpoint range_handlers (hs : list Handler) (hi : nat) (signal : string)
    (ls : slice) (st : registry * E * list invocation)
  : option (registry * E * list invocation) :=
  match hs with
  | [] => Some st
  | handler :: rest =>
      st1 ← range_listeners hi handler signal ls (seq 0 (slen ls)) st;
      range_handlers rest (S hi) signal ls st1
  end.
End Dispatch.
End Registry.

Arguments call : clear implicits.
Arguments Handler : clear implicits.
Arguments registry : clear implicits.
Arguments invocation : clear implicits.

(** ** [Broadcast[T]]: listeners deduplicated by value *)

Module Broadcast.
Section Direct.
Context {T E : Type} `{EqDecision T}.
Variable growcap : nat → nat → nat.

(** [unique.Make]: equal values give equal handles, so a handle is
    modelled by the value it stands for. *)
Definition Make (data : T) : option T := Some data.

(** [Handle.Value]: dereferences the handle; the zero handle is nil. *)
Definition Value (handle : option T) : option T := handle.

(** The loop of [Watch]: is some [listener == handle]? *)
Fixpoint has_handle (handle : option T) (items : list (option T)) : bool :=
  match items with
  | [] => false
  | listener :: rest =>
      if decide (listener = handle) then true else has_handle handle rest
  end.

(** The loop of [Unwatch]: the first [i] with [item == handle]. *)
Fixpoint index_of (handle : option T) (items : list (option T)) (i : nat)
  : option nat :=
  match items with
  | [] => None
  | item :: rest =>
      if decide (item = handle) then Some i else index_of handle rest (S i)
  end.

Definition Watch (b : registry T T E) (signal : string) (data : T)
  : option (registry T T E) :=
  let m := match listeners b with None => Some ∅ | Some g => Some g end in
  let handle := Make data in
  let ls := (map_get m signal).1 in
  items ← contents (mem b) ls;
  if has_handle handle items then Some (set_listeners b m)
  else
    '(h, ls1) ← append growcap (mem b) (map_get m signal).1 [handle];
    m1 ← map_set m signal ls1;
    Some {| mem := h; handlers := handlers b; listeners := m1 |}.

Definition Unwatch (b : registry T T E) (signal : string) (data : T)
  : option (registry T T E) :=
  let handle := Make data in
  let ls := (map_get (listeners b) signal).1 in
  if is_nil ls then Some b
  else
    items ← contents (mem b) ls;
    match index_of handle items 0 with
    | None => Some b
    | Some i =>
        dst ← sprefix ls i;
        src ← ssuffix ls (i + 1);
        xs ← contents (mem b) src;
        '(h, ls1) ← append growcap (mem b) dst xs;
        m1 ← map_set (listeners b) signal ls1;
        Some {| mem := h; handlers := handlers b; listeners := m1 |}
    end.

(** The methods a handler can call back. *)
Definition exec (b : registry T T E) (c : call T T E) : option (registry T T E) :=
  match c with
  | CWatch signal data => Watch b signal data
  | CUnwatch signal data => Unwatch b signal data
  | CClean signal => Some (Clean b signal)
  | CCleanAll => Some (CleanAll b)
  | CHandle handler => Some (Handle b handler)
  end.

(** [Broadcast]: the two headers are read, then the loops run.  Returns
    the registry and program state after the handlers ran and the
    invocations made. *)
Definition Broadcast (b : registry T T E) (signal : string) (env : E)
  : option (registry T T E * E * list (invocation T)) :=
  let listeners := (map_get (listeners b) signal).1 in
  let handlers := handlers b in
  range_handlers exec Value handlers 0 signal listeners (b, env, []).
End Direct.
End Broadcast.

(** ** [UniqueBroadcast[K,T]]: listeners deduplicated by key *)

(** The interface [Uniquer[K,T]], implemented by [U].  [unique.Handle[K]]
    is modelled by the key it stands for, as above. *)
Class Uniquer (K T U : Type) := {
  Unique : U → K;
  Value : U → T;
}.

Module UniqueBroadcast.
Section Keyed.
Context {K T U E : Type} `{EqDecision K} `{!Uniquer K T U}.
Variable growcap : nat → nat → nat.

(** A method call on an interface value panics when the value is nil. *)
Definition call_Unique (x : option U) : option K := Unique <$> x.
Definition call_Value (x : option U) : option T := Value <$> x.

(** The loop of [Watch]: is some [listener.Unique() == handle]? *)
Fixpoint has_key (handle : K) (items : list (option U)) : option bool :=
  match items with
  | [] => Some false
  | listener :: rest =>
      k ← call_Unique listener;
      if decide (k = handle) then Some true else has_key handle rest
  end.

(** The loop of [Unwatch]: the first [i] with [item.Unique() == handle]. *)
Fixpoint key_index (handle : K) (items : list (option U)) (i : nat)
  : option (option nat) :=
  match items with
  | [] => Some None
  | item :: rest =>
      k ← call_Unique item;
      if decide (k = handle) then Some (Some i) else key_index handle rest (S i)
  end.

Definition Watch (b : registry U T E) (signal : string) (data : U)
  : option (registry U T E) :=
  let m := match listeners b with None => Some ∅ | Some g => Some g end in
  let ls := (map_get m signal).1 in
  let handle := Unique data in
  items ← contents (mem b) ls;
  dup ← has_key handle items;
  if dup : bool then Some (set_listeners b m)
  else
    '(h1, newListeners) ← make (mem b) (slen ls + 1) (slen ls + 1);
    h2 ← copy h1 newListeners ls;
    h3 ← swrite h2 newListeners (slen ls) (Some data);
    m1 ← map_set m signal newListeners;
    Some {| mem := h3; handlers := handlers b; listeners := m1 |}.

Definition Unwatch (b : registry U T E) (signal : string) (data : U)
  : option (registry U T E) :=
  let ls := (map_get (listeners b) signal).1 in
  if is_nil ls then Some b
  else
    let handle := Unique data in
    items ← contents (mem b) ls;
    found ← key_index handle items 0;
    match found with
    | None => Some b
    | Some i =>
        '(h1, new1) ← make (mem b) 0 (slen ls - 1);
        pre ← sprefix ls i;
        xs1 ← contents h1 pre;
        '(h2, new2) ← append growcap h1 new1 xs1;
        suf ← ssuffix ls (i + 1);
        xs2 ← contents h2 suf;
        '(h3, new3) ← append growcap h2 new2 xs2;
        m1 ← map_set (listeners b) signal new3;
        Some {| mem := h3; handlers := handlers b; listeners := m1 |}
    end.

(** The methods a handler can call back. *)
Definition exec (b : registry U T E) (c : call U T E) : option (registry U T E) :=
  match c with
  | CWatch signal data => Watch b signal data
  | CUnwatch signal data => Unwatch b signal data
  | CClean signal => Some (Clean b signal)
  | CCleanAll => Some (CleanAll b)
  | CHandle handler => Some (Handle b handler)
  end.

(** [Broadcast]: both sequences are copied into fresh arrays, then the
    loops run over the copies. *)
Definition Broadcast (b : registry U T E) (signal : string) (env : E)
  : option (registry U T E * E * list (invocation T)) :=
  let src := (map_get (listeners b) signal).1 in
  '(h1, listeners) ← make (mem b) (slen src) (slen src);
  h2 ← copy h1 listeners src;
  let handlers := handlers b in
  range_handlers exec call_Value handlers 0 signal listeners
    (set_mem b h2, env, []).
End Keyed.
End UniqueBroadcast.

(** ** What a registry state means *)

Section Abstraction.
Context {P T E : Type}.

(** The listeners a slice holds, in order. *)
Definition slice_view (h : heap P) (sl : slice) : list P :=
  omap id (default [] (contents h sl)).

(** The listener sequence of a signal. *)
Definition view (b : registry P T E) (signal : string) : list P :=
  slice_view (mem b) (map_get (listeners b) signal).1.

(** Is the signal a key of the listener mapping? *)
Definition present (b : registry P T E) (signal : string) : bool :=
  (map_get (listeners b) signal).2.

Definition sarr (sl : slice) : nat :=
  match sl with SNil => 0 | SMk a _ _ _ => a end.

(** A stored slice starts at the beginning of an allocated array, fits in
    it, and its elements are not the zero value. *)
Definition slice_ok (h : heap P) (sl : slice) : Prop :=
  match sl with
  | SNil => False
  | SMk a o l c =>
      o = 0 ∧ l ≤ c ∧
      ∃ cells items, h !! a = Some cells ∧ length cells = c ∧
                     take l cells = Some <$> items
  end.

(** The shape of the states the methods produce: every stored slice is
    as above, and two signals never share a backing array. *)
Definition wf (b : registry P T E) : Prop :=
  ∀ g, listeners b = Some g →
    (∀ s sl, g !! s = Some sl → slice_ok (mem b) sl) ∧
    (∀ s1 s2 sl1 sl2, g !! s1 = Some sl1 → g !! s2 = Some sl2 →
                      sarr sl1 = sarr sl2 → s1 = s2).

(** The cells [0, L) of array [a] hold listeners. *)
Definition populated (h : heap P) (a L : nat) : Prop :=
  ∃ cells, h !! a = Some cells ∧ L ≤ length cells ∧ Forall is_Some (take L cells).

(** The handler and slot of an invocation, and with the payload. *)
Definition inv_index (iv : invocation T) : nat * nat :=
  (inv_handler iv, inv_slot iv).

Definition inv_delivery (iv : invocation T) : nat * nat * T :=
  (inv_handler iv, inv_slot iv, inv_payload iv).

(** Handler-major enumeration of [H] handlers over [L] slots, and over
    the payloads of a listener sequence. *)
Definition slots_from (hi H L : nat) : list (nat * nat) :=
  flat_map (λ i, (λ j, (i, j)) <$> seq 0 L) (seq hi H).

Definition fan_out_from (hi H : nat) (payloads : list T) : list (nat * nat * T) :=
  flat_map (λ i, imap (λ j v, (i, j, v)) payloads) (seq hi H).

Definition fan_out (H : nat) (payloads : list T) : list (nat * nat * T) :=
  fan_out_from 0 H payloads.

(** The cells [0, L) of array [a] hold [xs], and every stored slice over
    [a] is at least [L] long, so that appending to it leaves them alone. *)
Definition pinned (b : registry P T E) (a L : nat) (xs : list (option P)) : Prop :=
  (∃ cells, mem b !! a = Some cells ∧ take L cells = xs) ∧
  (∀ g s sl, listeners b = Some g → g !! s = Some sl → sarr sl = a → L ≤ slen sl).

(** What a slice header taken earlier still reads: nothing is asked of
    the nil slice. *)
Definition snapshot_of (b : registry P T E) (ls : slice) (items : list P) : Prop :=
  match ls with
  | SNil => items = []
  | SMk a o L _ => o = 0 ∧ L = length items ∧ pinned b a L (Some <$> items)
  end.

Definition readable (h : heap P) (ls : slice) : Prop :=
  match ls with
  | SNil => True
  | SMk a o L _ => o = 0 ∧ populated h a L
  end.

Definition no_unwatch (c : call P T E) : Prop :=
  match c with CUnwatch _ _ => False | _ => True end.

(** A handler all of whose callbacks satisfy [allowed]. *)
Definition tame (allowed : call P T E → Prop) (handler : Handler P T E) : Prop :=
  ∀ signal v env, Forall allowed (handler signal v env).1.2.

(** An invocation at handler and slot [ij] whose payload satisfies [R]. *)
Definition hit (R : nat → T → Prop) (ij : nat * nat) (iv : invocation T) : Prop :=
  inv_index iv = ij ∧ R ij.2 (inv_payload iv).
End Abstraction.

(** ** The states a program can reach *)

Section Reachable.
Context {T E : Type} `{EqDecision T}.
Variable growcap : nat → nat → nat.

(** One call of a method of [Broadcast[T]] that changes the state. *)
Inductive dstep : registry T T E → registry T T E → Prop :=
  | dstep_Handle b handler : dstep b (Handle b handler)
  | dstep_Watch b signal data b' :
      Broadcast.Watch growcap b signal data = Some b' → dstep b b'
  | dstep_Unwatch b signal data b' :
      Broadcast.Unwatch growcap b signal data = Some b' → dstep b b'
  | dstep_Broadcast b signal env b' env' tr :
      Broadcast.Broadcast growcap b signal env = Some (b', env', tr) → dstep b b'
  | dstep_Clean b signal : dstep b (Clean b signal)
  | dstep_CleanAll b : dstep b (CleanAll b).

(** From the zero value or from [New()]. *)
Inductive dreachable : registry T T E → Prop :=
  | dreach_zero : dreachable zero
  | dreach_New : dreachable New
  | dreach_step b b' : dreachable b → dstep b b' → dreachable b'.

(** No two listeners of a signal are equal. *)
Definition ddistinct (b : registry T T E) : Prop :=
  ∀ signal, NoDup (view b signal).
End Reachable.

Section ReachableKeyed.
Context {K T U E : Type} `{EqDecision K} `{!Uniquer K T U}.
Variable growcap : nat → nat → nat.

(** One call of a method of [UniqueBroadcast[K,T]] that changes the state. *)
Inductive kstep : registry U T E → registry U T E → Prop :=
  | kstep_Handle b handler : kstep b (Handle b handler)
  | kstep_Watch b signal data b' :
      UniqueBroadcast.Watch b signal data = Some b' → kstep b b'
  | kstep_Unwatch b signal data b' :
      UniqueBroadcast.Unwatch growcap b signal data = Some b' → kstep b b'
  | kstep_Broadcast b signal env b' env' tr :
      UniqueBroadcast.Broadcast growcap b signal env = Some (b', env', tr) →
      kstep b b'
  | kstep_Clean b signal : kstep b (Clean b signal)
  | kstep_CleanAll b : kstep b (CleanAll b).

(** From the zero value or from [NewUnique()]. *)
Inductive kreachable : registry U T E → Prop :=
  | kreach_zero : kreachable zero
  | kreach_New : kreachable New
  | kreach_step b b' : kreachable b → kstep b b' → kreachable b'.

(** No two listeners of a signal have the same key. *)
Definition kdistinct (b : registry U T E) : Prop :=
  ∀ signal, NoDup (Unique <$> view b signal).
End ReachableKeyed.

(** ** Reading what [Range] did *)

Section RangeTrace.
Context {V : Type}.


End RangeTrace.

(** ** A small program *)

Module Examples.
(** A runtime that doubles the capacity when [append] reallocates. *)
Definition growcap (c n : nat) : nat := 2 * c.

(** A handler that counts its calls and returns no error. *)
Definition count_calls : Handler string string nat :=
  λ signal data n, (S n, [], false).

(** A handler that, when it is handed ["a"], unwatches ["a"] from the
    signal being broadcast. *)
Definition unwatch_a : Handler string string nat :=
  λ signal data n,
    (S n, if decide (data = "a") then [CUnwatch signal "a"] else [], false).

(** A handler that watches ["z"] on the signal being broadcast and
    returns an error. *)
Definition watch_z : Handler string string nat :=
  λ signal data n, (S n, [CWatch signal "z"], true).

(** [b := New[string](); b.Handle(h); b.Watch("s", "a"); b.Watch("s", "b");
    b.Watch("s", "c"); b.Watch("t", "d")] *)
Definition abc (handler : Handler string string nat)
  : option (registry string string nat) :=
  b1 ← Broadcast.Watch growcap (Handle New handler) "s" "a";
  b2 ← Broadcast.Watch growcap b1 "s" "b";
  b3 ← Broadcast.Watch growcap b2 "s" "c";
  Broadcast.Watch growcap b3 "t" "d".

Definition abc_quiet : registry string string nat :=
  Eval vm_compute in default zero (abc count_calls).

Definition abc_unwatching : registry string string nat :=
  Eval vm_compute in default zero (abc unwatch_a).

(** [abc] with the handler that unwatches ["a"], followed by
    [b.Handle(count_calls)]: two handlers, three listeners under ["s"]. *)
Definition abc_two_handlers : option (registry string string nat) :=
  (λ b, Handle b count_calls) <$> abc unwatch_a.

Definition abc_unwatching_counting : registry string string nat :=
  Eval vm_compute in default zero abc_two_handlers.

(** [Broadcast("s")] with a handler that watches back: the payloads
    delivered, the errors returned, the counter, the listeners afterwards. *)
Definition watch_z_scenario : option (list string * list bool * nat * list string) :=
  match abc watch_z with
  | Some b =>
      match Broadcast.Broadcast growcap b "s" 0 with
      | Some (b', counter, tr) =>
          Some (inv_payload <$> tr, inv_err <$> tr, counter, view b' "s")
      | None => None
      end
  | None => None
  end.

(** The test types of unique.go. *)
Record TestUniqueData : Type := { ID : Z; Name : string }.
Record TestUniquer : Type := { data : TestUniqueData }.

#[global] Instance TestUniquer_Uniquer : Uniquer Z TestUniqueData TestUniquer :=
  {| Unique t := ID (data t); Value t := data t |}.

Definition keyed (k : Z) (name : string) : TestUniquer :=
  {| data := {| ID := k; Name := name |} |}.

(** A handler that unwatches the listener it is handed. *)
Definition unwatch_self : Handler TestUniquer TestUniqueData nat :=
  λ signal d n, (S n, [CUnwatch signal {| data := d |}], false).

(** [b := NewUnique[int, TestUniqueData](); b.Handle(h);
    b.Watch("s", keyed(1, "a")); b.Watch("s", keyed(2, "b"));
    b.Watch("t", keyed(3, "c"))] *)
Definition watch_users (handler : Handler TestUniquer TestUniqueData nat)
  : option (registry TestUniquer TestUniqueData nat) :=
  b1 ← UniqueBroadcast.Watch (Handle New handler) "s" (keyed 1 "a");
  b2 ← UniqueBroadcast.Watch b1 "s" (keyed 2 "b");
  UniqueBroadcast.Watch b2 "t" (keyed 3 "c").

Definition users : registry TestUniquer TestUniqueData nat :=
  Eval vm_compute in default zero (watch_users unwatch_self).

(** A handler that counts its calls. *)
Definition count_users : Handler TestUniquer TestUniqueData nat :=
  λ signal d n, (S n, [], false).

(** [Watch("login", u1)] and [Watch("login", u2)], both with the key 1. *)
Definition login_twice : option (registry TestUniquer TestUniqueData nat) :=
  b1 ← UniqueBroadcast.Watch (Handle New count_users) "login" (keyed 1 "u1");
  UniqueBroadcast.Watch b1 "login" (keyed 1 "u2").

(** Then [Watch("login", u3)] with the key 2. *)
Definition login_thrice : option (registry TestUniquer TestUniqueData nat) :=
  b2 ← login_twice;
  UniqueBroadcast.Watch b2 "login" (keyed 2 "u3").

(** Then [Broadcast("login")]: the counts after the second and the third
    [Watch], the counter, and the names delivered. *)
Definition login_scenario : option (nat * nat * nat * list string) :=
  match login_twice, login_thrice with
  | Some b2, Some b3 =>
      match UniqueBroadcast.Broadcast growcap b3 "login" 0 with
      | Some (_, counter, tr) =>
          Some (WatchCount b2 "login", WatchCount b3 "login", counter,
                (λ iv, Name (inv_payload iv)) <$> tr)
      | None => None
      end
  | _, _ => None
  end.
End Examples.

(** ** A signal left with an empty slice *)

Section Emptied.
Context {P T E : Type}.

End Emptied.

(** ** [uniqueWrapper[T]] *)

(** The wrapper of unnamed/part_001 that makes a comparable value a
    [Uniquer]: its key is the value itself.  The methods have a pointer
    receiver; the pointer is taken to be non-nil. *)
Module uniqueWrapper.
Record t (T : Type) : Type := Build { data : T }.
Arguments Build {T} data.
Arguments data {T} _.

(** [Unique]: [unique.Make(u.data)]. *)
Definition Unique {T : Type} (u : t T) : T := data u.

(** [Value]: [u.data]. *)
Definition Value {T : Type} (u : t T) : T := data u.
End uniqueWrapper.

#[global] Instance uniqueWrapper_Uniquer (T : Type) : Uniquer T T (uniqueWrapper.t T) :=
  {| Unique := uniqueWrapper.Unique; Value := uniqueWrapper.Value |}.

(** ** Comparing two registries, and what handlers leave behind *)

Section Comparing.
Context {P T E : Type}.

(** The same handlers and, signal by signal, the same listeners and the
    same presence in the mapping. *)
Definition same_listeners (b1 b2 : registry P T E) : Prop :=
  handlers b1 = handlers b2 ∧
  ∀ s, view b1 s = view b2 s ∧ present b1 s = present b2 s.

(** The program state after one handler has been handed the payloads one
    after the other, and after each handler in turn has. *)
Definition pass (handler : Handler P T E) (signal : string) (payloads : list T)
    (env : E) : E :=
  foldl (λ e v, (handler signal v e).1.1) env payloads.

Definition passes (hs : list (Handler P T E)) (signal : string) (payloads : list T)
    (env : E) : E :=
  foldl (λ e handler, pass handler signal payloads e) env hs.

(** A handler that never calls the registry back. *)
Definition quiet (handler : Handler P T E) : Prop :=
  ∀ signal v env, (handler signal v env).1.2 = [].

(** A trace that is a run of the handlers [hs] on a signal: invocation
    after invocation, the handler at the recorded index was called with
    the recorded payload in the program state the previous invocation
    left, and it returned the recorded error. *)
Fixpoint run_of (hs : list (Handler P T E)) (signal : string) (env : E)
    (tr : list (invocation T)) (env' : E) : Prop :=
  match tr with
  | [] => env' = env
  | iv :: rest =>
      ∃ handler,
        hs !! inv_handler iv = Some handler ∧
        inv_err iv = (handler signal (inv_payload iv) env).2 ∧
        run_of hs signal (handler signal (inv_payload iv) env).1.1 rest env'
  end.

(** Two states that differ at most in their handlers, and two outcomes of
    a dispatch that differ at most in the handlers left registered. *)
Definition same_store (b1 b2 : registry P T E) : Prop :=
  mem b1 = mem b2 ∧ listeners b1 = listeners b2.

Definition same_outcome (r1 r2 : registry P T E * E * list (invocation T)) : Prop :=
  same_store r1.1.1 r2.1.1 ∧ r1.1.2 = r2.1.2 ∧ r1.2 = r2.2.
End Comparing.

(** A registry of wrappers that holds, signal by signal, the wrapped
    listeners of a registry of values. *)
Definition wrapped {T E E' : Type} (db : registry T T E)
    (kb : registry (uniqueWrapper.t T) T E') : Prop :=
  ∀ s, view kb s = uniqueWrapper.Build <$> view db s ∧ present kb s = present db s.

(** ** Slices: basic facts *)

Section SliceFacts.
Context {X : Type}.
Implicit Types (h : heap X) (cells xs : list (option X)) (items : list X).

Lemma omap_id_Some items : omap id (Some <$> items) = items.
Proof. induction items as [|x items IH]; [done |]. csimpl. by f_equal. Qed.

Lemma length_write_at cells k xs :
  k + length xs ≤ length cells → length (write_at cells k xs) = length cells.
Proof.
  intros Hk. unfold write_at.
  rewrite !length_app, length_take, length_drop. lia.
Qed.

Lemma take_write_at cells k xs :
  k ≤ length cells → take (k + length xs) (write_at cells k xs) = take k cells ++ xs.
Proof.
  intros Hk. unfold write_at.
  rewrite app_assoc. rewrite take_app_length'; [done |].
  rewrite length_app, length_take. lia.
Qed.

Lemma lookup_write_at_lt cells k xs j :
  j < k → k ≤ length cells → write_at cells k xs !! j = cells !! j.
Proof.
  intros Hj Hk. unfold write_at.
  rewrite lookup_app_l by (rewrite length_take; lia).
  by rewrite lookup_take_lt.
Qed.

Lemma lookup_write_at_mid cells k xs j :
  k ≤ j → j < k + length xs → k ≤ length cells →
  write_at cells k xs !! j = xs !! (j - k).
Proof.
  intros Hj1 Hj2 Hk. unfold write_at.
  rewrite lookup_app_r by (rewrite length_take; lia).
  rewrite length_take, Nat.min_l by lia.
  by rewrite lookup_app_l by lia.
Qed.

Lemma lookup_write_at_ge cells k xs j :
  k + length xs ≤ j → k ≤ length cells →
  write_at cells k xs !! j = cells !! j.
Proof.
  intros Hj Hk. unfold write_at.
  rewrite lookup_app_r by (rewrite length_take; lia).
  rewrite length_take, Nat.min_l by lia.
  rewrite lookup_app_r by lia.
  rewrite lookup_drop. f_equal. lia.
Qed.

Lemma slice_view_Some h a l c cells items :
  h !! a = Some cells → take l cells = Some <$> items →
  slice_view h (SMk a 0 l c) = items.
Proof.
  intros Ha Ht. unfold slice_view. simpl. rewrite Ha. simpl.
  rewrite drop_0, Ht. apply omap_id_Some.
Qed.

Lemma slice_ok_view_length h sl :
  slice_ok h sl → length (slice_view h sl) = slen sl.
Proof.
  destruct sl as [|a o l c]; [done |].
  intros (-> & Hl & cells & items & Ha & Hc & Ht).
  rewrite (slice_view_Some _ _ _ _ _ _ Ha Ht). simpl.
  apply (f_equal length) in Ht. rewrite length_take, length_fmap in Ht. lia.
Qed.

Lemma slice_ok_alloc h ext sl : slice_ok h sl → slice_ok (h ++ ext) sl.
Proof.
  destruct sl as [|a o l c]; [done |].
  intros (-> & Hl & cells & items & Ha & Hc & Ht).
  split_and!; [done | done |]. exists cells, items.
  split_and!; [| done | done]. by apply lookup_app_l_Some.
Qed.

Lemma slice_view_alloc h ext sl :
  slice_ok h sl → slice_view (h ++ ext) sl = slice_view h sl.
Proof.
  destruct sl as [|a o l c]; [done |].
  intros (-> & Hl & cells & items & Ha & Hc & Ht).
  unfold slice_view. simpl. by rewrite (lookup_app_l_Some _ _ _ _ Ha), Ha.
Qed.



Lemma slice_ok_lt h sl : slice_ok h sl → sarr sl < length h.
Proof.
  destruct sl as [|a o l c]; [done |].
  intros (-> & Hl & cells & items & Ha & Hc & Ht). simpl.
  by eapply lookup_lt_Some.
Qed.
End SliceFacts.

(** ** Updating one signal's slice *)

Section Frame.
Context {P T E : Type}.
Implicit Types (b : registry P T E) (h : heap P) (g : gmap string slice).

Lemma slice_ok_agree h h' sl :
  h' !! sarr sl = h !! sarr sl → slice_ok h sl → slice_ok h' sl.
Proof.
  destruct sl as [|a o l c]; [done |]. simpl.
  intros Heq (-> & Hl & cells & items & Ha & Hc & Ht).
  split_and!; [done | done |]. exists cells, items. by rewrite Heq.
Qed.

Lemma slice_view_agree h h' sl :
  h' !! sarr sl = h !! sarr sl → slice_view h' sl = slice_view h sl.
Proof.
  destruct sl as [|a o l c]; [done |]. simpl.
  intros Heq. unfold slice_view. simpl. by rewrite Heq.
Qed.

Lemma set_listeners_id b g : listeners b = Some g → set_listeners b (Some g) = b.
Proof. destruct b as [m hs l]. simpl. by intros ->. Qed.

Lemma view_present b s : present b s = false → view b s = [].
Proof.
  unfold present, view, map_get.
  destruct (listeners b) as [g|]; [| done].
  by destruct (g !! s).
Qed.

Lemma wf_lookup b g s sl :
  wf b → listeners b = Some g → g !! s = Some sl → slice_ok (mem b) sl.
Proof. intros Hwf Hg Hs. destruct (Hwf g Hg) as [Hok _]. eauto. Qed.

Lemma view_lookup b g s sl :
  listeners b = Some g → g !! s = Some sl → view b s = slice_view (mem b) sl.
Proof. intros Hg Hs. unfold view, map_get. by rewrite Hg, Hs. Qed.

Lemma HasWatch_decide b s : HasWatch b s = bool_decide (0 < WatchCount b s).
Proof.
  unfold HasWatch, WatchCount, map_get.
  destruct (listeners b) as [g|]; [| done].
  by destruct (g !! s).
Qed.

Lemma WatchCount_view b s : wf b → WatchCount b s = length (view b s).
Proof.
  intros Hwf. unfold WatchCount, view, map_get.
  destruct (listeners b) as [g|] eqn:Hg; [| done].
  destruct (g !! s) as [sl|] eqn:Hs; [| done]. simpl.
  symmetry. apply slice_ok_view_length. by eapply wf_lookup.
Qed.

Lemma lazy_map_wf b :
  wf b → wf (set_listeners b (Some (default ∅ (listeners b)))).
Proof.
  intros Hwf g Hg. simpl in Hg. injection Hg as <-.
  destruct (listeners b) as [g|] eqn:Hb; simpl; [by apply Hwf |].
  split; intros ?; intros; simplify_map_eq.
Qed.

Lemma lazy_map_view b s' :
  let b0 := set_listeners b (Some (default ∅ (listeners b))) in
  view b0 s' = view b s' ∧ present b0 s' = present b s'.
Proof.
  unfold view, present, map_get. simpl.
  destruct (listeners b); simpl; [done |]. by rewrite lookup_empty.
Qed.

Lemma lazy_map_eq b :
  match listeners b with None => Some ∅ | Some g0 => Some g0 end
  = Some (default ∅ (listeners b)).
Proof. by destruct (listeners b). Qed.

Lemma view_nonempty_listeners b s :
  view b s ≠ [] → listeners b = Some (default ∅ (listeners b)).
Proof.
  unfold view, map_get. destruct (listeners b); [done |]. by intros [].
Qed.

(** What the slice of a signal holds, whether the signal is a key or not. *)
Lemma listeners_contents b s :
  wf b →
  ∃ items, contents (mem b) (map_get (listeners b) s).1 = Some (Some <$> items) ∧
           slen (map_get (listeners b) s).1 = length items ∧ view b s = items.
Proof.
  intros Hwf. unfold view, map_get.
  destruct (listeners b) as [g|] eqn:Hg; [| by exists []].
  destruct (g !! s) as [sl|] eqn:Hs; [| by exists []].
  pose proof (wf_lookup b g s sl Hwf Hg Hs) as Hok.
  destruct sl as [|a o l c]; [done |].
  destruct Hok as (-> & Hl & cells & items & Ha & Hc & Ht).
  exists items. simpl. rewrite Ha. simpl. rewrite drop_0, Ht. split_and!; [done | |].
  - apply (f_equal length) in Ht. rewrite length_take, length_fmap in Ht. lia.
  - by eapply slice_view_Some.
Qed.

(** Storing [sl'] under [s] in a store [h'] that differs from the old one
    only at array [a], which no other signal uses. *)
Lemma wf_update b g s sl' h' a :
  wf b → listeners b = Some g →
  (∀ a', a' < length (mem b) → a' ≠ a → h' !! a' = mem b !! a') →
  (∀ s0 sl0, g !! s0 = Some sl0 → sarr sl0 = a → s0 = s) →
  slice_ok h' sl' → sarr sl' = a →
  let b' := {| mem := h'; handlers := handlers b;
               listeners := Some (<[s := sl']> g) |} in
  wf b' ∧ view b' s = slice_view h' sl' ∧ present b' s = true ∧
  (∀ s', s' ≠ s → view b' s' = view b s' ∧ present b' s' = present b s').
Proof.
  intros Hwf Hg Hagree Hown Hok Ha b'.
  assert (Hkeep : ∀ s0 sl0, s0 ≠ s → g !! s0 = Some sl0 →
                  h' !! sarr sl0 = mem b !! sarr sl0).
  { intros s0 sl0 Hne Hs0. apply Hagree.
    - eapply slice_ok_lt, wf_lookup; eauto.
    - intros Heq. apply Hne. eauto. }
  split_and!.
  - intros g' Hg'. simpl in Hg'. injection Hg' as <-. simpl. split.
    + intros s0 sl0 Hs0. destruct (decide (s0 = s)) as [->|Hne].
      * rewrite lookup_insert_eq in Hs0. by injection Hs0 as <-.
      * rewrite lookup_insert_ne in Hs0 by done.
        eapply slice_ok_agree; [by eapply Hkeep |]. by eapply wf_lookup.
    + intros s1 s2 sl1 sl2 H1 H2 Heq.
      destruct (Hwf g Hg) as [_ Hinj].
      destruct (decide (s1 = s)) as [->|Hne1], (decide (s2 = s)) as [->|Hne2];
        [done | | |].
      * rewrite lookup_insert_eq in H1. injection H1 as <-.
        rewrite lookup_insert_ne in H2 by done.
        symmetry. eapply Hown; [done |]. congruence.
      * rewrite lookup_insert_eq in H2. injection H2 as <-.
        rewrite lookup_insert_ne in H1 by done.
        eapply Hown; [done |]. congruence.
      * rewrite lookup_insert_ne in H1, H2 by done. eauto.
  - unfold view, map_get. simpl. by rewrite lookup_insert_eq.
  - unfold present, map_get. simpl. by rewrite lookup_insert_eq.
  - intros s' Hne. unfold view, present, map_get. simpl.
    rewrite Hg, lookup_insert_ne by done.
    destruct (g !! s') as [sl0|] eqn:Hs0; [| done]. simpl.
    split; [| done]. apply slice_view_agree. by eapply Hkeep.
Qed.

Lemma take_write_at_below (cells xs : list (option P)) k L :
  L ≤ k → k ≤ length cells → take L (write_at cells k xs) = take L cells.
Proof.
  intros HL Hk. unfold write_at.
  rewrite take_app_le by (rewrite length_take; lia).
  rewrite take_take. f_equal. lia.
Qed.

Lemma pinned_lazy b a L xs :
  pinned b a L xs → pinned (set_listeners b (Some (default ∅ (listeners b)))) a L xs.
Proof.
  intros [Hcells Hlen]. split; [done |].
  intros g s sl [= <-] Hs. destruct (listeners b) as [g|] eqn:Hg; simpl in Hs.
  - by eapply Hlen.
  - by rewrite lookup_empty in Hs.
Qed.

Lemma pinned_update b g s sl' h' a L xs :
  listeners b = Some g → pinned b a L xs →
  (∀ cells, mem b !! a = Some cells →
            ∃ cells', h' !! a = Some cells' ∧ take L cells' = take L cells) →
  (sarr sl' = a → L ≤ slen sl') →
  pinned {| mem := h'; handlers := handlers b;
            listeners := Some (<[s := sl']> g) |} a L xs.
Proof.
  intros Hg [(cells & Ha & Ht) Hlen] Hh' Hsl'. split.
  - destruct (Hh' cells Ha) as (cells' & Ha' & Ht'). exists cells'.
    split; [done | congruence].
  - intros g' s0 sl0 [= <-] Hs0 Harr. destruct (decide (s0 = s)) as [->|Hne].
    + rewrite lookup_insert_eq in Hs0. injection Hs0 as <-. auto.
    + rewrite lookup_insert_ne in Hs0 by done. by eapply Hlen.
Qed.

Lemma pinned_Clean b s a L xs : pinned b a L xs → pinned (Clean b s) a L xs.
Proof.
  intros [Hcells Hlen]. split; [done |].
  intros g s0 sl0 Hg Hs0. unfold Clean, map_delete in Hg. simpl in Hg.
  destruct (listeners b) as [g0|] eqn:Hg0; [| done]. injection Hg as <-.
  apply lookup_delete_Some in Hs0 as [_ Hs0]. by eapply Hlen.
Qed.

Lemma pinned_CleanAll b a L xs : pinned b a L xs → pinned (CleanAll b) a L xs.
Proof.
  intros [Hcells Hlen]. split; [done |].
  intros g s0 sl0 [= <-] Hs0. by rewrite lookup_empty in Hs0.
Qed.

Lemma wf_zero : wf (@zero P T E).
Proof. by intros g Hg. Qed.

Lemma wf_New : wf (@New P T E).
Proof. intros g [= <-]. split; intros ?; intros; simplify_map_eq. Qed.

Lemma Handle_spec b handler :
  wf b → wf (Handle b handler) ∧
  (∀ s, view (Handle b handler) s = view b s ∧
        present (Handle b handler) s = present b s).
Proof. intros Hwf. split; [exact Hwf | done]. Qed.

Lemma Clean_spec b s :
  wf b → wf (Clean b s) ∧ view (Clean b s) s = [] ∧ present (Clean b s) s = false ∧
  (∀ s', s' ≠ s → view (Clean b s) s' = view b s' ∧
                  present (Clean b s) s' = present b s').
Proof.
  intros Hwf. unfold Clean, view, present, map_get, map_delete, wf. simpl.
  destruct (listeners b) as [g|] eqn:Hg; [| done].
  destruct (Hwf g Hg) as [Hok Hinj]. split_and!.
  - intros g' [= <-]. split.
    + intros s0 sl0 [_ Hs0]%lookup_delete_Some. eauto.
    + intros s1 s2 sl1 sl2 [_ H1]%lookup_delete_Some [_ H2]%lookup_delete_Some.
      eauto.
  - by rewrite lookup_delete_eq.
  - by rewrite lookup_delete_eq.
  - intros s' Hne. by rewrite lookup_delete_ne.
Qed.

Lemma CleanAll_spec b :
  wf (CleanAll b) ∧ ∀ s, view (CleanAll b) s = [] ∧ present (CleanAll b) s = false.
Proof.
  split.
  - intros g' [= <-]. split; intros ?; intros; simplify_map_eq.
  - intros s. unfold view, present, map_get. simpl. by rewrite lookup_empty.
Qed.

Lemma wf_set_mem_alloc b ext : wf b → wf (set_mem b (mem b ++ ext)).
Proof.
  intros Hwf g Hg. simpl in Hg. destruct (Hwf g Hg) as [Hok Hinj]. split; [| done].
  intros s sl Hs. simpl. apply slice_ok_alloc. eauto.
Qed.

Lemma view_set_mem_alloc b ext s :
  wf b → view (set_mem b (mem b ++ ext)) s = view b s.
Proof.
  intros Hwf. unfold view, map_get. simpl.
  destruct (listeners b) as [g|] eqn:Hg; [| done].
  destruct (g !! s) as [sl|] eqn:Hs; [| done]. simpl.
  apply slice_view_alloc. by eapply wf_lookup.
Qed.
End Frame.

(** ** The dispatch loops *)

Section DispatchFacts.
Context {P T E : Type}.
Variable exec : registry P T E → call P T E → option (registry P T E).
Variable value : option P → option T.
Variable Inv : registry P T E → Prop.
Variable allowed : call P T E → Prop.
Hypothesis exec_inv : ∀ b c, Inv b → allowed c →
  ∃ b', exec b c = Some b' ∧ Inv b' ∧ handlers b `prefix_of` handlers b'.

Lemma run_calls_inv b cs :
  Inv b → Forall allowed cs →
  ∃ b', run_calls exec b cs = Some b' ∧ Inv b' ∧ handlers b `prefix_of` handlers b'.
Proof.
  intros HI Hcs. revert b HI.
  induction Hcs as [|c cs Hc _ IH]; intros b HI; simpl.
  - by exists b.
  - destruct (exec_inv b c HI Hc) as (b1 & -> & HI1 & Hp1). simpl.
    destruct (IH b1 HI1) as (b2 & -> & HI2 & Hp2).
    exists b2. split_and!; [done | done |]. by etrans.
Qed.

Variable signal : string.
Variable ls : slice.
Variable R : nat → T → Prop.
Hypothesis read_ok : ∀ b j, Inv b → j < slen ls →
  ∃ v, sread (mem b) ls j ≫= value = Some v ∧ R j v.

Lemma range_listeners_inv hi handler js b env tr :
  tame allowed handler → Inv b → Forall (λ j, j < slen ls) js →
  ∃ b' env' tr',
    range_listeners exec value hi handler signal ls js (b, env, tr)
    = Some (b', env', tr ++ tr') ∧
    Inv b' ∧ handlers b `prefix_of` handlers b' ∧
    Forall2 (hit R) ((λ j, (hi, j)) <$> js) tr'.
Proof.
  intros Htame HI Hjs. revert b env tr HI.
  induction Hjs as [|j js Hj _ IH]; intros b env tr HI; simpl.
  - exists b, env, []. rewrite app_nil_r. split_and!; [done | done | done |].
    constructor.
  - destruct (read_ok b j HI Hj) as (v & Hread & HR).
    destruct (sread (mem b) ls j) as [data|]; [| done]. simpl in Hread |- *.
    rewrite Hread. simpl.
    pose proof (Htame signal v env) as Hcalls.
    destruct (handler signal v env) as [[env1 calls] err]. simpl in Hcalls.
    destruct (run_calls_inv b calls HI Hcalls) as (b1 & -> & HI1 & Hp1). simpl.
    destruct (IH b1 env1 (tr ++ [Invocation hi j v err]) HI1)
      as (b2 & env2 & tr2 & -> & HI2 & Hp2 & Hhit).
    exists b2, env2, (Invocation hi j v err :: tr2). split_and!.
    + by rewrite <- app_assoc.
    + done.
    + by etrans.
    + constructor; [| done]. by split.
Qed.

Lemma range_handlers_inv hs hi b env tr :
  Forall (tame allowed) hs → Inv b →
  ∃ b' env' tr',
    range_handlers exec value hs hi signal ls (b, env, tr)
    = Some (b', env', tr ++ tr') ∧
    Inv b' ∧ handlers b `prefix_of` handlers b' ∧
    Forall2 (hit R) (slots_from hi (length hs) (slen ls)) tr'.
Proof.
  intros Hhs. revert hi b env tr.
  induction Hhs as [|handler hs Hh _ IH]; intros hi b env tr HI; simpl.
  - exists b, env, []. rewrite app_nil_r. split_and!; [done | done | done |].
    constructor.
  - destruct (range_listeners_inv hi handler (seq 0 (slen ls)) b env tr Hh HI)
      as (b1 & env1 & tr1 & -> & HI1 & Hp1 & Hhit1).
    { apply Forall_seq. intros; lia. }
    simpl.
    destruct (IH (S hi) b1 env1 (tr ++ tr1) HI1)
      as (b2 & env2 & tr2 & -> & HI2 & Hp2 & Hhit2).
    exists b2, env2, (tr1 ++ tr2). split_and!.
    + by rewrite app_assoc.
    + done.
    + by etrans.
    + unfold slots_from in *. simpl. by apply Forall2_app.
Qed.
End DispatchFacts.

(** ** Reading a trace *)

Section Traces.
Context {T : Type}.
Implicit Types (tr : list (invocation T)) (payloads : list T).

Lemma hit_indices R ijs tr :
  Forall2 (hit R) ijs tr → inv_index <$> tr = ijs.
Proof.
  induction 1 as [|ij iv ijs tr [Hij _] _ IH]; [done |]. csimpl. by f_equal.
Qed.

Lemma slots_from_length hi H L : length (slots_from hi H L) = H * L.
Proof.
  unfold slots_from. revert hi. induction H as [|H IH]; intros hi; [done |].
  simpl. rewrite length_app, length_fmap, length_seq, IH. lia.
Qed.


Lemma row_hit hi j0 payloads ps :
  (∀ j v, ps !! j = Some v → payloads !! (j0 + j) = Some v) →
  Forall2 (hit (λ j v, payloads !! j = Some v))
    ((λ j, (hi, j)) <$> seq j0 (length ps))
    ((λ '(i, j, v), Invocation i j v false) <$> imap (λ j v, (hi, j0 + j, v)) ps).
Proof.
  revert j0. induction ps as [|v ps IH]; intros j0 Hps; [constructor |].
  rewrite imap_cons, fmap_cons. simpl length. simpl seq. rewrite fmap_cons.
  constructor.
  - split; [unfold inv_index; simpl; f_equal; lia |]. simpl.
    rewrite <- (Hps 0 v eq_refl). f_equal. lia.
  - rewrite (imap_ext _ (λ j v0, (hi, S j0 + j, v0))).
    + apply IH. intros j w Hj. rewrite <- (Hps (S j) w Hj). f_equal. lia.
    + intros j w _. simpl. do 2 f_equal. lia.
Qed.

(** A trace that hits every slot with the payload registered there is the
    fan-out of the listener sequence. *)
Lemma hit_fan_out hi H payloads tr :
  Forall2 (hit (λ j v, payloads !! j = Some v))
    (slots_from hi H (length payloads)) tr →
  inv_delivery <$> tr = fan_out_from hi H payloads.
Proof.
  intros Htr.
  assert (Hexp : Forall2 (hit (λ j v, payloads !! j = Some v))
            (slots_from hi H (length payloads))
            ((λ '(i, j, v), Invocation i j v false) <$> fan_out_from hi H payloads)).
  { unfold slots_from, fan_out_from. clear Htr. revert hi.
    induction H as [|H IH]; intros hi; [constructor |]. simpl.
    rewrite fmap_app. apply Forall2_app; [| apply IH].
    apply (row_hit hi 0 payloads payloads). by intros j v. }
  assert (Hdel : inv_delivery <$> tr
            = inv_delivery <$> ((λ '(i, j, v), Invocation i j v false)
                                  <$> fan_out_from hi H payloads)).
  { revert Htr Hexp. generalize (slots_from hi H (length payloads)).
    generalize ((λ '(i, j, v), Invocation i j v false) <$> fan_out_from hi H payloads).
    intros tr2 ijs Htr. revert tr2.
    induction Htr as [|ij iv ijs tr [Hi Hp] _ IH]; intros tr2 Hexp.
    - by apply Forall2_nil_inv_l in Hexp as ->.
    - apply Forall2_cons_inv_l in Hexp as (iv2 & tr2' & [Hi2 Hp2] & Hrest & ->).
      csimpl. f_equal; [| by apply IH].
      unfold inv_delivery, inv_index in *. destruct ij as [i j]. simpl in *.
      injection Hi as -> ->. injection Hi2 as -> ->. f_equal. congruence. }
  rewrite Hdel, <- list_fmap_compose.
  rewrite <- (list_fmap_id (fan_out_from hi H payloads)) at 2.
  apply list_fmap_ext. by intros _ [[i j] v] _.
Qed.

Lemma index_of_delivery tr : inv_index <$> tr = (inv_delivery <$> tr).*1.
Proof. rewrite <- list_fmap_compose. by apply list_fmap_ext. Qed.

Lemma fan_out_from_indices hi H payloads :
  (fan_out_from hi H payloads).*1 = slots_from hi H (length payloads).
Proof.
  unfold fan_out_from, slots_from. revert hi.
  induction H as [|H IH]; intros hi; [done |].
  simpl. rewrite fmap_app, IH. f_equal.
  rewrite fmap_imap. rewrite <- (imap_seq_0 payloads (λ j, (hi, j))).
  by apply imap_ext.
Qed.

Lemma payload_of_delivery tr : inv_payload <$> tr = (inv_delivery <$> tr).*2.
Proof. rewrite <- list_fmap_compose. by apply list_fmap_ext. Qed.

End Traces.


(** ** Cells that hold listeners *)

Section Somes.
Context {X : Type}.
Implicit Types (h : heap X) (cells xs : list (option X)) (items : list X).

Lemma somes_fmap items : Forall is_Some (Some <$> items).
Proof. apply Forall_fmap, Forall_true. by eexists. Qed.


Lemma somes_write_at cells k xs L :
  k + length xs ≤ length cells → Forall is_Some xs →
  Forall is_Some (take L cells) → Forall is_Some (take L (write_at cells k xs)).
Proof.
  intros Hk Hxs Hc. apply Forall_lookup. intros j y Hj.
  apply lookup_take_Some in Hj as [Hj HjL].
  destruct (decide (j < k)) as [Hlt|Hge].
  - rewrite lookup_write_at_lt in Hj by lia.
    eapply (Forall_lookup_1 _ _ j); [exact Hc |]. by rewrite lookup_take_lt.
  - destruct (decide (j < k + length xs)) as [Hmid|Hhi].
    + rewrite lookup_write_at_mid in Hj by lia.
      by eapply (Forall_lookup_1 _ _ _ _ Hxs).
    + rewrite lookup_write_at_ge in Hj by lia.
      eapply (Forall_lookup_1 _ _ j); [exact Hc |]. by rewrite lookup_take_lt.
Qed.

Lemma populated_alloc h ext a L : populated h a L → populated (h ++ ext) a L.
Proof.
  intros (cells & Ha & HL & Hs). exists cells.
  split_and!; [| done | done]. by apply lookup_app_l_Some.
Qed.

Lemma populated_insert h a0 cells0 xs k a L :
  h !! a0 = Some cells0 → k + length xs ≤ length cells0 → Forall is_Some xs →
  populated h a L → populated (<[a0 := write_at cells0 k xs]> h) a L.
Proof.
  intros Ha0 Hk Hxs (cells & Ha & HL & Hs).
  destruct (decide (a = a0)) as [->|Hne].
  - assert (cells = cells0) as -> by congruence.
    exists (write_at cells0 k xs). split_and!.
    + apply list_lookup_insert_eq. by eapply lookup_lt_Some.
    + by rewrite length_write_at.
    + by apply somes_write_at.
  - exists cells. by rewrite list_lookup_insert_ne.
Qed.

Lemma slice_ok_populated h sl : slice_ok h sl → populated h (sarr sl) (slen sl).
Proof.
  destruct sl as [|a o l c]; [done |].
  intros (-> & Hl & cells & items & Ha & Hc & Ht). simpl.
  exists cells. split_and!; [done | lia |]. rewrite Ht. apply somes_fmap.
Qed.
End Somes.

(** ** [Broadcast[T]]: what [Watch] and [Unwatch] do *)

Section DirectOps.
Context {T E : Type} `{EqDecision T}.
Variable growcap : nat → nat → nat.
Implicit Types (b : registry T T E) (h : heap T) (items : list T) (p : T).

Local Abbreviation Watch := (Broadcast.Watch growcap).
Local Abbreviation Unwatch := (Broadcast.Unwatch growcap).

Lemma has_handle_Some p items :
  Broadcast.has_handle (Some p) (Some <$> items) = bool_decide (p ∈ items).
Proof.
  induction items as [|x items IH]; [done |]. csimpl.
  destruct (decide (Some x = Some p)) as [Heq|Hne].
  - injection Heq as ->. symmetry. apply bool_decide_eq_true. left.
  - rewrite IH. apply bool_decide_ext. rewrite elem_of_cons.
    split; [tauto |]. intros [->|?]; [done | done].
Qed.

Local Ltac fold_b0 :=
  repeat match goal with
  | b0 := set_listeners ?b _ |- _ =>
      progress (change (handlers b0) with (handlers b) in *;
                change (mem b0) with (mem b) in * )
  end.

Lemma Watch_spec b s p :
  wf b →
  ∃ b', Watch b s p = Some b' ∧ wf b' ∧ handlers b' = handlers b ∧
        present b' s = true ∧
        view b' s = (if decide (p ∈ view b s) then view b s else view b s ++ [p]) ∧
        (∀ s', s' ≠ s → view b' s' = view b s' ∧ present b' s' = present b s') ∧
        (p ∈ view b s → b' = b) ∧
        (∀ a L, populated (mem b) a L → populated (mem b') a L) ∧
        (∀ a L xs, pinned b a L xs → pinned b' a L xs).
Proof.
  intros Hwf. pose proof (lazy_map_wf b Hwf) as Hwf0.
  pose proof (pinned_lazy b) as Hpin0.
  set (g := default ∅ (listeners b)) in *.
  set (b0 := set_listeners b (Some g)) in *.
  assert (Hv0 : ∀ s', view b0 s' = view b s' ∧ present b0 s' = present b s').
  { intros s'. unfold view, present, map_get, b0, g. simpl.
    destruct (listeners b); simpl; [done |]. by rewrite lookup_empty. }
  assert (Hm : match listeners b with None => Some ∅ | Some g0 => Some g0 end = Some g).
  { unfold g. by destruct (listeners b). }
  unfold Broadcast.Watch, Broadcast.Make. rewrite Hm. unfold map_get.
  destruct (g !! s) as [sl|] eqn:Hs.
  - (* the signal has a slice *)
    pose proof (wf_lookup b0 g s sl Hwf0 eq_refl Hs) as Hok.
    destruct sl as [|a o l c]; [done |].
    destruct Hok as (-> & Hl & cells & items & Ha & Hc & Ht). simpl in Ha.
    assert (Hview : view b s = items).
    { rewrite <- (proj1 (Hv0 s)). rewrite (view_lookup b0 g s _ eq_refl Hs).
      by eapply slice_view_Some. }
    simpl. rewrite Ha. simpl. rewrite drop_0, Ht, has_handle_Some, Hview.
    destruct (decide (p ∈ items)) as [Hin|Hnin].
    + rewrite bool_decide_eq_true_2 by done.
      assert (Hg : listeners b = Some g).
      { clear -Hs. subst g. destruct (listeners b); [done |].
        simpl in Hs. by rewrite lookup_empty in Hs. }
      rewrite (set_listeners_id b g Hg). exists b. split_and!; try done.
      unfold present, map_get. by rewrite Hg, Hs.
    + rewrite bool_decide_eq_false_2 by done.
      unfold append. simpl.
      assert (Hlen : length items = l).
      { apply (f_equal length) in Ht. rewrite length_take, length_fmap in Ht. lia. }
      destruct (decide (l + 1 ≤ c)) as [Hfit|Hfull].
      * (* in place *)
        rewrite Ha. simpl.
        edestruct (wf_update b0 g s (SMk a 0 (l + 1) c)
                     (<[a := write_at cells l [Some p]]> (mem b)) a)
          as (Hwf' & Hv' & Hp' & Hfr); try done; fold_b0.
        { intros a' _ Hne. by rewrite list_lookup_insert_ne. }
        { intros s0 sl0 Hs0 Ha0. destruct (Hwf0 g eq_refl) as [_ Hinj].
          by eapply Hinj. }
        { split_and!; [done | lia |].
          exists (write_at cells l [Some p]), (items ++ [p]). split_and!.
          - apply list_lookup_insert_eq. by eapply lookup_lt_Some.
          - rewrite length_write_at; simpl; lia.
          - replace (l + 1) with (l + length [Some p]) by done.
            rewrite take_write_at by lia. by rewrite Ht, fmap_app. }
        eexists. split; [done |]. split_and!; try done.
        -- rewrite Hv'. eapply slice_view_Some.
           ++ apply list_lookup_insert_eq. by eapply lookup_lt_Some.
           ++ replace (l + 1) with (l + length [Some p]) by done.
              rewrite take_write_at by lia. by rewrite Ht, fmap_app.
        -- intros s' Hne. destruct (Hfr s' Hne) as [-> ->]. apply Hv0.
        -- intros a' L HL. simpl. apply populated_insert; try done.
           ++ simpl. lia.
           ++ repeat constructor. by eexists.
        -- intros a' L xs Hpin. apply Hpin0 in Hpin.
           apply (pinned_update b0 g s _ _ a' L xs eq_refl Hpin).
           ++ intros cells0 Ha0. change (mem b0) with (mem b) in Ha0.
              destruct (decide (a' = a)) as [->|Hne].
              ** assert (cells0 = cells) as -> by congruence.
                 exists (write_at cells l [Some p]). split.
                 --- apply list_lookup_insert_eq. by eapply lookup_lt_Some.
                 --- apply take_write_at_below; [| lia].
                     destruct Hpin as [_ HL]. by apply (HL g s _ eq_refl Hs).
              ** exists cells0. by rewrite list_lookup_insert_ne.
           ++ simpl. intros <-. destruct Hpin as [_ HL].
              specialize (HL g s _ eq_refl Hs eq_refl). simpl in HL. lia.
      * (* reallocated *)
        rewrite Ha. simpl. rewrite drop_0, Ht.
        set (c' := (l + 1) `max` growcap c (l + 1)).
        set (cells' := (Some <$> items) ++ Some p :: replicate (c' - (l + 1)) None).
        assert (Hok' : slice_ok (mem b ++ [cells']) (SMk (length (mem b)) 0 (l + 1) c')).
        { split_and!; [done | lia |]. exists cells', (items ++ [p]). split_and!.
          - by rewrite lookup_app_r, Nat.sub_diag.
          - unfold cells'. rewrite length_app, length_fmap. simpl.
            rewrite length_replicate. lia.
          - unfold cells'. rewrite (cons_middle (Some p)), app_assoc, take_app_length'.
            + by rewrite fmap_app.
            + rewrite length_app, length_fmap. simpl. lia. }
        edestruct (wf_update b0 g s (SMk (length (mem b)) 0 (l + 1) c')
                     (mem b ++ [cells']) (length (mem b)))
          as (Hwf' & Hv' & Hp' & Hfr); try done; fold_b0.
        { intros a' Hlt _. by rewrite lookup_app_l. }
        { intros s0 sl0 Hs0 Ha0.
          pose proof (slice_ok_lt _ _ (wf_lookup b0 g s0 sl0 Hwf0 eq_refl Hs0)).
          simpl in *. lia. }
        eexists. split; [done |]. split_and!; try done.
        -- rewrite Hv'. eapply slice_view_Some.
           ++ by rewrite lookup_app_r, Nat.sub_diag.
           ++ unfold cells'. rewrite (cons_middle (Some p)), app_assoc, take_app_length'.
              ** by rewrite fmap_app.
              ** rewrite length_app, length_fmap. simpl. lia.
        -- intros s' Hne. destruct (Hfr s' Hne) as [-> ->]. apply Hv0.
        -- intros a' L HL. simpl. by apply populated_alloc.
        -- intros a' L xs Hpin. apply Hpin0 in Hpin.
           apply (pinned_update b0 g s _ _ a' L xs eq_refl Hpin).
           ++ intros cells0 Ha0. change (mem b0) with (mem b) in Ha0.
              exists cells0. split; [| done]. by apply lookup_app_l_Some.
           ++ simpl. intros <-. destruct Hpin as [(cells0 & Ha0 & _) _].
              apply lookup_lt_Some in Ha0. change (mem b0) with (mem b) in Ha0. lia.
  - (* first listener of the signal *)
    assert (Hview : view b s = []).
    { rewrite <- (proj1 (Hv0 s)). unfold view, map_get. simpl. by rewrite Hs. }
    simpl. rewrite Hview. simpl.
    unfold append. simpl.
    set (c' := 1 `max` growcap 0 1).
    set (cells' := Some p :: replicate (c' - 1) (@None T)).
    assert (Hok' : slice_ok (mem b ++ [cells']) (SMk (length (mem b)) 0 1 c')).
    { split_and!; [done | lia |]. exists cells', [p]. split_and!.
      - by rewrite lookup_app_r, Nat.sub_diag.
      - unfold cells'. simpl. rewrite length_replicate. lia.
      - done. }
    edestruct (wf_update b0 g s (SMk (length (mem b)) 0 1 c')
                 (mem b ++ [cells']) (length (mem b)))
      as (Hwf' & Hv' & Hp' & Hfr); try done; fold_b0.
    { intros a' Hlt _. by rewrite lookup_app_l. }
    { intros s0 sl0 Hs0 Ha0.
      pose proof (slice_ok_lt _ _ (wf_lookup b0 g s0 sl0 Hwf0 eq_refl Hs0)).
      simpl in *. lia. }
    eexists. split; [done |]. split_and!; try done.
    + rewrite Hv'. eapply slice_view_Some.
      * by rewrite lookup_app_r, Nat.sub_diag.
      * done.
    + intros s' Hne. destruct (Hfr s' Hne) as [-> ->]. apply Hv0.
    + intros Hin. by apply elem_of_nil in Hin.
    + intros a' L HL. simpl. by apply populated_alloc.
    + intros a' L xs Hpin. apply Hpin0 in Hpin.
      apply (pinned_update b0 g s _ _ a' L xs eq_refl Hpin).
      * intros cells0 Ha0. change (mem b0) with (mem b) in Ha0.
        exists cells0. split; [| done]. by apply lookup_app_l_Some.
      * simpl. intros <-. destruct Hpin as [(cells0 & Ha0 & _) _].
        apply lookup_lt_Some in Ha0. change (mem b0) with (mem b) in Ha0. lia.
Qed.

Lemma index_of_Some p items k :
  match Broadcast.index_of (Some p) (Some <$> items) k with
  | None => p ∉ items
  | Some i => ∃ l1 l2, items = l1 ++ p :: l2 ∧ (p ∉ l1) ∧ i = k + length l1
  end.
Proof.
  revert k. induction items as [|x items IH]; intros k; csimpl.
  - apply not_elem_of_nil.
  - destruct (decide (Some x = Some p)) as [Heq|Hne].
    + injection Heq as ->. exists [], items. split_and!; [done | | simpl; lia].
      apply not_elem_of_nil.
    + specialize (IH (S k)).
      destruct (Broadcast.index_of (Some p) (Some <$> items) (S k)) as [i|].
      * destruct IH as (l1 & l2 & -> & Hnin & ->).
        exists (x :: l1), l2. split_and!; [done | | simpl; lia].
        apply not_elem_of_cons. split; [congruence | done].
      * apply not_elem_of_cons. split; [congruence | done].
Qed.

Lemma Unwatch_spec b s p :
  wf b →
  ∃ b', Unwatch b s p = Some b' ∧ wf b' ∧ handlers b' = handlers b ∧
        (∀ s', present b' s' = present b s') ∧
        (∀ s', s' ≠ s → view b' s' = view b s') ∧
        (((p ∉ view b s) ∧ b' = b) ∨
         (∃ l1 l2, view b s = l1 ++ p :: l2 ∧ (p ∉ l1) ∧ view b' s = l1 ++ l2)) ∧
        (∀ a L, populated (mem b) a L → populated (mem b') a L).
Proof.
  intros Hwf. unfold Broadcast.Unwatch, Broadcast.Make.
  assert (Hnop : (p ∉ view b s) →
    ∃ b', Some b = Some b' ∧ wf b' ∧ handlers b' = handlers b ∧
        (∀ s', present b' s' = present b s') ∧
        (∀ s', s' ≠ s → view b' s' = view b s') ∧
        (((p ∉ view b s) ∧ b' = b) ∨
         (∃ l1 l2, view b s = l1 ++ p :: l2 ∧ (p ∉ l1) ∧ view b' s = l1 ++ l2)) ∧
        (∀ a L, populated (mem b) a L → populated (mem b') a L)).
  { intros Hnin. exists b. split_and!; try done. by left. }
  destruct (listeners b) as [g|] eqn:Hg; simpl.
  2:{ apply Hnop. unfold view, map_get. rewrite Hg. apply not_elem_of_nil. }
  destruct (g !! s) as [sl|] eqn:Hs; simpl.
  2:{ apply Hnop. unfold view, map_get. rewrite Hg, Hs. apply not_elem_of_nil. }
  pose proof (wf_lookup b g s sl Hwf Hg Hs) as Hok.
  destruct sl as [|a o l c]; [done |].
  destruct Hok as (-> & Hl & cells & items & Ha & Hc & Ht).
  assert (Hview : view b s = items).
  { rewrite (view_lookup b g s _ Hg Hs). by eapply slice_view_Some. }
  assert (Hlen : length items = l).
  { apply (f_equal length) in Ht. rewrite length_take, length_fmap in Ht. lia. }
  simpl. rewrite Ha. simpl. rewrite drop_0, Ht.
  pose proof (index_of_Some p items 0) as Hidx.
  destruct (Broadcast.index_of (Some p) (Some <$> items) 0) as [i|].
  2:{ apply Hnop. by rewrite Hview. }
  destruct Hidx as (l1 & l2 & Hitems & Hnin & Hi). simpl in Hi. subst i.
  assert (Hl12 : l = length l1 + 1 + length l2).
  { rewrite <- Hlen, Hitems, length_app. simpl. lia. }
  rewrite decide_True by lia. simpl.
  rewrite decide_True by lia. simpl.
  rewrite Ha. simpl.
  assert (Hxs : take (l - (length l1 + 1)) (drop (length l1 + 1) cells) = Some <$> l2).
  { rewrite take_drop_commute.
    replace (length l1 + 1 + (l - (length l1 + 1))) with l by lia.
    rewrite Ht, Hitems, (cons_middle p), app_assoc, fmap_app, drop_app_length'.
    - done.
    - rewrite length_fmap, length_app. simpl. lia. }
  assert (Hpre : take (length l1) cells = Some <$> l1).
  { replace (take (length l1) cells) with (take (length l1) (take l cells)).
    - rewrite Ht, Hitems, fmap_app, take_app_length'; [done |].
      by rewrite length_fmap.
    - rewrite take_take. f_equal. lia. }
  rewrite Hxs. unfold append. simpl. rewrite length_fmap.
  rewrite decide_True by lia. rewrite Ha. simpl.
  set (cells' := write_at cells (length l1) (Some <$> l2)).
  assert (Hcells' : length cells' = c).
  { unfold cells'. rewrite length_write_at; [done |]. rewrite length_fmap. lia. }
  assert (Htake' : take (length l1 + length l2) cells' = Some <$> (l1 ++ l2)).
  { unfold cells'. rewrite <- (length_fmap Some l2) at 1.
    rewrite take_write_at by lia. by rewrite Hpre, fmap_app. }
  assert (Hlook' : <[a := cells']> (mem b) !! a = Some cells').
  { apply list_lookup_insert_eq. by eapply lookup_lt_Some. }
  edestruct (wf_update b g s (SMk a 0 (length l1 + length l2) c)
               (<[a := cells']> (mem b)) a)
    as (Hwf' & Hv' & Hp' & Hfr); try done.
  { intros a' _ Hne. by rewrite list_lookup_insert_ne. }
  { intros s0 sl0 Hs0 Ha0. destruct (Hwf g Hg) as [_ Hinj]. by eapply Hinj. }
  { split_and!; [done | lia |]. by exists cells', (l1 ++ l2). }
  eexists. split; [done |]. split_and!; try done.
  - intros s'. destruct (decide (s' = s)) as [->|Hne].
    + rewrite Hp'. unfold present, map_get. by rewrite Hg, Hs.
    + by destruct (Hfr s' Hne) as [_ ->].
  - intros s' Hne. by destruct (Hfr s' Hne) as [-> _].
  - right. exists l1, l2. split_and!; [congruence | done |].
    rewrite Hv'. by eapply slice_view_Some.
  - intros a' L HL. simpl. apply populated_insert; try done.
    + rewrite length_fmap. lia.
    + apply somes_fmap.
Qed.
End DirectOps.

(** ** Writing into an array that was just allocated *)

Section Fresh.
Context {X : Type}.
Implicit Types (h : heap X) (cells xs pre : list (option X)).

Lemma lookup_fresh h cells : (h ++ [cells]) !! length h = Some cells.
Proof. by rewrite lookup_app_r, Nat.sub_diag. Qed.

Lemma insert_fresh h cells cells' :
  <[length h := cells']> (h ++ [cells]) = h ++ [cells'].
Proof.
  rewrite insert_app_r_alt by lia. by rewrite Nat.sub_diag.
Qed.

Lemma contents_alloc h ext sl xs :
  contents h sl = Some xs → contents (h ++ ext) sl = Some xs.
Proof.
  destruct sl as [|a o l c]; [done |]. simpl.
  destruct (h !! a) as [cells|] eqn:Ha; [| done].
  by rewrite (lookup_app_l_Some _ _ _ _ Ha).
Qed.

(** Filling the zeroed tail of a fresh array. *)
Lemma write_at_tail pre k xs :
  length xs ≤ k →
  write_at (pre ++ replicate k None) (length pre) xs
  = (pre ++ xs) ++ replicate (k - length xs) None.
Proof.
  intros Hk. unfold write_at.
  rewrite take_app_length, drop_app_add, drop_replicate.
  by rewrite <- app_assoc.
Qed.

Lemma copy_fresh h n sl xs :
  contents h sl = Some xs → length xs ≤ n →
  copy (h ++ [replicate n None]) (SMk (length h) 0 n n) sl
  = Some (h ++ [xs ++ replicate (n - length xs) None]).
Proof.
  intros Hc Hn. unfold copy.
  rewrite (contents_alloc _ _ _ _ Hc). simpl.
  rewrite lookup_fresh. simpl. rewrite insert_fresh.
  rewrite take_ge by done.
  pose proof (write_at_tail [] n xs Hn) as Hw. simpl in Hw. by rewrite Hw.
Qed.

Lemma swrite_fresh h pre k n c i x :
  i = length pre → i < n → 0 < k →
  swrite (h ++ [pre ++ replicate k None]) (SMk (length h) 0 n c) i x
  = Some (h ++ [(pre ++ [x]) ++ replicate (k - 1) None]).
Proof.
  intros -> Hn Hk. unfold swrite.
  rewrite decide_True by done. rewrite lookup_fresh. simpl.
  rewrite insert_fresh. by rewrite (write_at_tail pre k [x]) by (simpl; lia).
Qed.

Lemma append_fresh growcap h pre k n c xs :
  n = length pre → c = n + k → length xs ≤ k →
  append growcap (h ++ [pre ++ replicate k None]) (SMk (length h) 0 n c) xs
  = Some (h ++ [(pre ++ xs) ++ replicate (k - length xs) None],
          SMk (length h) 0 (n + length xs) c).
Proof.
  intros -> -> Hk. unfold append. simpl.
  rewrite decide_True by lia. rewrite lookup_fresh. simpl.
  rewrite insert_fresh. by rewrite (write_at_tail pre k xs Hk).
Qed.

Lemma append_fresh0 growcap h k xs :
  length xs ≤ k →
  append growcap (h ++ [replicate k None]) (SMk (length h) 0 0 k) xs
  = Some (h ++ [xs ++ replicate (k - length xs) None],
          SMk (length h) 0 (length xs) k).
Proof. intros Hk. by apply (append_fresh growcap h [] k 0 k xs). Qed.
End Fresh.

(** ** [UniqueBroadcast[K,T]]: what [Watch] and [Unwatch] do *)

Section KeyedOps.
Context {K T U E : Type} `{EqDecision K} `{!Uniquer K T U}.
Variable growcap : nat → nat → nat.
Implicit Types (b : registry U T E) (h : heap U) (items : list U) (u : U).

Local Abbreviation UWatch := UniqueBroadcast.Watch.
Local Abbreviation UUnwatch := (UniqueBroadcast.Unwatch growcap).

Lemma has_key_Some k items :
  UniqueBroadcast.has_key k (Some <$> items)
  = Some (bool_decide (k ∈ Unique <$> items)).
Proof.
  induction items as [|x items IH]; [done |]. csimpl.
  destruct (decide (Unique x = k)) as [Heq|Hne].
  - f_equal. symmetry. apply bool_decide_eq_true. rewrite Heq. left.
  - rewrite IH. f_equal. apply bool_decide_ext. rewrite elem_of_cons.
    split; [tauto |]. intros [?|?]; [congruence | done].
Qed.

Lemma key_index_Some k items n :
  ∃ r, UniqueBroadcast.key_index k (Some <$> items) n = Some r ∧
    match r with
    | None => k ∉ Unique <$> items
    | Some i => ∃ l1 u l2, items = l1 ++ u :: l2 ∧ Unique u = k ∧
                           (k ∉ Unique <$> l1) ∧ i = n + length l1
    end.
Proof.
  revert n. induction items as [|x items IH]; intros n; csimpl.
  - eexists. split; [done |]. apply not_elem_of_nil.
  - destruct (decide (Unique x = k)) as [Heq|Hne].
    + eexists. split; [done |]. exists [], x, items.
      split_and!; [done | done | | simpl; lia]. apply not_elem_of_nil.
    + destruct (IH (S n)) as (r & -> & Hr). exists r. split; [done |].
      destruct r as [i|].
      * destruct Hr as (l1 & u & l2 & -> & Hu & Hnin & ->).
        exists (x :: l1), u, l2. split_and!; [done | done | | simpl; lia].
        csimpl. apply not_elem_of_cons. split; [congruence | done].
      * apply not_elem_of_cons. split; [congruence | done].
Qed.

Local Ltac fold_b0 :=
  repeat match goal with
  | b0 := set_listeners ?b _ |- _ =>
      progress (change (handlers b0) with (handlers b) in *;
                change (mem b0) with (mem b) in * )
  end.

Lemma UWatch_spec b s u :
  wf b →
  ∃ b', UWatch b s u = Some b' ∧ wf b' ∧ handlers b' = handlers b ∧
        present b' s = true ∧
        view b' s = (if decide (Unique u ∈ Unique <$> view b s)
                     then view b s else view b s ++ [u]) ∧
        (∀ s', s' ≠ s → view b' s' = view b s' ∧ present b' s' = present b s') ∧
        (Unique u ∈ Unique <$> view b s → b' = b) ∧
        (∃ ext, mem b' = mem b ++ ext).
Proof.
  intros Hwf. pose proof (lazy_map_wf b Hwf) as Hwf0.
  pose proof (lazy_map_view b) as Hv0. simpl in Hv0.
  set (g := default ∅ (listeners b)) in *.
  set (b0 := set_listeners b (Some g)) in *.
  destruct (listeners_contents b0 s Hwf0) as (items & Hc & Hlen & Hview).
  rewrite (proj1 (Hv0 s)) in Hview.
  change (mem b0) with (mem b) in Hc.
  change (listeners b0) with (Some g) in Hc, Hlen.
  unfold UniqueBroadcast.Watch. rewrite (lazy_map_eq b). fold g.
  set (ls := (map_get (Some g) s).1) in *. clearbody ls.
  rewrite Hc. simpl. rewrite has_key_Some. simpl. rewrite Hview.
  destruct (decide (Unique u ∈ Unique <$> items)) as [Hin|Hnin].
  - rewrite bool_decide_eq_true_2 by done.
    assert (Hg : listeners b = Some g).
    { apply (view_nonempty_listeners b s). rewrite Hview.
      intros ->. by apply elem_of_nil in Hin. }
    rewrite (set_listeners_id b g Hg). exists b. split_and!; try done.
    + unfold present, map_get. rewrite Hg.
      destruct (g !! s) eqn:Hs; [done |].
      exfalso. unfold view, map_get in Hview. rewrite Hg, Hs in Hview.
      subst items. by apply elem_of_nil in Hin.
    + exists []. by rewrite app_nil_r.
  - rewrite bool_decide_eq_false_2 by done.
    unfold make. rewrite decide_True by lia. cbn -[copy swrite].
    rewrite (copy_fresh _ _ _ _ Hc) by (rewrite length_fmap; lia). cbn -[swrite].
    rewrite Hlen, length_fmap.
    replace (length items + 1 - length items) with 1 by lia.
    rewrite (swrite_fresh _ (Some <$> items) 1 _ _ _ (Some u))
      by (rewrite ?length_fmap; lia).
    simpl. rewrite app_nil_r.
    set (cells' := (Some <$> items) ++ [Some u]).
    assert (Hcells : cells' = Some <$> (items ++ [u])) by by rewrite fmap_app.
    assert (Hok' : slice_ok (mem b ++ [cells'])
                     (SMk (length (mem b)) 0 (length items + 1) (length items + 1))).
    { split_and!; [done | lia |]. exists cells', (items ++ [u]). split_and!.
      - apply lookup_fresh.
      - unfold cells'. rewrite length_app, length_fmap. simpl. lia.
      - rewrite take_ge; [done |]. unfold cells'.
        rewrite length_app, length_fmap. simpl. lia. }
    edestruct (wf_update b0 g s
                 (SMk (length (mem b)) 0 (length items + 1) (length items + 1))
                 (mem b ++ [cells']) (length (mem b)))
      as (Hwf' & Hv' & Hp' & Hfr); try done; fold_b0.
    { intros a' Hlt _. by rewrite lookup_app_l. }
    { intros s0 sl0 Hs0 Ha0.
      pose proof (slice_ok_lt _ _ (wf_lookup b0 g s0 sl0 Hwf0 eq_refl Hs0)).
      simpl in *. lia. }
    eexists. split; [done |]. split_and!; try done.
    + rewrite Hv'. eapply slice_view_Some; [apply lookup_fresh |].
      rewrite take_ge; [done |]. unfold cells'.
      rewrite length_app, length_fmap. simpl. lia.
    + intros s' Hne. destruct (Hfr s' Hne) as [-> ->]. apply Hv0.
    + by eexists.
Qed.

Lemma UUnwatch_spec b s u :
  wf b →
  ∃ b', UUnwatch b s u = Some b' ∧ wf b' ∧ handlers b' = handlers b ∧
        (∀ s', present b' s' = present b s') ∧
        (∀ s', s' ≠ s → view b' s' = view b s') ∧
        (((Unique u ∉ Unique <$> view b s) ∧ b' = b) ∨
         (∃ l1 x l2, view b s = l1 ++ x :: l2 ∧ Unique x = Unique u ∧
                     (Unique u ∉ Unique <$> l1) ∧ view b' s = l1 ++ l2)) ∧
        (∃ ext, mem b' = mem b ++ ext).
Proof.
  intros Hwf. unfold UniqueBroadcast.Unwatch.
  assert (Hnop : (Unique u ∉ Unique <$> view b s) →
    ∃ b', Some b = Some b' ∧ wf b' ∧ handlers b' = handlers b ∧
        (∀ s', present b' s' = present b s') ∧
        (∀ s', s' ≠ s → view b' s' = view b s') ∧
        (((Unique u ∉ Unique <$> view b s) ∧ b' = b) ∨
         (∃ l1 x l2, view b s = l1 ++ x :: l2 ∧ Unique x = Unique u ∧
                     (Unique u ∉ Unique <$> l1) ∧ view b' s = l1 ++ l2)) ∧
        (∃ ext, mem b' = mem b ++ ext)).
  { intros Hnin. exists b. split_and!; try done; [by left |].
    exists []. by rewrite app_nil_r. }
  destruct (listeners b) as [g|] eqn:Hg.
  2:{ apply Hnop. unfold view, map_get. rewrite Hg. apply not_elem_of_nil. }
  unfold map_get at 1. destruct (g !! s) as [sl|] eqn:Hs.
  2:{ apply Hnop. unfold view, map_get. rewrite Hg, Hs. apply not_elem_of_nil. }
  pose proof (wf_lookup b g s sl Hwf Hg Hs) as Hok.
  destruct sl as [|a o l c]; [done |].
  destruct Hok as (-> & Hl & cells & items & Ha & Hc & Ht).
  assert (Hview : view b s = items).
  { rewrite (view_lookup b g s _ Hg Hs). by eapply slice_view_Some. }
  assert (Hlen : length items = l).
  { apply (f_equal length) in Ht. rewrite length_take, length_fmap in Ht. lia. }
  assert (Hcont : ∀ ext o n c', contents (mem b ++ ext) (SMk a o n c')
                                = Some (take n (drop o cells))).
  { intros ext o n c'. simpl. by rewrite (lookup_app_l_Some _ _ _ _ Ha). }
  cbn [fst is_nil]. unfold map_get. rewrite Hs. cbn [fst slen].
  assert (Hcont0 : contents (mem b) (SMk a 0 l c) = Some (Some <$> items)).
  { simpl. rewrite Ha. simpl. by rewrite drop_0, Ht. }
  rewrite Hcont0. cbn [mbind option_bind].
  destruct (key_index_Some (Unique u) items 0) as (r & -> & Hr).
  cbn [mbind option_bind].
  destruct r as [i|].
  2:{ apply Hnop. by rewrite Hview. }
  destruct Hr as (l1 & x & l2 & Hitems & Hx & Hnin & Hi). simpl in Hi. subst i.
  assert (Hl12 : l = length l1 + 1 + length l2).
  { rewrite <- Hlen, Hitems, length_app. simpl. lia. }
  assert (Hxs : take (l - (length l1 + 1)) (drop (length l1 + 1) cells) = Some <$> l2).
  { rewrite take_drop_commute.
    replace (length l1 + 1 + (l - (length l1 + 1))) with l by lia.
    rewrite Ht, Hitems, (cons_middle x), app_assoc, fmap_app, drop_app_length'.
    - done.
    - rewrite length_fmap, length_app. simpl. lia. }
  assert (Hpre : take (length l1) cells = Some <$> l1).
  { replace (take (length l1) cells) with (take (length l1) (take l cells)).
    - rewrite Ht, Hitems, fmap_app, take_app_length'; [done |].
      by rewrite length_fmap.
    - rewrite take_take. f_equal. lia. }
  unfold make. rewrite decide_True by lia. cbn [mbind option_bind].
  unfold sprefix. rewrite decide_True by lia. cbn [mbind option_bind].
  rewrite Hcont. cbn [mbind option_bind]. rewrite drop_0, Hpre.
  rewrite append_fresh0 by (rewrite length_fmap; lia).
  cbn [mbind option_bind].
  unfold ssuffix. rewrite decide_True by lia. cbn [mbind option_bind].
  rewrite Hcont. cbn [mbind option_bind]. rewrite Nat.add_0_l, Hxs.
  rewrite (append_fresh growcap (mem b) (Some <$> l1)
             (l - 1 - length (Some <$> l1)) (length (Some <$> l1)) (l - 1)
             (Some <$> l2)) by (rewrite ?length_fmap; lia).
  cbn [mbind option_bind]. rewrite !length_fmap.
  replace (l - 1 - length l1 - length l2) with 0 by lia.
  cbn [replicate]. rewrite app_nil_r, <- fmap_app.
  set (cells' := Some <$> l1 ++ l2).
  assert (Hcells' : length cells' = l - 1).
  { unfold cells'. rewrite length_fmap, length_app. lia. }
  assert (Hok' : slice_ok (mem b ++ [cells'])
                   (SMk (length (mem b)) 0 (length l1 + length l2) (l - 1))).
  { split_and!; [done | lia |]. exists cells', (l1 ++ l2). split_and!.
    - apply lookup_fresh.
    - done.
    - rewrite take_ge; [done | lia]. }
  edestruct (wf_update b g s
               (SMk (length (mem b)) 0 (length l1 + length l2) (l - 1))
               (mem b ++ [cells']) (length (mem b)))
    as (Hwf' & Hv' & Hp' & Hfr); try done.
  { intros a' Hlt _. by rewrite lookup_app_l. }
  { intros s0 sl0 Hs0 Ha0.
    pose proof (slice_ok_lt _ _ (wf_lookup b g s0 sl0 Hwf Hg Hs0)).
    simpl in *. lia. }
  eexists. split; [done |]. split_and!; try done.
  - intros s'. destruct (decide (s' = s)) as [->|Hne].
    + rewrite Hp'. unfold present, map_get. by rewrite Hg, Hs.
    + by destruct (Hfr s' Hne) as [_ ->].
  - intros s' Hne. by destruct (Hfr s' Hne) as [-> _].
  - right. exists l1, x, l2. split_and!; [congruence | done | done |].
    rewrite Hv'. eapply slice_view_Some; [apply lookup_fresh |].
    rewrite take_ge; [done | lia].
  - by eexists.
Qed.
End KeyedOps.

(** ** [Broadcast[T]]: the dispatch *)

Section DirectBroadcast.
Context {T E : Type} `{EqDecision T}.
Variable growcap : nat → nat → nat.
Implicit Types (b : registry T T E) (items : list T) (ls : slice).

Local Abbreviation dexec := (Broadcast.exec growcap).

Lemma direct_exec_readable ls b c :
  wf b ∧ readable (mem b) ls → True →
  ∃ b', dexec b c = Some b' ∧ (wf b' ∧ readable (mem b') ls) ∧
        handlers b `prefix_of` handlers b'.
Proof.
  intros [Hwf Hread] _. destruct c as [s p|s p|s| |handler]; simpl.
  - destruct (Watch_spec growcap b s p Hwf)
      as (b' & -> & Hwf' & Hh & _ & _ & _ & _ & Hpop & _).
    exists b'. rewrite Hh. split_and!; try done.
    destruct ls as [|a o L c]; [done |]. destruct Hread. split; auto.
  - destruct (Unwatch_spec growcap b s p Hwf)
      as (b' & -> & Hwf' & Hh & _ & _ & _ & Hpop).
    exists b'. rewrite Hh. split_and!; try done.
    destruct ls as [|a o L c]; [done |]. destruct Hread. split; auto.
  - eexists. split; [done |]. split_and!; try done.
    by apply Clean_spec.
  - eexists. split; [done |]. split_and!; try done.
    apply CleanAll_spec.
  - eexists. split; [done |]. split_and!; try done.
    by apply prefix_app_r.
Qed.

Lemma direct_exec_snapshot ls items b c :
  wf b ∧ snapshot_of b ls items → no_unwatch c →
  ∃ b', dexec b c = Some b' ∧ (wf b' ∧ snapshot_of b' ls items) ∧
        handlers b `prefix_of` handlers b'.
Proof.
  intros [Hwf Hsnap] Hc. destruct c as [s p|s p|s| |handler]; simpl; [| done | | |].
  - destruct (Watch_spec growcap b s p Hwf)
      as (b' & -> & Hwf' & Hh & _ & _ & _ & _ & _ & Hpin).
    exists b'. rewrite Hh. split_and!; try done.
    destruct ls as [|a o L c]; [done |]. destruct Hsnap as (? & ? & ?).
    split_and!; auto.
  - eexists. split; [done |]. split_and!; try done; [by apply Clean_spec |].
    destruct ls as [|a o L c]; [done |]. destruct Hsnap as (? & ? & ?).
    split_and!; [done | done |]. by apply pinned_Clean.
  - eexists. split; [done |]. split_and!; try done; [apply CleanAll_spec |].
    destruct ls as [|a o L c]; [done |]. destruct Hsnap as (? & ? & ?).
    split_and!; [done | done |]. by apply pinned_CleanAll.
  - eexists. split; [done |]. split_and!; try done.
    by apply prefix_app_r.
Qed.

Lemma direct_read_readable ls b j :
  wf b ∧ readable (mem b) ls → j < slen ls →
  ∃ v, sread (mem b) ls j ≫= Broadcast.Value = Some v ∧ True.
Proof.
  intros [_ Hread] Hj. destruct ls as [|a o L c]; simpl in Hj; [lia |].
  destruct Hread as (-> & cells & Ha & HL & Hsome). simpl.
  rewrite decide_True by done. rewrite Ha. simpl.
  destruct (lookup_lt_is_Some_2 cells j) as [x Hx]; [lia |].
  assert (is_Some x) as [v ->].
  { eapply (Forall_lookup_1 _ _ j); [exact Hsome |]. by rewrite lookup_take_lt. }
  rewrite Hx. by exists v.
Qed.

Lemma direct_read_snapshot ls items b j :
  wf b ∧ snapshot_of b ls items → j < slen ls →
  ∃ v, sread (mem b) ls j ≫= Broadcast.Value = Some v ∧ items !! j = Some v.
Proof.
  intros [_ Hsnap] Hj. destruct ls as [|a o L c]; simpl in Hj; [lia |].
  destruct Hsnap as (-> & -> & (cells & Ha & Ht) & _). simpl.
  rewrite decide_True by done. rewrite Ha. simpl.
  destruct (lookup_lt_is_Some_2 items j) as [v Hv]; [lia |].
  exists v. split; [| done].
  rewrite <- (lookup_take_lt cells (length items) j) by done.
  by rewrite Ht, list_lookup_fmap, Hv.
Qed.

(** The header [Broadcast] reads for a signal, against the state it is
    read in. *)
Lemma direct_snapshot_init b s :
  wf b →
  let ls := (map_get (listeners b) s).1 in
  slen ls = length (view b s) ∧ readable (mem b) ls ∧ snapshot_of b ls (view b s).
Proof.
  intros Hwf. unfold view, map_get.
  destruct (listeners b) as [g|] eqn:Hg; [| done].
  destruct (g !! s) as [sl|] eqn:Hs; [| done]. simpl.
  pose proof (wf_lookup b g s sl Hwf Hg Hs) as Hok.
  split_and!.
  - symmetry. by apply slice_ok_view_length.
  - destruct sl as [|a o L c]; [done |]. split; [by destruct Hok |].
    apply (slice_ok_populated _ _ Hok).
  - destruct sl as [|a o L c]; [done |].
    destruct Hok as (-> & HL & cells & items & Ha & Hc & Ht).
    rewrite (slice_view_Some _ _ _ _ _ _ Ha Ht).
    split_and!; [done | |].
    + apply (f_equal length) in Ht. rewrite length_take, length_fmap in Ht. lia.
    + split; [by exists cells |].
      intros g' s0 sl0 Hg' Hs0 Harr. rewrite Hg in Hg'. injection Hg' as <-.
      destruct (Hwf g Hg) as [_ Hinj].
      assert (s0 = s) as -> by (eapply Hinj; eauto).
      rewrite Hs in Hs0. by injection Hs0 as <-.
Qed.

(** Whatever the handlers do, [Broadcast] returns, having walked the
    handlers of the snapshot in order and, for each, the slots of the
    listener header in order. *)
Lemma Broadcast_direct_indices b s env :
  wf b →
  ∃ b' env' tr,
    Broadcast.Broadcast growcap b s env = Some (b', env', tr) ∧ wf b' ∧
    handlers b `prefix_of` handlers b' ∧
    inv_index <$> tr = slots_from 0 (length (handlers b)) (length (view b s)).
Proof.
  intros Hwf. unfold Broadcast.Broadcast.
  destruct (direct_snapshot_init b s Hwf) as (Hlen & Hread & _).
  set (ls := (map_get (listeners b) s).1) in *.
  destruct (range_handlers_inv dexec Broadcast.Value
              (λ b, wf b ∧ readable (mem b) ls) (λ _, True)
              (direct_exec_readable ls) s ls (λ _ _, True)
              (direct_read_readable ls) (handlers b) 0 b env [])
    as (b' & env' & tr & Heq & [Hwf' _] & Hpre & Hhit).
  { apply Forall_true. intros handler sg v e. by apply Forall_true. }
  { done. }
  exists b', env', tr. split_and!; [done | done | done |].
  rewrite <- Hlen. by eapply hit_indices.
Qed.

(** When no handler calls [Unwatch] back, every slot delivers the payload
    registered in it when [Broadcast] started. *)
Lemma Broadcast_direct_snapshot b s env :
  wf b → Forall (tame no_unwatch) (handlers b) →
  ∃ b' env' tr,
    Broadcast.Broadcast growcap b s env = Some (b', env', tr) ∧ wf b' ∧
    inv_delivery <$> tr = fan_out (length (handlers b)) (view b s).
Proof.
  intros Hwf Htame. unfold Broadcast.Broadcast.
  destruct (direct_snapshot_init b s Hwf) as (Hlen & _ & Hsnap).
  set (ls := (map_get (listeners b) s).1) in *.
  destruct (range_handlers_inv dexec Broadcast.Value
              (λ b0, wf b0 ∧ snapshot_of b0 ls (view b s)) no_unwatch
              (direct_exec_snapshot ls (view b s)) s ls
              (λ j v, view b s !! j = Some v)
              (direct_read_snapshot ls (view b s)) (handlers b) 0 b env [])
    as (b' & env' & tr & Heq & [Hwf' _] & Hpre & Hhit); [done | done |].
  exists b', env', tr. split_and!; [done | done |].
  rewrite Hlen in Hhit. by apply hit_fan_out.
Qed.
End DirectBroadcast.

(** ** [UniqueBroadcast[K,T]]: the dispatch *)

Section KeyedBroadcast.
Context {K T U E : Type} `{EqDecision K} `{!Uniquer K T U}.
Variable growcap : nat → nat → nat.
Implicit Types (b : registry U T E) (items : list U) (h : heap U).

Local Abbreviation kexec := (UniqueBroadcast.exec growcap).

Lemma keyed_exec_prefix h0 b c :
  wf b ∧ h0 `prefix_of` mem b → True →
  ∃ b', kexec b c = Some b' ∧ (wf b' ∧ h0 `prefix_of` mem b') ∧
        handlers b `prefix_of` handlers b'.
Proof.
  intros [Hwf Hpre] _. destruct c as [s u|s u|s| |handler]; simpl.
  - destruct (UWatch_spec b s u Hwf)
      as (b' & -> & Hwf' & Hh & _ & _ & _ & _ & ext & Hext).
    exists b'. rewrite Hh, Hext. split_and!; try done. by apply prefix_app_r.
  - destruct (UUnwatch_spec growcap b s u Hwf)
      as (b' & -> & Hwf' & Hh & _ & _ & _ & ext & Hext).
    exists b'. rewrite Hh, Hext. split_and!; try done. by apply prefix_app_r.
  - eexists. split; [done |]. split_and!; try done.
    by apply Clean_spec.
  - eexists. split; [done |]. split_and!; try done.
    apply CleanAll_spec.
  - eexists. split; [done |]. split_and!; try done.
    by apply prefix_app_r.
Qed.

Lemma keyed_read h items b j :
  wf b ∧ (h ++ [Some <$> items]) `prefix_of` mem b →
  j < slen (SMk (length h) 0 (length items) (length items)) →
  ∃ v, sread (mem b) (SMk (length h) 0 (length items) (length items)) j
         ≫= UniqueBroadcast.call_Value = Some v ∧
       (Value <$> items) !! j = Some v.
Proof.
  intros [_ [ext Hext]] Hj. simpl in Hj |- *.
  rewrite decide_True by done. rewrite Hext.
  rewrite (lookup_app_l_Some _ _ _ _ (lookup_fresh h (Some <$> items))). simpl.
  destruct (lookup_lt_is_Some_2 items j) as [u Hu]; [lia |].
  exists (Value u). by rewrite !list_lookup_fmap, Hu.
Qed.

(** Whatever the handlers do, [Broadcast] returns, and has delivered the
    payloads of the listeners registered when it started, handler by
    handler, in registration order. *)
Lemma Broadcast_keyed_snapshot b s env :
  wf b →
  ∃ b' env' tr,
    UniqueBroadcast.Broadcast growcap b s env = Some (b', env', tr) ∧ wf b' ∧
    handlers b `prefix_of` handlers b' ∧
    mem b `prefix_of` mem b' ∧
    inv_delivery <$> tr = fan_out (length (handlers b)) (Value <$> view b s).
Proof.
  intros Hwf. unfold UniqueBroadcast.Broadcast.
  destruct (listeners_contents b s Hwf) as (items & Hc & Hlen & Hview).
  set (src := (map_get (listeners b) s).1) in *. clearbody src.
  unfold make. rewrite decide_True by lia. cbn -[copy].
  rewrite (copy_fresh _ _ _ _ Hc) by (rewrite length_fmap; lia). cbn.
  rewrite Hlen, length_fmap, Nat.sub_diag. cbn [replicate]. rewrite app_nil_r.
  destruct (range_handlers_inv kexec UniqueBroadcast.call_Value
              (λ b0, wf b0 ∧ (mem b ++ [Some <$> items]) `prefix_of` mem b0)
              (λ _, True)
              (keyed_exec_prefix (mem b ++ [Some <$> items])) s
              (SMk (length (mem b)) 0 (length items) (length items))
              (λ j v, (Value <$> items) !! j = Some v)
              (keyed_read (mem b) items) (handlers b) 0
              (set_mem b (mem b ++ [Some <$> items])) env [])
    as (b' & env' & tr & Heq & [Hwf' Hmem] & Hpre & Hhit).
  { apply Forall_true. intros handler sg v e. by apply Forall_true. }
  { split; [by apply wf_set_mem_alloc | done]. }
  exists b', env', tr. split_and!; [done | done | done | |].
  - etrans; [| exact Hmem]. by apply prefix_app_r.
  - rewrite Hview. simpl in Hhit.
    rewrite <- (length_fmap Value items) in Hhit. by apply hit_fan_out.
Qed.
End KeyedBroadcast.

(** ** Invariants of the reachable states *)

Section DirectInvariants.
Context {T E : Type} `{EqDecision T}.
Variable growcap : nat → nat → nat.
Implicit Types (b : registry T T E).

Lemma direct_exec_dinv ls b c :
  (wf b ∧ readable (mem b) ls) ∧ ddistinct b → True →
  ∃ b', Broadcast.exec growcap b c = Some b' ∧
        ((wf b' ∧ readable (mem b') ls) ∧ ddistinct b') ∧
        handlers b `prefix_of` handlers b'.
Proof.
  intros [HI Hd] _.
  destruct (direct_exec_readable growcap ls b c HI I) as (b' & Hex & HI' & Hp).
  exists b'. split_and!; [done | apply HI' | apply HI' | | done].
  destruct HI as [Hwf _]. intros s0.
  destruct c as [s p|s p|s| |handler]; simpl in Hex.
  - destruct (Watch_spec growcap b s p Hwf)
      as (b1 & Hw & _ & _ & _ & Hv & Hfr & _). rewrite Hex in Hw.
    injection Hw as <-. destruct (decide (s0 = s)) as [->|Hne].
    + rewrite Hv. case_decide; [apply Hd |].
      apply NoDup_app. split_and!; [apply Hd | | apply NoDup_singleton].
      intros x Hx ->%list_elem_of_singleton. done.
    + destruct (Hfr s0 Hne) as [-> _]. apply Hd.
  - destruct (Unwatch_spec growcap b s p Hwf)
      as (b1 & Hw & _ & _ & _ & Hfr & Hv & _). rewrite Hex in Hw.
    injection Hw as <-. destruct (decide (s0 = s)) as [->|Hne].
    + destruct Hv as [[_ ->]|(l1 & l2 & Hv1 & _ & ->)]; [apply Hd |].
      pose proof (Hd s) as Hnd. rewrite Hv1 in Hnd.
      apply (sublist_NoDup _ _ Hnd).
      apply sublist_app; [done |]. by apply sublist_cons.
    + rewrite (Hfr s0 Hne). apply Hd.
  - injection Hex as <-. destruct (Clean_spec b s Hwf) as (_ & Hv & _ & Hfr).
    destruct (decide (s0 = s)) as [->|Hne].
    + rewrite Hv. constructor.
    + destruct (Hfr s0 Hne) as [-> _]. apply Hd.
  - injection Hex as <-. destruct (CleanAll_spec b) as (_ & Hv).
    destruct (Hv s0) as [-> _]. constructor.
  - injection Hex as <-. apply Hd.
Qed.

Lemma dstep_inv b b' : dstep growcap b b' → wf b ∧ ddistinct b → wf b' ∧ ddistinct b'.
Proof.
  intros Hstep [Hwf Hd].
  assert (Hexec : ∀ c b1, Broadcast.exec growcap b c = Some b1 → wf b1 ∧ ddistinct b1).
  { intros c b1 Hex.
    destruct (direct_exec_dinv SNil b c) as (b2 & Hex2 & [[? _] ?] & _); [done.. |].
    rewrite Hex in Hex2. by injection Hex2 as <-. }
  destruct Hstep as [b handler|b s p b' Hw|b s p b' Hw|b s env b' env' tr Hb|b s|b].
  - by apply (Hexec (CHandle handler)).
  - by apply (Hexec (CWatch s p)).
  - by apply (Hexec (CUnwatch s p)).
  - unfold Broadcast.Broadcast in Hb.
    destruct (direct_snapshot_init b s Hwf) as (_ & Hread & _).
    set (ls := (map_get (listeners b) s).1) in *.
    destruct (range_handlers_inv (Broadcast.exec growcap) Broadcast.Value
                (λ b, (wf b ∧ readable (mem b) ls) ∧ ddistinct b) (λ _, True)
                (direct_exec_dinv ls) s ls (λ _ _, True)
                (λ b j HI, direct_read_readable ls b j (proj1 HI))
                (handlers b) 0 b env [])
      as (b2 & env2 & tr2 & Heq & [[Hwf' _] Hd'] & _).
    { apply Forall_true. intros handler sg v e. by apply Forall_true. }
    { done. }
    rewrite Hb in Heq. by injection Heq as <- _ _.
  - by apply (Hexec (CClean s)).
  - by apply (Hexec CCleanAll).
Qed.

Lemma dreachable_inv b : dreachable growcap b → wf b ∧ ddistinct b.
Proof.
  induction 1 as [| |b b' _ IH Hstep].
  - split; [apply wf_zero |]. intros s. constructor.
  - split; [apply wf_New |]. intros s. unfold view, map_get. simpl.
    rewrite lookup_empty. constructor.
  - by eapply dstep_inv.
Qed.
End DirectInvariants.

Section KeyedInvariants.
Context {K T U E : Type} `{EqDecision K} `{!Uniquer K T U}.
Variable growcap : nat → nat → nat.
Implicit Types (b : registry U T E).

Lemma keyed_exec_kinv h0 b c :
  (wf b ∧ h0 `prefix_of` mem b) ∧ kdistinct b → True →
  ∃ b', UniqueBroadcast.exec growcap b c = Some b' ∧
        ((wf b' ∧ h0 `prefix_of` mem b') ∧ kdistinct b') ∧
        handlers b `prefix_of` handlers b'.
Proof.
  intros [HI Hd] _.
  destruct (keyed_exec_prefix growcap h0 b c HI I) as (b' & Hex & HI' & Hp).
  exists b'. split_and!; [done | apply HI' | apply HI' | | done].
  destruct HI as [Hwf _]. intros s0.
  destruct c as [s u|s u|s| |handler]; simpl in Hex.
  - destruct (UWatch_spec b s u Hwf)
      as (b1 & Hw & _ & _ & _ & Hv & Hfr & _). rewrite Hex in Hw.
    injection Hw as <-. destruct (decide (s0 = s)) as [->|Hne].
    + rewrite Hv. case_decide; [apply Hd |].
      rewrite fmap_app. apply NoDup_app.
      split_and!; [apply Hd | | apply NoDup_singleton].
      intros x Hx ->%list_elem_of_singleton. done.
    + destruct (Hfr s0 Hne) as [-> _]. apply Hd.
  - destruct (UUnwatch_spec growcap b s u Hwf)
      as (b1 & Hw & _ & _ & _ & Hfr & Hv & _). rewrite Hex in Hw.
    injection Hw as <-. destruct (decide (s0 = s)) as [->|Hne].
    + destruct Hv as [[_ ->]|(l1 & x & l2 & Hv1 & _ & _ & ->)]; [apply Hd |].
      pose proof (Hd s) as Hnd. rewrite Hv1, fmap_app, fmap_cons in Hnd.
      rewrite fmap_app. apply (sublist_NoDup _ _ Hnd).
      apply sublist_app; [done |]. by apply sublist_cons.
    + rewrite (Hfr s0 Hne). apply Hd.
  - injection Hex as <-. destruct (Clean_spec b s Hwf) as (_ & Hv & _ & Hfr).
    destruct (decide (s0 = s)) as [->|Hne].
    + rewrite Hv. constructor.
    + destruct (Hfr s0 Hne) as [-> _]. apply Hd.
  - injection Hex as <-. destruct (CleanAll_spec b) as (_ & Hv).
    destruct (Hv s0) as [-> _]. constructor.
  - injection Hex as <-. apply Hd.
Qed.

Lemma kstep_inv b b' : kstep growcap b b' → wf b ∧ kdistinct b → wf b' ∧ kdistinct b'.
Proof.
  intros Hstep [Hwf Hd].
  assert (Hexec : ∀ c b1, UniqueBroadcast.exec growcap b c = Some b1 →
                          wf b1 ∧ kdistinct b1).
  { intros c b1 Hex.
    destruct (keyed_exec_kinv [] b c) as (b2 & Hex2 & [[? _] ?] & _).
    - split_and!; [done | apply prefix_nil | done].
    - done.
    - rewrite Hex in Hex2. by injection Hex2 as <-. }
  destruct Hstep as [b handler|b s u b' Hw|b s u b' Hw|b s env b' env' tr Hb|b s|b].
  - by apply (Hexec (CHandle handler)).
  - by apply (Hexec (CWatch s u)).
  - by apply (Hexec (CUnwatch s u)).
  - unfold UniqueBroadcast.Broadcast in Hb.
    destruct (listeners_contents b s Hwf) as (items & Hc & Hlen & Hview).
    set (src := (map_get (listeners b) s).1) in *. clearbody src.
    unfold make in Hb. rewrite decide_True in Hb by lia. cbn -[copy] in Hb.
    rewrite (copy_fresh _ _ _ _ Hc) in Hb by (rewrite length_fmap; lia).
    cbn in Hb. rewrite Hlen, length_fmap, Nat.sub_diag in Hb.
    cbn [replicate] in Hb. rewrite app_nil_r in Hb.
    destruct (range_handlers_inv (UniqueBroadcast.exec growcap)
                UniqueBroadcast.call_Value
                (λ b0, (wf b0 ∧ (mem b ++ [Some <$> items]) `prefix_of` mem b0)
                       ∧ kdistinct b0)
                (λ _, True)
                (keyed_exec_kinv (mem b ++ [Some <$> items])) s
                (SMk (length (mem b)) 0 (length items) (length items))
                (λ j v, (Value <$> items) !! j = Some v)
                (λ b0 j HI, keyed_read (mem b) items b0 j (proj1 HI))
                (handlers b) 0
                (set_mem b (mem b ++ [Some <$> items])) env [])
      as (b2 & env2 & tr2 & Heq & [[Hwf' _] Hd'] & _).
    { apply Forall_true. intros handler sg v e. by apply Forall_true. }
    { split_and!; [by apply wf_set_mem_alloc | done |].
      intros s0. rewrite view_set_mem_alloc by done. apply Hd. }
    rewrite Hb in Heq. by injection Heq as <- _ _.
  - by apply (Hexec (CClean s)).
  - by apply (Hexec CCleanAll).
Qed.

Lemma kreachable_inv b : kreachable growcap b → wf b ∧ kdistinct b.
Proof.
  induction 1 as [| |b b' _ IH Hstep].
  - split; [apply wf_zero |]. intros s. constructor.
  - split; [apply wf_New |]. intros s. unfold view, map_get. simpl.
    rewrite lookup_empty. constructor.
  - by eapply kstep_inv.
Qed.
End KeyedInvariants.

(** ** [Range] *)

Section RangeFacts.
Context {P T E V : Type}.
Implicit Types (b : registry P T E) (entries : list (string * slice))
               (fn : V → string → nat → V * bool).









End RangeFacts.

(** * The properties *)

(** ** Example states are well formed *)

Section ExampleStates.
Import Examples.

Lemma dreachable_abc handler b :
  abc handler = Some b → dreachable growcap b.
Proof.
  unfold abc. intros Hb.
  destruct (Broadcast.Watch growcap (Handle New handler) "s" "a") as [b1|] eqn:H1;
    [| done].
  simpl in Hb.
  destruct (Broadcast.Watch growcap b1 "s" "b") as [b2|] eqn:H2; [| done].
  simpl in Hb.
  destruct (Broadcast.Watch growcap b2 "s" "c") as [b3|] eqn:H3; [| done].
  simpl in Hb.
  eapply dreach_step; [| eapply dstep_Watch; exact Hb].
  eapply dreach_step; [| eapply dstep_Watch; exact H3].
  eapply dreach_step; [| eapply dstep_Watch; exact H2].
  eapply dreach_step; [| eapply dstep_Watch; exact H1].
  eapply dreach_step; [apply dreach_New | apply dstep_Handle].
Qed.

Lemma dreachable_abc_quiet : dreachable growcap abc_quiet.
Proof. apply (dreachable_abc count_calls). by vm_compute. Qed.

Lemma dreachable_abc_unwatching : dreachable growcap abc_unwatching.
Proof. apply (dreachable_abc unwatch_a). by vm_compute. Qed.

Lemma wf_abc_quiet : wf abc_quiet.
Proof. apply (dreachable_inv growcap), dreachable_abc_quiet. Qed.

Lemma wf_abc_unwatching : wf abc_unwatching.
Proof. apply (dreachable_inv growcap), dreachable_abc_unwatching. Qed.

Lemma kreachable_watch_users handler b :
  watch_users handler = Some b → kreachable growcap b.
Proof.
  unfold watch_users. intros Hb.
  destruct (UniqueBroadcast.Watch (Handle New handler) "s" (keyed 1 "a"))
    as [b1|] eqn:H1; [| done].
  simpl in Hb.
  destruct (UniqueBroadcast.Watch b1 "s" (keyed 2 "b")) as [b2|] eqn:H2; [| done].
  simpl in Hb.
  eapply kreach_step; [| eapply kstep_Watch; exact Hb].
  eapply kreach_step; [| eapply kstep_Watch; exact H2].
  eapply kreach_step; [| eapply kstep_Watch; exact H1].
  eapply kreach_step; [apply kreach_New | apply kstep_Handle].
Qed.

Lemma kreachable_users : kreachable growcap users.
Proof. apply (kreachable_watch_users unwatch_self). by vm_compute. Qed.

Lemma wf_users : wf users.
Proof. apply (kreachable_inv growcap), kreachable_users. Qed.
End ExampleStates.

(** ** The scenarios of the tests *)

(** [TestBroadcast_Watch] and [TestBroadcast_Unwatch]: a repeated [Watch]
    adds nothing, [Unwatch] removes the listener. *)
Example test_Watch_Unwatch :
  Some (1, 1, 0, false, true)
  = (b1 ← Broadcast.Watch Examples.growcap (@New string string nat) "test" "data";
     b2 ← Broadcast.Watch Examples.growcap b1 "test" "data";
     b3 ← Broadcast.Unwatch Examples.growcap b2 "test" "data";
     Some (WatchCount b1 "test", WatchCount b2 "test", WatchCount b3 "test",
           HasWatch b3 "test", present b3 "test")).
Proof. by vm_compute. Qed.

(** Two capabilities with the key 1 and one with the key 2 under ["login"],
    one counting handler: two listeners, two invocations. *)
Example test_login :
  Examples.login_scenario = Some (1, 2, 2, ["u1"; "u3"]).
Proof. by vm_compute. Qed.

(** A handler of [Broadcast[T]] that watches back and returns an error
    does not disturb the dispatch under way. *)
Example direct_Watch_during_Broadcast :
  Examples.watch_z_scenario
  = Some (["a"; "b"; "c"], [true; true; true], 3, ["a"; "b"; "c"; "z"]).
Proof. by vm_compute. Qed.

(** ** C7 *)

(** C7: in every state of either registry (the two methods have the same
    body in both types) and for every signal, [HasWatch] answers true
    exactly when [WatchCount] is positive; a signal stored with an empty
    slice, a signal that is not a key, and any signal of a nil map all
    report no watch and count zero. *)
Theorem C7_HasWatch_WatchCount {P T E : Type} (b : registry P T E) (s : string) :
  HasWatch b s = bool_decide (0 < WatchCount b s) ∧
  ∀ (g : gmap string slice) (a o c : nat),
    let stored_empty := set_listeners b (Some (<[s := SMk a o 0 c]> g)) in
    let never_seen := set_listeners b (Some (delete s g)) in
    let nil_map := set_listeners b None in
    (HasWatch stored_empty s, WatchCount stored_empty s) = (false, 0) ∧
    (HasWatch never_seen s, WatchCount never_seen s) = (false, 0) ∧
    (HasWatch nil_map s, WatchCount nil_map s) = (false, 0).
Proof.
  split.
  - apply HasWatch_decide.
  - intros g a o c. unfold HasWatch, WatchCount, map_get. simpl.
    by rewrite lookup_insert_eq, lookup_delete_eq.
Qed.

(** ** C8 *)

Section HandlersGrow.
Lemma dstep_handlers {T E : Type} `{EqDecision T} growcap (b b' : registry T T E) :
  wf b → dstep growcap b b' → handlers b `prefix_of` handlers b'.
Proof.
  intros Hwf Hstep.
  assert (Hexec : ∀ c b1, Broadcast.exec growcap b c = Some b1 →
                          handlers b `prefix_of` handlers b1).
  { intros c b1 Hex.
    destruct (direct_exec_readable growcap SNil b c) as (b2 & Hex2 & _ & Hp);
      [done.. |].
    rewrite Hex in Hex2. by injection Hex2 as <-. }
  destruct Hstep as [b handler|b s p b' Hw|b s p b' Hw|b s env b' env' tr Hb|b s|b].
  - by apply (Hexec (CHandle handler)).
  - by apply (Hexec (CWatch s p)).
  - by apply (Hexec (CUnwatch s p)).
  - destruct (Broadcast_direct_indices growcap b s env Hwf)
      as (b2 & env2 & tr2 & Heq & _ & Hp & _).
    rewrite Hb in Heq. by injection Heq as <- _ _.
  - by apply (Hexec (CClean s)).
  - by apply (Hexec CCleanAll).
Qed.

Lemma kstep_handlers {K T U E : Type} `{EqDecision K} `{!Uniquer K T U}
    growcap (b b' : registry U T E) :
  wf b → kstep growcap b b' → handlers b `prefix_of` handlers b'.
Proof.
  intros Hwf Hstep.
  assert (Hexec : ∀ c b1, UniqueBroadcast.exec growcap b c = Some b1 →
                          handlers b `prefix_of` handlers b1).
  { intros c b1 Hex.
    destruct (keyed_exec_prefix growcap [] b c) as (b2 & Hex2 & _ & Hp).
    - split; [done | apply prefix_nil].
    - done.
    - rewrite Hex in Hex2. by injection Hex2 as <-. }
  destruct Hstep as [b handler|b s u b' Hw|b s u b' Hw|b s env b' env' tr Hb|b s|b].
  - by apply (Hexec (CHandle handler)).
  - by apply (Hexec (CWatch s u)).
  - by apply (Hexec (CUnwatch s u)).
  - destruct (Broadcast_keyed_snapshot growcap b s env Hwf)
      as (b2 & env2 & tr2 & Heq & _ & Hp & _).
    rewrite Hb in Heq. by injection Heq as <- _ _.
  - by apply (Hexec (CClean s)).
  - by apply (Hexec CCleanAll).
Qed.
End HandlersGrow.

(** C8: in either registry (the two methods have the same body in both
    types) [Clean(a)] removes signal [a] from the listener mapping and
    leaves the listener sequence, the count and the presence of every other
    signal as they were; [Clean] and [CleanAll] leave the handler sequence
    alone; and across any call of any state-changing method, [Broadcast]
    with calling-back handlers included, the old handler sequence is a
    prefix of the new one, so its length never shrinks. *)
Theorem C8_Clean_scope_and_handlers :
  (∀ (P T E : Type) (b : registry P T E) (a : string),
      present (Clean b a) a = false ∧ view (Clean b a) a = [] ∧
      (∀ s, s ≠ a → view (Clean b a) s = view b s ∧
                    WatchCount (Clean b a) s = WatchCount b s ∧
                    present (Clean b a) s = present b s) ∧
      handlers (Clean b a) = handlers b ∧ handlers (CleanAll b) = handlers b) ∧
  (∀ (T E : Type) `(EqDecision T) growcap (b b' : registry T T E),
      wf b → dstep growcap b b' →
      handlers b `prefix_of` handlers b' ∧ length (handlers b) ≤ length (handlers b')) ∧
  (∀ (K T U E : Type) `(EqDecision K) `(!Uniquer K T U) growcap (b b' : registry U T E),
      wf b → kstep growcap b b' →
      handlers b `prefix_of` handlers b' ∧ length (handlers b) ≤ length (handlers b')).
Proof.
  split_and!.
  - intros P T E b a. unfold Clean, present, view, WatchCount, map_get, map_delete.
    simpl. destruct (listeners b) as [g|]; simpl.
    + rewrite lookup_delete_eq. split_and!; try done.
      intros s Hne. by rewrite lookup_delete_ne.
    + done.
  - intros T E ? growcap b b' Hwf Hstep.
    pose proof (dstep_handlers growcap b b' Hwf Hstep) as Hp.
    split; [done | by apply prefix_length].
  - intros K T U E ? ? growcap b b' Hwf Hstep.
    pose proof (kstep_handlers growcap b b' Hwf Hstep) as Hp.
    split; [done | by apply prefix_length].
Qed.

Lemma C8_witness :
  WatchCount (Clean Examples.abc_quiet "s") "t" = WatchCount Examples.abc_quiet "t" ∧
  length (handlers Examples.abc_quiet)
  ≤ length (handlers (Handle Examples.abc_quiet Examples.watch_z)) ∧
  length (handlers Examples.users)
  ≤ length (handlers (Clean Examples.users "s")).
Proof.
  destruct C8_Clean_scope_and_handlers as (Hclean & Hd & Hk). split_and!.
  - destruct (Hclean _ _ _ Examples.abc_quiet "s") as (_ & _ & Hfr & _).
    apply (Hfr "t"). discriminate.
  - apply (proj2 (Hd _ _ _ Examples.growcap _ _ wf_abc_quiet
                    (dstep_Handle _ _ Examples.watch_z))).
  - apply (proj2 (Hk Z _ _ _ _ Examples.TestUniquer_Uniquer Examples.growcap _ _
                    wf_users (kstep_Clean Examples.growcap Examples.users "s"))).
Defined.

(** ** C9 *)



(** ** C10 *)

Section EmptiedFacts.
Context {P T E : Type}.
Implicit Types (b : registry P T E).


End EmptiedFacts.



(** ** C5 *)

(** C5: in both registries [Unwatch(s, p)] returns and either finds no
    listener of [s] with the identity of [p] (the value itself in
    [Broadcast[T]], the key in [UniqueBroadcast[K,T]]), in which case the
    whole state, store included, is what it was, or removes exactly the
    first such listener, keeping the others in their order; the handlers,
    the keys of the listener mapping and the listeners of every other
    signal are untouched. *)
Theorem C5_Unwatch_removes_the_first_match :
  (∀ (T E : Type) `(EqDecision T) growcap (b : registry T T E) s p,
      wf b →
      ∃ b', Broadcast.Unwatch growcap b s p = Some b' ∧
            handlers b' = handlers b ∧
            (∀ s', present b' s' = present b s') ∧
            (∀ s', s' ≠ s → view b' s' = view b s') ∧
            ((p ∉ view b s) → b' = b) ∧
            (view b s = [] → b' = b) ∧
            (p ∈ view b s →
             ∃ l1 l2, view b s = l1 ++ p :: l2 ∧ (p ∉ l1) ∧ view b' s = l1 ++ l2 ∧
                      WatchCount b' s + 1 = WatchCount b s)) ∧
  (∀ (K T U E : Type) `(EqDecision K) `(!Uniquer K T U) growcap
     (b : registry U T E) s u,
      wf b →
      ∃ b', UniqueBroadcast.Unwatch growcap b s u = Some b' ∧
            handlers b' = handlers b ∧
            (∀ s', present b' s' = present b s') ∧
            (∀ s', s' ≠ s → view b' s' = view b s') ∧
            ((Unique u ∉ Unique <$> view b s) → b' = b) ∧
            (view b s = [] → b' = b) ∧
            (Unique u ∈ Unique <$> view b s →
             ∃ l1 x l2, view b s = l1 ++ x :: l2 ∧ Unique x = Unique u ∧
                        (Unique u ∉ Unique <$> l1) ∧ view b' s = l1 ++ l2 ∧
                        WatchCount b' s + 1 = WatchCount b s)).
Proof.
  split.
  - intros T E ? growcap b s p Hwf.
    destruct (Unwatch_spec growcap b s p Hwf)
      as (b' & Hun & Hwf' & Hh & Hpres & Hfr & Hcase & _).
    exists b'. split_and!; [done | done | done | done | | |].
    + intros Hnin. destruct Hcase as [[_ ->]|(l1 & l2 & Hv & _)]; [done |].
      exfalso. apply Hnin. rewrite Hv. apply elem_of_app. right. left.
    + intros Hnil. destruct Hcase as [[_ ->]|(l1 & l2 & Hv & _)]; [done |].
      rewrite Hnil in Hv. by destruct l1.
    + intros Hin. destruct Hcase as [[Hnin _]|(l1 & l2 & Hv & Hnin & Hv')]; [done |].
      exists l1, l2. split_and!; [done | done | done |].
      rewrite !WatchCount_view by done. rewrite Hv, Hv', !length_app. simpl. lia.
  - intros K T U E ? ? growcap b s u Hwf.
    destruct (UUnwatch_spec growcap b s u Hwf)
      as (b' & Hun & Hwf' & Hh & Hpres & Hfr & Hcase & _).
    exists b'. split_and!; [done | done | done | done | | |].
    + intros Hnin. destruct Hcase as [[_ ->]|(l1 & x & l2 & Hv & Hx & _)]; [done |].
      exfalso. apply Hnin. rewrite Hv, fmap_app, fmap_cons, Hx.
      apply elem_of_app. right. left.
    + intros Hnil. destruct Hcase as [[_ ->]|(l1 & x & l2 & Hv & _)]; [done |].
      rewrite Hnil in Hv. by destruct l1.
    + intros Hin.
      destruct Hcase as [[Hnin _]|(l1 & x & l2 & Hv & Hx & Hnin & Hv')]; [done |].
      exists l1, x, l2. split_and!; [done | done | done | done |].
      rewrite !WatchCount_view by done. rewrite Hv, Hv', !length_app. simpl. lia.
Qed.

Lemma C5_witness :
  (∃ b', Broadcast.Unwatch Examples.growcap Examples.abc_quiet "s" "b" = Some b' ∧
         view b' "s" = ["a"; "c"] ∧ view b' "t" = ["d"]) ∧
  (∃ b', UniqueBroadcast.Unwatch Examples.growcap Examples.users "s"
           (Examples.keyed 1 "renamed") = Some b' ∧
         view b' "s" = [Examples.keyed 2 "b"]) ∧
  Broadcast.Unwatch Examples.growcap Examples.abc_quiet "s" "z" = Some Examples.abc_quiet.
Proof.
  destruct C5_Unwatch_removes_the_first_match as [Hd Hk].
  assert (Hvs : view Examples.abc_quiet "s" = ["a"; "b"; "c"]) by by vm_compute.
  assert (Hvu : view Examples.users "s"
                = [Examples.keyed 1 "a"; Examples.keyed 2 "b"]) by by vm_compute.
  split_and!.
  - destruct (Hd _ _ _ Examples.growcap Examples.abc_quiet "s" "b" wf_abc_quiet)
      as (b' & Hun & _ & _ & Hfr & _ & _ & Hin).
    exists b'. split_and!; [done | |].
    + destruct Hin as (l1 & l2 & Hv & Hnin & -> & _).
      { rewrite Hvs. right. left. }
      rewrite Hvs in Hv.
      destruct l1 as [|x1 l1]; [by injection Hv |].
      injection Hv as <- Hv. destruct l1 as [|x2 l1]; [by injection Hv as <- |].
      exfalso. apply Hnin. injection Hv as <- _. right. left.
    + rewrite (Hfr "t") by discriminate. by vm_compute.
  - destruct (Hk Z _ _ _ _ _ Examples.growcap Examples.users "s"
                (Examples.keyed 1 "renamed") wf_users)
      as (b' & Hun & _ & _ & _ & _ & _ & Hin).
    exists b'. split; [done |].
    destruct Hin as (l1 & x & l2 & Hv & Hx & Hnin & -> & _).
    { rewrite Hvu. left. }
    rewrite Hvu in Hv.
    destruct l1 as [|x1 l1].
    + by injection Hv as _ <-.
    + exfalso. apply Hnin. injection Hv as <- _. left.
  - destruct (Hd _ _ _ Examples.growcap Examples.abc_quiet "s" "z" wf_abc_quiet)
      as (b' & Hun & _ & _ & _ & Hnin & _).
    rewrite Hun. f_equal. apply Hnin. rewrite Hvs.
    apply (bool_decide_unpack _). by vm_compute.
Defined.

(** ** C6 *)

Section NoOps.
Context {P T E : Type}.
Implicit Types (b : registry P T E).

Lemma range_handlers_empty exec value hs hi s ls
    (st : registry P T E * E * list (invocation T)) :
  slen ls = 0 → range_handlers exec value hs hi s ls st = Some st.
Proof.
  intros Hlen. revert hi. induction hs as [|handler hs IH]; intros hi; simpl; [done |].
  rewrite Hlen. simpl. apply IH.
Qed.

Lemma Clean_absent b s : present b s = false → Clean b s = b.
Proof.
  unfold present, Clean, map_get, map_delete, set_listeners.
  destruct b as [m hs [g|]]; simpl; [| done].
  destruct (g !! s) eqn:Hs; [done |]. intros _. by rewrite delete_id.
Qed.

Lemma map_get_absent b s : present b s = false → (map_get (listeners b) s).1 = SNil.
Proof.
  unfold present, map_get. destruct (listeners b) as [g|]; [| done].
  by destruct (g !! s).
Qed.
End NoOps.

(** C6: in both registries, in every well-formed state (the zero value
    among them) and for every signal, [Watch], [Unwatch] and [Broadcast]
    return, also when handlers call back, and leave a well-formed state, as
    do [Handle], [Clean] and [CleanAll] (the payload handed to [Watch] and
    [Unwatch] of [UniqueBroadcast[K,T]] is a non-nil [Uniquer]); for a
    signal that is not a key of the mapping [Unwatch], [Clean] and
    [Broadcast] change nothing of the registry and the queries answer
    false and 0; a duplicate [Watch] and an [Unwatch] of an absent listener
    return the state they were given; on the zero value the queries answer
    false and 0, [Range] has nothing to visit, [Clean] changes nothing, and
    the first [Watch] creates the mapping, the first [Handle] the handler
    sequence. *)
Theorem C6_operations_are_total :
  (∀ (T E : Type) `(EqDecision T) growcap (b : registry T T E) s p env handler,
      wf b →
      (∃ b', Broadcast.Watch growcap b s p = Some b' ∧ wf b') ∧
      (∃ b', Broadcast.Unwatch growcap b s p = Some b' ∧ wf b') ∧
      (∃ b' env' tr, Broadcast.Broadcast growcap b s env = Some (b', env', tr) ∧ wf b') ∧
      wf (Handle b handler) ∧ wf (Clean b s) ∧ wf (CleanAll b) ∧
      (present b s = false →
         Broadcast.Unwatch growcap b s p = Some b ∧ Clean b s = b ∧
         Broadcast.Broadcast growcap b s env = Some (b, env, []) ∧
         HasWatch b s = false ∧ WatchCount b s = 0) ∧
      (p ∈ view b s → Broadcast.Watch growcap b s p = Some b) ∧
      ((p ∉ view b s) → Broadcast.Unwatch growcap b s p = Some b)) ∧
  (∀ (K T U E : Type) `(EqDecision K) `(!Uniquer K T U) growcap
     (b : registry U T E) s u env handler,
      wf b →
      (∃ b', UniqueBroadcast.Watch b s u = Some b' ∧ wf b') ∧
      (∃ b', UniqueBroadcast.Unwatch growcap b s u = Some b' ∧ wf b') ∧
      (∃ b' env' tr,
          UniqueBroadcast.Broadcast growcap b s env = Some (b', env', tr) ∧ wf b') ∧
      wf (Handle b handler) ∧ wf (Clean b s) ∧ wf (CleanAll b) ∧
      (present b s = false →
         UniqueBroadcast.Unwatch growcap b s u = Some b ∧ Clean b s = b ∧
         (∃ b', UniqueBroadcast.Broadcast growcap b s env = Some (b', env, []) ∧
                handlers b' = handlers b ∧ listeners b' = listeners b ∧
                ∀ s', view b' s' = view b s') ∧
         HasWatch b s = false ∧ WatchCount b s = 0) ∧
      (Unique u ∈ Unique <$> view b s → UniqueBroadcast.Watch b s u = Some b) ∧
      ((Unique u ∉ Unique <$> view b s) → UniqueBroadcast.Unwatch growcap b s u = Some b)) ∧
  (∀ (P T E : Type) (handler : Handler P T E) (s : string),
      wf (@zero P T E) ∧ listeners (@zero P T E) = None ∧
      handlers (Handle zero handler) = [handler] ∧
      HasWatch (@zero P T E) s = false ∧ WatchCount (@zero P T E) s = 0 ∧
      Clean (@zero P T E) s = zero ∧ listeners (CleanAll (@zero P T E)) = Some ∅ ∧
      ∀ entries, enumerates (@zero P T E) entries → entries = []) ∧
  (∀ (T E : Type) `(EqDecision T) growcap s (p : T),
      ∃ b' : registry T T E,
        Broadcast.Watch growcap zero s p = Some b' ∧
        present b' s = true ∧ view b' s = [p]) ∧
  (∀ (K T U E : Type) `(EqDecision K) `(!Uniquer K T U) s (u : U),
      ∃ b' : registry U T E,
        UniqueBroadcast.Watch zero s u = Some b' ∧
        present b' s = true ∧ view b' s = [u]).
Proof.
  split_and!.
  - intros T E ? growcap b s p env handler Hwf.
    destruct (Watch_spec growcap b s p Hwf)
      as (bw & Hw & Hwfw & _ & _ & _ & _ & Hdup & _).
    destruct (Unwatch_spec growcap b s p Hwf)
      as (bu & Hu & Hwfu & _ & _ & _ & Hcase & _).
    destruct (Broadcast_direct_indices growcap b s env Hwf)
      as (bb & envb & trb & Hb & Hwfb & _).
    assert (Habsent : (p ∉ view b s) → Broadcast.Unwatch growcap b s p = Some b).
    { intros Hnin. rewrite Hu. f_equal.
      destruct Hcase as [[_ ->]|(l1 & l2 & Hv & _)]; [done |].
      exfalso. apply Hnin. rewrite Hv. apply elem_of_app. right. left. }
    split_and!.
    + by exists bw.
    + by exists bu.
    + by exists bb, envb, trb.
    + by apply Handle_spec.
    + by apply Clean_spec.
    + apply CleanAll_spec.
    + intros Hp. split_and!.
      * apply Habsent. rewrite (view_present b s Hp). apply not_elem_of_nil.
      * by apply Clean_absent.
      * unfold Broadcast.Broadcast. rewrite (map_get_absent b s Hp).
        by apply range_handlers_empty.
      * rewrite HasWatch_decide, WatchCount_view, (view_present b s Hp) by done.
        apply bool_decide_eq_false_2. simpl. lia.
      * by rewrite WatchCount_view, (view_present b s Hp).
    + intros Hin. rewrite Hw. f_equal. by apply Hdup.
    + done.
  - intros K T U E ? ? growcap b s u env handler Hwf.
    destruct (UWatch_spec b s u Hwf)
      as (bw & Hw & Hwfw & _ & _ & _ & _ & Hdup & _).
    destruct (UUnwatch_spec growcap b s u Hwf)
      as (bu & Hu & Hwfu & _ & _ & _ & Hcase & _).
    destruct (Broadcast_keyed_snapshot growcap b s env Hwf)
      as (bb & envb & trb & Hb & Hwfb & _).
    assert (Habsent : (Unique u ∉ Unique <$> view b s) →
                      UniqueBroadcast.Unwatch growcap b s u = Some b).
    { intros Hnin. rewrite Hu. f_equal.
      destruct Hcase as [[_ ->]|(l1 & x & l2 & Hv & Hx & _)]; [done |].
      exfalso. apply Hnin. rewrite Hv, fmap_app, fmap_cons, Hx.
      apply elem_of_app. right. left. }
    split_and!.
    + by exists bw.
    + by exists bu.
    + by exists bb, envb, trb.
    + by apply Handle_spec.
    + by apply Clean_spec.
    + apply CleanAll_spec.
    + intros Hp. split_and!.
      * apply Habsent. rewrite (view_present b s Hp). apply not_elem_of_nil.
      * by apply Clean_absent.
      * unfold UniqueBroadcast.Broadcast. rewrite (map_get_absent b s Hp).
        change (slen SNil) with 0. unfold make. rewrite decide_True by lia.
        cbn -[copy range_handlers].
        pose proof (copy_fresh (mem b) 0 SNil [] eq_refl (le_n 0)) as Hcopy.
        cbn -[copy] in Hcopy. rewrite Hcopy.
        cbn -[range_handlers]. rewrite range_handlers_empty by done.
        eexists. split; [done |]. split_and!; [done | done |].
        intros s'. by apply (view_set_mem_alloc b [[]]).
      * rewrite HasWatch_decide, WatchCount_view, (view_present b s Hp) by done.
        apply bool_decide_eq_false_2. simpl. lia.
      * by rewrite WatchCount_view, (view_present b s Hp).
    + intros Hin. rewrite Hw. f_equal. by apply Hdup.
    + done.
  - intros P T E handler s. split_and!; [apply wf_zero | done..|].
    intros entries Hen. unfold enumerates in Hen. simpl in Hen.
    rewrite map_to_list_empty in Hen. by apply Permutation_nil_r in Hen.
  - intros T E ? growcap s p.
    destruct (Watch_spec growcap (@zero T T E) s p wf_zero)
      as (b' & Hw & _ & _ & Hp & Hv & _).
    exists b'. split_and!; [done | done |]. rewrite Hv. by rewrite decide_False by
      (apply not_elem_of_nil).
  - intros K T U E ? ? s u.
    destruct (UWatch_spec (@zero U T E) s u wf_zero)
      as (b' & Hw & _ & _ & Hp & Hv & _).
    exists b'. split_and!; [done | done |]. rewrite Hv. by rewrite decide_False by
      (apply not_elem_of_nil).
Qed.

Lemma C6_witness :
  (∃ b', Broadcast.Watch Examples.growcap (@zero string string nat) "s" "a" = Some b') ∧
  (∃ b' env' tr, Broadcast.Broadcast Examples.growcap Examples.abc_unwatching "s" 0
                 = Some (b', env', tr) ∧ wf b') ∧
  Broadcast.Unwatch Examples.growcap Examples.abc_quiet "u" "a" = Some Examples.abc_quiet ∧
  Broadcast.Watch Examples.growcap Examples.abc_quiet "s" "a" = Some Examples.abc_quiet ∧
  (∃ b', UniqueBroadcast.Unwatch Examples.growcap
           (@zero Examples.TestUniquer Examples.TestUniqueData nat) "s"
           (Examples.keyed 1 "a") = Some b') ∧
  UniqueBroadcast.Watch Examples.users "s" (Examples.keyed 2 "renamed")
  = Some Examples.users.
Proof.
  destruct C6_operations_are_total as (Hd & Hk & _).
  destruct (Hd _ _ _ Examples.growcap zero "s" "a" 0 Examples.count_calls wf_zero)
    as ((b1 & H1 & _) & _).
  destruct (Hd _ _ _ Examples.growcap Examples.abc_unwatching "s" "a" 0
              Examples.count_calls wf_abc_unwatching)
    as (_ & _ & H2 & _).
  destruct (Hd _ _ _ Examples.growcap Examples.abc_quiet "u" "a" 0
              Examples.count_calls wf_abc_quiet)
    as (_ & _ & _ & _ & _ & _ & H3 & _).
  destruct (Hd _ _ _ Examples.growcap Examples.abc_quiet "s" "a" 0
              Examples.count_calls wf_abc_quiet)
    as (_ & _ & _ & _ & _ & _ & _ & H4 & _).
  destruct (Hk Z _ _ _ _ _ Examples.growcap zero "s" (Examples.keyed 1 "a") 0
              Examples.unwatch_self wf_zero)
    as (_ & (b5 & H5 & _) & _).
  destruct (Hk Z _ _ _ _ _ Examples.growcap Examples.users "s"
              (Examples.keyed 2 "renamed") 0 Examples.unwatch_self wf_users)
    as (_ & _ & _ & _ & _ & _ & _ & H6 & _).
  split_and!.
  - by exists b1.
  - exact H2.
  - apply H3. by vm_compute.
  - apply H4. assert (Hvs : view Examples.abc_quiet "s" = ["a"; "b"; "c"])
      by by vm_compute. rewrite Hvs. left.
  - by exists b5.
  - apply H6.
    assert (Hvu : view Examples.users "s"
                  = [Examples.keyed 1 "a"; Examples.keyed 2 "b"]) by by vm_compute.
    rewrite Hvu. right. left.
Defined.

(** ** C3 *)

(** C3: in every state either registry can reach from its zero value or
    from its constructor, handlers calling back included, no signal has two
    listeners with the same identity (equal values in [Broadcast[T]], equal
    keys in [UniqueBroadcast[K,T]]); and [Watch(s, p)] called a second time
    returns the very state the first call produced, so the listener
    sequence and [WatchCount(s)] are those of a single call. *)
Theorem C3_no_duplicate_identity :
  (∀ (T E : Type) `(EqDecision T) growcap (b : registry T T E),
      dreachable growcap b →
      (∀ s, NoDup (view b s)) ∧
      (∀ s p, ∃ b1, Broadcast.Watch growcap b s p = Some b1 ∧
                    Broadcast.Watch growcap b1 s p = Some b1 ∧
                    WatchCount b1 s = length (view b1 s))) ∧
  (∀ (K T U E : Type) `(EqDecision K) `(!Uniquer K T U) growcap (b : registry U T E),
      kreachable growcap b →
      (∀ s, NoDup (Unique <$> view b s)) ∧
      (∀ s u, ∃ b1, UniqueBroadcast.Watch b s u = Some b1 ∧
                    UniqueBroadcast.Watch b1 s u = Some b1 ∧
                    WatchCount b1 s = length (view b1 s))).
Proof.
  split.
  - intros T E ? growcap b Hreach.
    destruct (dreachable_inv growcap b Hreach) as [Hwf Hd]. split; [exact Hd |].
    intros s p.
    destruct (Watch_spec growcap b s p Hwf) as (b1 & Hw & Hwf1 & _ & _ & Hv & _).
    destruct (Watch_spec growcap b1 s p Hwf1) as (b2 & Hw2 & _ & _ & _ & _ & _ & Hdup & _).
    exists b1. split_and!; [done | | by apply WatchCount_view].
    rewrite Hw2. f_equal. apply Hdup. rewrite Hv.
    case_decide; [done |]. apply elem_of_app. right. left.
  - intros K T U E ? ? growcap b Hreach.
    destruct (kreachable_inv growcap b Hreach) as [Hwf Hd]. split; [exact Hd |].
    intros s u.
    destruct (UWatch_spec b s u Hwf) as (b1 & Hw & Hwf1 & _ & _ & Hv & _).
    destruct (UWatch_spec b1 s u Hwf1) as (b2 & Hw2 & _ & _ & _ & _ & _ & Hdup & _).
    exists b1. split_and!; [done | | by apply WatchCount_view].
    rewrite Hw2. f_equal. apply Hdup. rewrite Hv.
    case_decide; [done |]. rewrite fmap_app. apply elem_of_app. right. left.
Qed.

Lemma C3_witness :
  NoDup (view Examples.abc_unwatching "s") ∧
  NoDup (Unique <$> view Examples.users "s") ∧
  ∃ b1, Broadcast.Watch Examples.growcap Examples.abc_quiet "t" "e" = Some b1 ∧
        Broadcast.Watch Examples.growcap b1 "t" "e" = Some b1.
Proof.
  destruct C3_no_duplicate_identity as [Hd Hk].
  destruct (Hd _ _ _ Examples.growcap _ dreachable_abc_unwatching) as [H1 _].
  destruct (Hk Z _ _ _ _ _ Examples.growcap _ kreachable_users) as [H2 _].
  destruct (Hd _ _ _ Examples.growcap _ dreachable_abc_quiet) as [_ H3].
  split_and!; [apply H1 | apply H2 |].
  destruct (H3 "t" "e") as (b1 & Hw1 & Hw2 & _). by exists b1.
Defined.

(** ** C4 *)



(** ** C1 *)

(** What holds of the snapshot, for reference: [Broadcast_keyed_snapshot]
    ([UniqueBroadcast[K,T]], any handlers) and [Broadcast_direct_snapshot]
    ([Broadcast[T]], handlers that do not call [Unwatch] back).  In
    [UniqueBroadcast[K,T]] a handler that unwatches the listener it was
    handed changes the registry and not the deliveries. *)
Example keyed_Unwatch_during_Broadcast :
  ∃ b' env' tr,
    UniqueBroadcast.Broadcast Examples.growcap Examples.users "s" 0
    = Some (b', env', tr) ∧
    inv_payload <$> tr = Value <$> view Examples.users "s" ∧
    view b' "s" = [].
Proof. vm_compute. by eexists _, _, _. Qed.

(** C1: in [Broadcast[T]] the payloads one [Broadcast] delivers are not
    fixed by the listeners registered when it started.  [Broadcast] keeps
    the slice header of the signal, which shares its backing array with the
    registry, and [Unwatch] closes the gap in that array in place: with
    listeners ["a"; "b"; "c"] under ["s"] and one handler that unwatches
    ["a"] when it is handed ["a"], [Broadcast("s")] delivers ["a"], ["c"],
    ["c"]; ["b"], registered when the header was read, is never delivered. *)
Theorem C1_direct_Unwatch_during_Broadcast :
  Examples.abc Examples.unwatch_a = Some Examples.abc_unwatching ∧
  view Examples.abc_unwatching "s" = ["a"; "b"; "c"] ∧
  length (handlers Examples.abc_unwatching) = 1 ∧
  ∃ b' env' tr,
    Broadcast.Broadcast Examples.growcap Examples.abc_unwatching "s" 0
    = Some (b', env', tr) ∧
    inv_delivery <$> tr = [(0, 0, "a"); (0, 1, "c"); (0, 2, "c")] ∧
    inv_delivery <$> tr ≠ fan_out 1 (view Examples.abc_unwatching "s") ∧
    view b' "s" = ["b"; "c"].
Proof.
  split; [by vm_compute |]. split; [by vm_compute |]. split; [by vm_compute |].
  eexists _, _, _. split; [by vm_compute |]. split_and!; [done | | done].
  by vm_compute.
Qed.

(** * Further properties *)

(** ** The first listener with a given identity *)

Section FirstMatch.
Context {P K : Type} (f : P → K).

(** A list splits in one way only around the first element with key [k]. *)
Lemma first_match_unique k l1 x l2 l1' x' l2' :
  l1 ++ x :: l2 = l1' ++ x' :: l2' →
  f x = k → f x' = k → (k ∉ f <$> l1) → (k ∉ f <$> l1') →
  l1 = l1' ∧ x = x' ∧ l2 = l2'.
Proof.
  revert l1'. induction l1 as [|y l1 IH]; intros l1' Heq Hx Hx' Hn Hn'.
  - destruct l1' as [|y' l1'].
    + by injection Heq as -> ->.
    + injection Heq as -> _. exfalso. apply Hn'. rewrite fmap_cons, Hx. left.
  - destruct l1' as [|y' l1'].
    + injection Heq as -> _. exfalso. apply Hn. rewrite fmap_cons, Hx'. left.
    + injection Heq as -> Heq. rewrite fmap_cons in Hn, Hn'.
      apply not_elem_of_cons in Hn as [_ Hn]. apply not_elem_of_cons in Hn' as [_ Hn'].
      destruct (IH l1' Heq Hx Hx' Hn Hn') as (-> & -> & ->). done.
Qed.
End FirstMatch.

(** ** X1 *)

(** X1: in both registries [Watch(s, p)] of a payload whose identity is not
    yet listed under [s] puts it last in the listener sequence of [s] and
    raises [WatchCount(s)] by one; of a listed identity it returns the
    state it was given; either way [HasWatch(s)] is true afterwards, and
    the handlers and the listeners, counts and presence of every other
    signal are as before. *)
Theorem X1_Watch_appends_last :
  (∀ (T E : Type) `(EqDecision T) growcap (b : registry T T E) s p,
      wf b →
      ∃ b', Broadcast.Watch growcap b s p = Some b' ∧ wf b' ∧
            handlers b' = handlers b ∧ HasWatch b' s = true ∧
            (∀ s', s' ≠ s → view b' s' = view b s' ∧
                            WatchCount b' s' = WatchCount b s' ∧
                            present b' s' = present b s') ∧
            ((p ∉ view b s) → view b' s = view b s ++ [p] ∧
                              WatchCount b' s = WatchCount b s + 1) ∧
            (p ∈ view b s → b' = b)) ∧
  (∀ (K T U E : Type) `(EqDecision K) `(!Uniquer K T U) (b : registry U T E) s u,
      wf b →
      ∃ b', UniqueBroadcast.Watch b s u = Some b' ∧ wf b' ∧
            handlers b' = handlers b ∧ HasWatch b' s = true ∧
            (∀ s', s' ≠ s → view b' s' = view b s' ∧
                            WatchCount b' s' = WatchCount b s' ∧
                            present b' s' = present b s') ∧
            ((Unique u ∉ Unique <$> view b s) → view b' s = view b s ++ [u] ∧
                                                 WatchCount b' s = WatchCount b s + 1) ∧
            (Unique u ∈ Unique <$> view b s → b' = b)).
Proof.
  split.
  - intros T E ? growcap b s p Hwf.
    destruct (Watch_spec growcap b s p Hwf)
      as (b' & Hw & Hwf' & Hh & Hp & Hv & Hfr & Hdup & _).
    exists b'. split_and!; [done | done | done | | | | done].
    + rewrite HasWatch_decide, WatchCount_view, Hv by done.
      apply bool_decide_eq_true_2. case_decide as Hin.
      * destruct (view b s); [by apply elem_of_nil in Hin | simpl; lia].
      * rewrite length_app. simpl. lia.
    + intros s' Hne. destruct (Hfr s' Hne) as [Hv' Hp'].
      split_and!; [done | | done]. by rewrite !WatchCount_view, Hv'.
    + intros Hnin. rewrite decide_False in Hv by done. split; [done |].
      rewrite !WatchCount_view, Hv, length_app by done. done.
  - intros K T U E ? ? b s u Hwf.
    destruct (UWatch_spec b s u Hwf)
      as (b' & Hw & Hwf' & Hh & Hp & Hv & Hfr & Hdup & _).
    exists b'. split_and!; [done | done | done | | | | done].
    + rewrite HasWatch_decide, WatchCount_view, Hv by done.
      apply bool_decide_eq_true_2. case_decide as Hin.
      * destruct (view b s); [by apply elem_of_nil in Hin | simpl; lia].
      * rewrite length_app. simpl. lia.
    + intros s' Hne. destruct (Hfr s' Hne) as [Hv' Hp'].
      split_and!; [done | | done]. by rewrite !WatchCount_view, Hv'.
    + intros Hnin. rewrite decide_False in Hv by done. split; [done |].
      rewrite !WatchCount_view, Hv, length_app by done. done.
Qed.

Lemma X1_witness :
  (∃ b', Broadcast.Watch Examples.growcap Examples.abc_quiet "s" "e" = Some b' ∧
         view b' "s" = ["a"; "b"; "c"; "e"] ∧ WatchCount b' "t" = 1) ∧
  (∃ b', UniqueBroadcast.Watch Examples.users "s" (Examples.keyed 9 "i") = Some b' ∧
         WatchCount b' "s" = 3).
Proof.
  destruct X1_Watch_appends_last as [Hd Hk]. split.
  - destruct (Hd _ _ _ Examples.growcap Examples.abc_quiet "s" "e" wf_abc_quiet)
      as (b' & Hw & _ & _ & _ & Hfr & Hnew & _).
    exists b'. split; [done |].
    assert (Hvs : view Examples.abc_quiet "s" = ["a"; "b"; "c"]) by by vm_compute.
    destruct Hnew as [Hv _].
    { rewrite Hvs. apply (bool_decide_unpack _). by vm_compute. }
    split; [by rewrite Hv, Hvs |].
    destruct (Hfr "t") as (_ & -> & _); [discriminate | by vm_compute].
  - destruct (Hk Z _ _ _ _ _ Examples.users "s" (Examples.keyed 9 "i") wf_users)
      as (b' & Hw & _ & _ & _ & _ & Hnew & _).
    exists b'. split; [done |].
    destruct Hnew as [_ Hc].
    { apply (bool_decide_unpack _). by vm_compute. }
    rewrite Hc. by vm_compute.
Defined.

(** ** X2 *)

(** X2: in both registries, [Watch(s, p)] of an identity not yet listed
    under [s] followed by [Unwatch(s, p)] gives back the listener sequence
    of every signal and the handlers; the signal [s] is then a key of the
    mapping, whether it was one before or not. *)
Theorem X2_Watch_then_Unwatch :
  (∀ (T E : Type) `(EqDecision T) growcap (b : registry T T E) s p,
      wf b → (p ∉ view b s) →
      ∃ b1 b2, Broadcast.Watch growcap b s p = Some b1 ∧
               Broadcast.Unwatch growcap b1 s p = Some b2 ∧
               (∀ s', view b2 s' = view b s') ∧ handlers b2 = handlers b ∧
               present b2 s = true ∧
               (∀ s', s' ≠ s → present b2 s' = present b s')) ∧
  (∀ (K T U E : Type) `(EqDecision K) `(!Uniquer K T U) growcap
     (b : registry U T E) s u,
      wf b → (Unique u ∉ Unique <$> view b s) →
      ∃ b1 b2, UniqueBroadcast.Watch b s u = Some b1 ∧
               UniqueBroadcast.Unwatch growcap b1 s u = Some b2 ∧
               (∀ s', view b2 s' = view b s') ∧ handlers b2 = handlers b ∧
               present b2 s = true ∧
               (∀ s', s' ≠ s → present b2 s' = present b s')).
Proof.
  split.
  - intros T E ? growcap b s p Hwf Hnin.
    destruct (Watch_spec growcap b s p Hwf)
      as (b1 & Hw & Hwf1 & Hh1 & Hp1 & Hv1 & Hfr1 & _).
    rewrite decide_False in Hv1 by done.
    destruct (Unwatch_spec growcap b1 s p Hwf1)
      as (b2 & Hu & _ & Hh2 & Hp2 & Hfr2 & Hcase & _).
    exists b1, b2. split_and!; [done | done | | congruence | by rewrite Hp2 |].
    + intros s'. destruct (decide (s' = s)) as [->|Hne].
      * destruct Hcase as [[Hn _]|(l1 & l2 & Hv & Hn1 & ->)].
        -- exfalso. apply Hn. rewrite Hv1. apply elem_of_app. right. left.
        -- rewrite Hv1 in Hv.
           destruct (first_match_unique id p (view b s) p [] l1 p l2 Hv)
             as (-> & _ & <-); [done | done | by rewrite list_fmap_id..|].
           by rewrite app_nil_r.
      * rewrite (Hfr2 s' Hne). by destruct (Hfr1 s' Hne).
    + intros s' Hne. rewrite Hp2. by destruct (Hfr1 s' Hne).
  - intros K T U E ? ? growcap b s u Hwf Hnin.
    destruct (UWatch_spec b s u Hwf)
      as (b1 & Hw & Hwf1 & Hh1 & Hp1 & Hv1 & Hfr1 & _).
    rewrite decide_False in Hv1 by done.
    destruct (UUnwatch_spec growcap b1 s u Hwf1)
      as (b2 & Hu & _ & Hh2 & Hp2 & Hfr2 & Hcase & _).
    exists b1, b2. split_and!; [done | done | | congruence | by rewrite Hp2 |].
    + intros s'. destruct (decide (s' = s)) as [->|Hne].
      * destruct Hcase as [[Hn _]|(l1 & x & l2 & Hv & Hx & Hn1 & ->)].
        -- exfalso. apply Hn. rewrite Hv1, fmap_app. apply elem_of_app. right. left.
        -- rewrite Hv1 in Hv.
           destruct (first_match_unique Unique (Unique u) (view b s) u [] l1 x l2 Hv)
             as (-> & _ & <-); [done..|].
           by rewrite app_nil_r.
      * rewrite (Hfr2 s' Hne). by destruct (Hfr1 s' Hne).
    + intros s' Hne. rewrite Hp2. by destruct (Hfr1 s' Hne).
Qed.

Lemma X2_witness :
  (∃ b1 b2, Broadcast.Watch Examples.growcap Examples.abc_quiet "u" "e" = Some b1 ∧
            Broadcast.Unwatch Examples.growcap b1 "u" "e" = Some b2 ∧
            view b2 "s" = ["a"; "b"; "c"] ∧ present b2 "u" = true) ∧
  (∃ b1 b2, UniqueBroadcast.Watch Examples.users "s" (Examples.keyed 9 "i") = Some b1 ∧
            UniqueBroadcast.Unwatch Examples.growcap b1 "s" (Examples.keyed 9 "i")
            = Some b2 ∧
            view b2 "s" = view Examples.users "s").
Proof.
  destruct X2_Watch_then_Unwatch as [Hd Hk]. split.
  - destruct (Hd _ _ _ Examples.growcap Examples.abc_quiet "u" "e" wf_abc_quiet)
      as (b1 & b2 & H1 & H2 & Hv & _ & Hp & _).
    { apply (bool_decide_unpack _). by vm_compute. }
    exists b1, b2. split_and!; [done | done | | done].
    rewrite Hv. by vm_compute.
  - destruct (Hk Z _ _ _ _ _ Examples.growcap Examples.users "s"
                (Examples.keyed 9 "i") wf_users)
      as (b1 & b2 & H1 & H2 & Hv & _).
    { apply (bool_decide_unpack _). by vm_compute. }
    exists b1, b2. split_and!; [done | done |]. apply Hv.
Defined.

(** ** X3 *)

(** X3: in every state either registry can reach, after [Unwatch(s, p)] no
    listener of [s] has the identity of [p] any more, and a second
    [Unwatch(s, p)] returns the state it was given. *)
Theorem X3_Unwatch_leaves_no_match :
  (∀ (T E : Type) `(EqDecision T) growcap (b : registry T T E) s p,
      dreachable growcap b →
      ∃ b', Broadcast.Unwatch growcap b s p = Some b' ∧ (p ∉ view b' s) ∧
            Broadcast.Unwatch growcap b' s p = Some b') ∧
  (∀ (K T U E : Type) `(EqDecision K) `(!Uniquer K T U) growcap
     (b : registry U T E) s u,
      kreachable growcap b →
      ∃ b', UniqueBroadcast.Unwatch growcap b s u = Some b' ∧
            (Unique u ∉ Unique <$> view b' s) ∧
            UniqueBroadcast.Unwatch growcap b' s u = Some b').
Proof.
  split.
  - intros T E ? growcap b s p Hreach.
    destruct (dreachable_inv growcap b Hreach) as [Hwf Hd].
    destruct (Unwatch_spec growcap b s p Hwf)
      as (b' & Hu & Hwf' & _ & _ & _ & Hcase & _).
    assert (Hgone : p ∉ view b' s).
    { destruct Hcase as [[Hn ->]|(l1 & l2 & Hv & Hn1 & ->)]; [done |].
      pose proof (Hd s) as Hnd. rewrite Hv in Hnd.
      apply NoDup_app in Hnd as (_ & _ & Hnd). apply NoDup_cons in Hnd as [Hn2 _].
      by apply not_elem_of_app. }
    exists b'. split_and!; [done | done |].
    destruct (Unwatch_spec growcap b' s p Hwf')
      as (b2 & Hu2 & _ & _ & _ & _ & Hcase2 & _).
    rewrite Hu2. f_equal.
    destruct Hcase2 as [[_ ->]|(l1 & l2 & Hv & _)]; [done |].
    exfalso. apply Hgone. rewrite Hv. apply elem_of_app. right. left.
  - intros K T U E ? ? growcap b s u Hreach.
    destruct (kreachable_inv growcap b Hreach) as [Hwf Hd].
    destruct (UUnwatch_spec growcap b s u Hwf)
      as (b' & Hu & Hwf' & _ & _ & _ & Hcase & _).
    assert (Hgone : Unique u ∉ Unique <$> view b' s).
    { destruct Hcase as [[Hn ->]|(l1 & x & l2 & Hv & Hx & Hn1 & ->)]; [done |].
      pose proof (Hd s) as Hnd. rewrite Hv, fmap_app, fmap_cons, Hx in Hnd.
      apply NoDup_app in Hnd as (_ & _ & Hnd). apply NoDup_cons in Hnd as [Hn2 _].
      rewrite fmap_app. by apply not_elem_of_app. }
    exists b'. split_and!; [done | done |].
    destruct (UUnwatch_spec growcap b' s u Hwf')
      as (b2 & Hu2 & _ & _ & _ & _ & Hcase2 & _).
    rewrite Hu2. f_equal.
    destruct Hcase2 as [[_ ->]|(l1 & x & l2 & Hv & Hx & _)]; [done |].
    exfalso. apply Hgone. rewrite Hv, fmap_app, fmap_cons, Hx.
    apply elem_of_app. right. left.
Qed.

Lemma X3_witness :
  (∃ b', Broadcast.Unwatch Examples.growcap Examples.abc_quiet "s" "b" = Some b' ∧
         ("b" ∉ view b' "s")) ∧
  (∃ b', UniqueBroadcast.Unwatch Examples.growcap Examples.users "s"
           (Examples.keyed 2 "renamed") = Some b' ∧
         (2%Z ∉ Unique <$> view b' "s")).
Proof.
  destruct X3_Unwatch_leaves_no_match as [Hd Hk]. split.
  - destruct (Hd _ _ _ Examples.growcap Examples.abc_quiet "s" "b" dreachable_abc_quiet)
      as (b' & Hu & Hn & _).
    by exists b'.
  - destruct (Hk Z _ _ _ _ _ Examples.growcap Examples.users "s"
                (Examples.keyed 2 "renamed") kreachable_users)
      as (b' & Hu & Hn & _).
    by exists b'.
Defined.

(** ** X4 *)

Section Silent.
Lemma Broadcast_direct_absent {T E : Type} `{EqDecision T} growcap
    (b : registry T T E) s env :
  view b s = [] → wf b →
  Broadcast.Broadcast growcap b s env = Some (b, env, []).
Proof.
  intros Hv Hwf. unfold Broadcast.Broadcast.
  apply range_handlers_empty.
  destruct (listeners_contents b s Hwf) as (items & _ & -> & Hitems).
  by rewrite <- Hitems, Hv.
Qed.

Lemma Broadcast_keyed_absent {K T U E : Type} `{EqDecision K} `{!Uniquer K T U}
    growcap (b : registry U T E) s env :
  view b s = [] → wf b →
  UniqueBroadcast.Broadcast growcap b s env
  = Some (set_mem b (mem b ++ [[]]), env, []).
Proof.
  intros Hv Hwf. unfold UniqueBroadcast.Broadcast.
  destruct (listeners_contents b s Hwf) as (items & Hc & Hlen & Hitems).
  rewrite Hv in Hitems. subst items.
  set (src := (map_get (listeners b) s).1) in *. clearbody src.
  simpl in Hlen. rewrite Hlen.
  unfold make. rewrite decide_True by lia. cbn -[copy range_handlers].
  pose proof (copy_fresh (mem b) 0 src [] Hc (le_n 0)) as Hcopy.
  cbn -[copy] in Hcopy. rewrite Hcopy.
  cbn -[range_handlers]. by rewrite range_handlers_empty.
Qed.
End Silent.

(** X4: in both registries, whatever handlers are registered, a
    [Broadcast] of a signal without listeners invokes no handler and leaves
    the program state, the handlers and the listener mapping as they were;
    this is so for [s] after [Clean(s)] and for every signal after
    [CleanAll()], both of which keep the handlers. *)
Theorem X4_nothing_to_deliver :
  (∀ (T E : Type) `(EqDecision T) growcap (b : registry T T E) s s' env,
      wf b →
      (view b s = [] → Broadcast.Broadcast growcap b s env = Some (b, env, [])) ∧
      Broadcast.Broadcast growcap (Clean b s) s env = Some (Clean b s, env, []) ∧
      Broadcast.Broadcast growcap (CleanAll b) s' env = Some (CleanAll b, env, []) ∧
      WatchCount (Clean b s) s = 0 ∧ WatchCount (CleanAll b) s' = 0) ∧
  (∀ (K T U E : Type) `(EqDecision K) `(!Uniquer K T U) growcap
     (b : registry U T E) s s' env,
      wf b →
      (view b s = [] →
       ∃ b', UniqueBroadcast.Broadcast growcap b s env = Some (b', env, []) ∧
             handlers b' = handlers b ∧ listeners b' = listeners b) ∧
      (∃ b', UniqueBroadcast.Broadcast growcap (Clean b s) s env = Some (b', env, []) ∧
             handlers b' = handlers b ∧ listeners b' = listeners (Clean b s)) ∧
      (∃ b', UniqueBroadcast.Broadcast growcap (CleanAll b) s' env = Some (b', env, []) ∧
             handlers b' = handlers b ∧ listeners b' = Some ∅) ∧
      WatchCount (Clean b s) s = 0 ∧ WatchCount (CleanAll b) s' = 0).
Proof.
  split.
  - intros T E ? growcap b s s' env Hwf.
    destruct (Clean_spec b s Hwf) as (Hwfc & Hvc & _).
    destruct (CleanAll_spec b) as (Hwfa & Hva).
    split_and!.
    + intros Hv. by apply Broadcast_direct_absent.
    + by apply Broadcast_direct_absent.
    + apply Broadcast_direct_absent; [apply Hva | done].
    + by rewrite WatchCount_view, Hvc.
    + rewrite WatchCount_view by done. by destruct (Hva s') as [-> _].
  - intros K T U E ? ? growcap b s s' env Hwf.
    destruct (Clean_spec b s Hwf) as (Hwfc & Hvc & _).
    destruct (CleanAll_spec b) as (Hwfa & Hva).
    split_and!.
    + intros Hv. rewrite Broadcast_keyed_absent by done. by eexists.
    + rewrite Broadcast_keyed_absent by done. by eexists.
    + rewrite Broadcast_keyed_absent; [by eexists | apply Hva | done].
    + by rewrite WatchCount_view, Hvc.
    + rewrite WatchCount_view by done. by destruct (Hva s') as [-> _].
Qed.

Lemma X4_witness :
  Broadcast.Broadcast Examples.growcap (Clean Examples.abc_unwatching "s") "s" 5
  = Some (Clean Examples.abc_unwatching "s", 5, []) ∧
  ∃ b', UniqueBroadcast.Broadcast Examples.growcap (CleanAll Examples.users) "t" 5
        = Some (b', 5, []).
Proof.
  destruct X4_nothing_to_deliver as [Hd Hk]. split.
  - by destruct (Hd _ _ _ Examples.growcap Examples.abc_unwatching "s" "t" 5
                   wf_abc_unwatching) as (_ & H & _).
  - destruct (Hk Z _ _ _ _ _ Examples.growcap Examples.users "s" "t" 5 wf_users)
      as (_ & _ & (b' & H & _) & _).
    by exists b'.
Defined.

(** ** X5 *)

Section QuietLoop.
Context {P T E : Type}.
Variable exec : registry P T E → call P T E → option (registry P T E).
Variable value : option P → option T.
Variable ls : slice.
Variable b : registry P T E.
Variable payloads : list T.
Hypothesis read_payload : ∀ j v,
  payloads !! j = Some v → sread (mem b) ls j ≫= value = Some v.

Lemma range_listeners_quiet hi handler s j0 ps env tr :
  quiet handler →
  (∀ j v, ps !! j = Some v → payloads !! (j0 + j) = Some v) →
  ∃ tr', range_listeners exec value hi handler s ls (seq j0 (length ps)) (b, env, tr)
         = Some (b, pass handler s ps env, tr').
Proof.
  intros Hq. revert j0 env tr.
  induction ps as [|v ps IH]; intros j0 env tr Hps; simpl; [by eexists |].
  pose proof (read_payload j0 v) as Hread. rewrite <- (Nat.add_0_r j0) in Hread at 1.
  specialize (Hread (Hps 0 v eq_refl)).
  destruct (sread (mem b) ls j0) as [cell|]; [| done]. simpl in Hread |- *.
  rewrite Hread. simpl.
  pose proof (Hq s v env) as Hcalls.
  destruct (handler s v env) as [[env1 calls] err]. simpl in Hcalls. subst calls. simpl.
  apply IH. intros j w Hj. replace (S j0 + j) with (j0 + S j) by lia.
  by apply (Hps (S j)).
Qed.

Lemma range_handlers_quiet hs hi s env tr :
  Forall quiet hs → slen ls = length payloads →
  ∃ tr', range_handlers exec value hs hi s ls (b, env, tr)
         = Some (b, passes hs s payloads env, tr').
Proof.
  intros Hhs Hlen. revert hi env tr.
  induction Hhs as [|handler hs Hq _ IH]; intros hi env tr; simpl; [by eexists |].
  rewrite Hlen.
  destruct (range_listeners_quiet hi handler s 0 payloads env tr Hq) as (tr1 & ->);
    [done |].
  simpl. apply IH.
Qed.
End QuietLoop.

Lemma quiet_tame {P T E : Type} (allowed : call P T E → Prop) (hs : list (Handler P T E)) :
  Forall quiet hs → Forall (tame allowed) hs.
Proof.
  intros Hq. eapply Forall_impl; [exact Hq |].
  intros handler Hh s v env. rewrite Hh. constructor.
Qed.

(** X5: in both registries, when no registered handler calls the registry
    back, [Broadcast] leaves the handlers and every listener sequence as
    they were ([Broadcast[T]] returns the very state it was given), and
    the program state it leaves is the one obtained by running the
    handlers one after the other, each over the listeners in order, every
    call starting from the state the previous call left. *)
Theorem X5_Broadcast_changes_nothing_by_itself :
  (∀ (T E : Type) `(EqDecision T) growcap (b : registry T T E) s env,
      wf b → Forall quiet (handlers b) →
      ∃ tr, Broadcast.Broadcast growcap b s env
            = Some (b, passes (handlers b) s (view b s) env, tr) ∧
            inv_delivery <$> tr = fan_out (length (handlers b)) (view b s)) ∧
  (∀ (K T U E : Type) `(EqDecision K) `(!Uniquer K T U) growcap
     (b : registry U T E) s env,
      wf b → Forall quiet (handlers b) →
      ∃ b' tr, UniqueBroadcast.Broadcast growcap b s env
               = Some (b', passes (handlers b) s (Value <$> view b s) env, tr) ∧
               handlers b' = handlers b ∧ listeners b' = listeners b ∧
               (∀ s', view b' s' = view b s') ∧
               inv_delivery <$> tr
               = fan_out (length (handlers b)) (Value <$> view b s)).
Proof.
  split.
  - intros T E ? growcap b s env Hwf Hq.
    destruct (Broadcast_direct_snapshot growcap b s env Hwf (quiet_tame _ _ Hq))
      as (b' & env' & tr & Hb & _ & Hdel).
    destruct (direct_snapshot_init b s Hwf) as (Hlen & _ & Hsnap).
    destruct (range_handlers_quiet (Broadcast.exec growcap) Broadcast.Value
                (map_get (listeners b) s).1 b (view b s)) with
      (hs := handlers b) (hi := 0) (s := s) (env := env)
      (tr := @nil (invocation T)) as (tr' & Hrun); [| done | done |].
    { intros j v Hj.
      destruct (direct_read_snapshot (map_get (listeners b) s).1 (view b s) b j)
        as (v' & Hread & Hv'); [done | |].
      - rewrite Hlen. by eapply lookup_lt_Some.
      - rewrite Hread. congruence. }
    unfold Broadcast.Broadcast in Hb. rewrite Hrun in Hb. injection Hb as <- <- <-.
    exists tr'. split; [exact Hrun | done].
  - intros K T U E ? ? growcap b s env Hwf Hq.
    destruct (Broadcast_keyed_snapshot growcap b s env Hwf)
      as (b' & env' & tr & Hb & _ & _ & _ & Hdel).
    unfold UniqueBroadcast.Broadcast in Hb |- *.
    destruct (listeners_contents b s Hwf) as (items & Hc & Hlen & Hview).
    set (src := (map_get (listeners b) s).1) in *. clearbody src.
    unfold make in Hb |- *. rewrite decide_True in Hb |- * by lia.
    cbn -[copy range_handlers] in Hb |- *.
    rewrite (copy_fresh _ _ _ _ Hc) in Hb |- * by (rewrite length_fmap; lia).
    cbn -[range_handlers] in Hb |- *.
    rewrite Hlen, length_fmap, Nat.sub_diag in Hb |- *.
    cbn [replicate] in Hb |- *. rewrite app_nil_r in Hb |- *.
    destruct (range_handlers_quiet (UniqueBroadcast.exec growcap)
                UniqueBroadcast.call_Value
                (SMk (length (mem b)) 0 (length items) (length items))
                (set_mem b (mem b ++ [Some <$> items])) (Value <$> items)) with
      (hs := handlers b) (hi := 0) (s := s) (env := env)
      (tr := @nil (invocation T)) as (tr' & Hrun); [| done | |].
    { intros j v Hj.
      destruct (keyed_read (mem b) items
                  (set_mem b (mem b ++ [Some <$> items])) j)
        as (v' & Hread & Hv').
      - split; [by apply wf_set_mem_alloc | done].
      - simpl. apply lookup_lt_Some in Hj. by rewrite length_fmap in Hj.
      - rewrite Hread. congruence. }
    { simpl. by rewrite length_fmap. }
    rewrite Hrun in Hb. injection Hb as <- <- <-.
    eexists _, tr'. rewrite Hview. split; [exact Hrun |].
    split_and!; [done | done | | by rewrite <- Hview].
    intros s'. rewrite <- Hview. by apply view_set_mem_alloc.
Qed.

Lemma X5_witness :
  (∃ tr, Broadcast.Broadcast Examples.growcap Examples.abc_quiet "s" 10
         = Some (Examples.abc_quiet, 13, tr)) ∧
  (∃ b' tr,
      UniqueBroadcast.Broadcast Examples.growcap
        (Handle (@New Examples.TestUniquer Examples.TestUniqueData nat)
                Examples.count_users) "s" 10
      = Some (b', 10, tr)).
Proof.
  destruct X5_Broadcast_changes_nothing_by_itself as [Hd Hk]. split.
  - destruct (Hd _ _ _ Examples.growcap Examples.abc_quiet "s" 10 wf_abc_quiet)
      as (tr & Hb & _).
    { repeat constructor. }
    exists tr. exact Hb.
  - destruct (Hk Z _ _ _ _ _ Examples.growcap
                (Handle (@New Examples.TestUniquer Examples.TestUniqueData nat)
                        Examples.count_users) "s" 10)
      as (b' & tr & Hb & _).
    { apply Handle_spec, wf_New. }
    { repeat constructor. }
    exists b', tr. exact Hb.
Defined.

(** ** X6 *)

Section KeyedStore.
Context {K T U E : Type} `{EqDecision K} `{!Uniquer K T U}.
Variable growcap : nat → nat → nat.

Lemma kstep_mem (b b' : registry U T E) :
  wf b → kstep growcap b b' → mem b `prefix_of` mem b'.
Proof.
  intros Hwf Hstep.
  assert (Hexec : ∀ c b1, UniqueBroadcast.exec growcap b c = Some b1 →
                          mem b `prefix_of` mem b1).
  { intros c b1 Hex.
    destruct (keyed_exec_prefix growcap (mem b) b c) as (b2 & Hex2 & [_ Hp] & _);
      [done.. |].
    rewrite Hex in Hex2. by injection Hex2 as <-. }
  destruct Hstep as [b handler|b s u b' Hw|b s u b' Hw|b s env b' env' tr Hb|b s|b].
  - by apply (Hexec (CHandle handler)).
  - by apply (Hexec (CWatch s u)).
  - by apply (Hexec (CUnwatch s u)).
  - destruct (Broadcast_keyed_snapshot growcap b s env Hwf)
      as (b2 & env2 & tr2 & Heq & _ & _ & Hp & _).
    rewrite Hb in Heq. by injection Heq as <- _ _.
  - by apply (Hexec (CClean s)).
  - by apply (Hexec CCleanAll).
Qed.
End KeyedStore.

(** X6: no method of [UniqueBroadcast[K,T]] writes into a backing array of
    a listener slice that existed before the call: across [Watch],
    [Unwatch], [Broadcast] (handlers calling back included), [Clean] and
    [CleanAll] the store of listener arrays only gains arrays, so a
    listener slice header read from the registry before the call reads the
    same elements after it.  This is about the listener slices only: the
    handlers slice, to which [Handle] appends in place when it has spare
    capacity, is not part of that store, and [Handle] leaves the listener
    arrays alone. *)
Theorem X6_keyed_listener_arrays_are_never_overwritten {K T U E : Type}
    `{EqDecision K} `{!Uniquer K T U} (growcap : nat → nat → nat)
    (b b' : registry U T E) :
  wf b → kstep growcap b b' →
  mem b `prefix_of` mem b' ∧
  ∀ s sl, (map_get (listeners b) s).1 = sl →
          contents (mem b') sl = contents (mem b) sl ∧
          slice_view (mem b') sl = view b s.
Proof.
  intros Hwf Hstep. pose proof (kstep_mem growcap b b' Hwf Hstep) as [ext Hext].
  split; [by exists ext |]. intros s sl Hsl.
  destruct (listeners_contents b s Hwf) as (items & Hc & _ & Hv).
  rewrite Hsl in Hc.
  assert (Hc' : contents (mem b') sl = contents (mem b) sl).
  { rewrite Hext, Hc. by apply contents_alloc. }
  split; [done |]. unfold view, slice_view. by rewrite Hsl, Hc'.
Qed.

Lemma X6_witness :
  ∃ b', UniqueBroadcast.Unwatch Examples.growcap Examples.users "s"
          (Examples.keyed 1 "a") = Some b' ∧
        mem Examples.users `prefix_of` mem b' ∧
        slice_view (mem b') (map_get (listeners Examples.users) "s").1
        = [Examples.keyed 1 "a"; Examples.keyed 2 "b"].
Proof.
  destruct (UniqueBroadcast.Unwatch Examples.growcap Examples.users "s"
              (Examples.keyed 1 "a")) as [b'|] eqn:Hu; [| by vm_compute in Hu].
  exists b'. split; [done |].
  destruct (X6_keyed_listener_arrays_are_never_overwritten Examples.growcap Examples.users b'
              wf_users (kstep_Unwatch _ _ _ _ _ Hu)) as [Hp Hsl].
  split; [done |]. destruct (Hsl "s" _ eq_refl) as [_ ->]. by vm_compute.
Defined.

(** ** X7 *)

(** X7: in every state either registry can reach, every slice stored in
    the listener mapping is non-nil, starts at the beginning of an
    allocated backing array, fits its capacity and holds no zero value,
    and no two signals share a backing array; [WatchCount] is then the
    number of listeners held. *)
Theorem X7_reachable_states_are_well_formed :
  (∀ (T E : Type) `(EqDecision T) growcap (b : registry T T E),
      dreachable growcap b → wf b ∧ ∀ s, WatchCount b s = length (view b s)) ∧
  (∀ (K T U E : Type) `(EqDecision K) `(!Uniquer K T U) growcap (b : registry U T E),
      kreachable growcap b → wf b ∧ ∀ s, WatchCount b s = length (view b s)).
Proof.
  split.
  - intros T E ? growcap b Hreach.
    destruct (dreachable_inv growcap b Hreach) as [Hwf _].
    split; [done |]. intros s. by apply WatchCount_view.
  - intros K T U E ? ? growcap b Hreach.
    destruct (kreachable_inv growcap b Hreach) as [Hwf _].
    split; [done |]. intros s. by apply WatchCount_view.
Qed.

Lemma X7_witness : wf Examples.abc_unwatching ∧ wf Examples.users.
Proof.
  destruct X7_reachable_states_are_well_formed as [Hd Hk]. split.
  - apply (Hd _ _ _ Examples.growcap _ dreachable_abc_unwatching).
  - apply (Hk Z _ _ _ _ _ Examples.growcap _ kreachable_users).
Defined.

(** ** X8 *)

(** X8: signals are separate partitions.  In both registries a [Watch],
    [Unwatch] or [Clean] on a signal [t] does not change what a following
    [Broadcast] of another signal [s] delivers: the same payloads to the
    same handlers in the same order as without that call (in
    [Broadcast[T]], for handlers that do not call [Unwatch] back). *)
Theorem X8_signals_are_independent :
  (∀ (T E : Type) `(EqDecision T) growcap (b : registry T T E) s t p env c,
      wf b → Forall (tame no_unwatch) (handlers b) → t ≠ s →
      c = CWatch t p ∨ c = CUnwatch t p ∨ c = CClean t →
      ∃ b1 r1 r,
        Broadcast.exec growcap b c = Some b1 ∧
        Broadcast.Broadcast growcap b1 s env = Some r1 ∧
        Broadcast.Broadcast growcap b s env = Some r ∧
        inv_delivery <$> r1.2 = inv_delivery <$> r.2) ∧
  (∀ (K T U E : Type) `(EqDecision K) `(!Uniquer K T U) growcap
     (b : registry U T E) s t u env c,
      wf b → t ≠ s →
      c = CWatch t u ∨ c = CUnwatch t u ∨ c = CClean t →
      ∃ b1 r1 r,
        UniqueBroadcast.exec growcap b c = Some b1 ∧
        UniqueBroadcast.Broadcast growcap b1 s env = Some r1 ∧
        UniqueBroadcast.Broadcast growcap b s env = Some r ∧
        inv_delivery <$> r1.2 = inv_delivery <$> r.2).
Proof.
  split.
  - intros T E ? growcap b s t p env c Hwf Htame Hne Hc.
    assert (Hex : ∃ b1, Broadcast.exec growcap b c = Some b1 ∧ wf b1 ∧
                        handlers b1 = handlers b ∧ view b1 s = view b s).
    { destruct Hc as [->|[->| ->]]; simpl.
      - destruct (Watch_spec growcap b t p Hwf)
          as (b1 & Hw & Hwf1 & Hh & _ & _ & Hfr & _).
        exists b1. split_and!; [done | done | done |]. by destruct (Hfr s).
      - destruct (Unwatch_spec growcap b t p Hwf)
          as (b1 & Hw & Hwf1 & Hh & _ & Hfr & _).
        exists b1. split_and!; [done | done | done |]. by apply Hfr.
      - destruct (Clean_spec b t Hwf) as (Hwf1 & _ & _ & Hfr).
        eexists. split_and!; [done | done | done |]. by destruct (Hfr s). }
    destruct Hex as (b1 & Hex & Hwf1 & Hh & Hv).
    destruct (Broadcast_direct_snapshot growcap b1 s env Hwf1)
      as (b1' & env1 & tr1 & Hb1 & _ & Hd1); [by rewrite Hh |].
    destruct (Broadcast_direct_snapshot growcap b s env Hwf Htame)
      as (b' & env' & tr & Hb & _ & Hd).
    exists b1, (b1', env1, tr1), (b', env', tr).
    split_and!; [done | done | done |]. simpl. by rewrite Hd1, Hd, Hh, Hv.
  - intros K T U E ? ? growcap b s t u env c Hwf Hne Hc.
    assert (Hex : ∃ b1, UniqueBroadcast.exec growcap b c = Some b1 ∧ wf b1 ∧
                        handlers b1 = handlers b ∧ view b1 s = view b s).
    { destruct Hc as [->|[->| ->]]; simpl.
      - destruct (UWatch_spec b t u Hwf)
          as (b1 & Hw & Hwf1 & Hh & _ & _ & Hfr & _).
        exists b1. split_and!; [done | done | done |]. by destruct (Hfr s).
      - destruct (UUnwatch_spec growcap b t u Hwf)
          as (b1 & Hw & Hwf1 & Hh & _ & Hfr & _).
        exists b1. split_and!; [done | done | done |]. by apply Hfr.
      - destruct (Clean_spec b t Hwf) as (Hwf1 & _ & _ & Hfr).
        eexists. split_and!; [done | done | done |]. by destruct (Hfr s). }
    destruct Hex as (b1 & Hex & Hwf1 & Hh & Hv).
    destruct (Broadcast_keyed_snapshot growcap b1 s env Hwf1)
      as (b1' & env1 & tr1 & Hb1 & _ & _ & _ & Hd1).
    destruct (Broadcast_keyed_snapshot growcap b s env Hwf)
      as (b' & env' & tr & Hb & _ & _ & _ & Hd).
    exists b1, (b1', env1, tr1), (b', env', tr).
    split_and!; [done | done | done |]. simpl. by rewrite Hd1, Hd, Hh, Hv.
Qed.

Lemma X8_witness :
  (∃ b1 r1 r,
      Broadcast.Unwatch Examples.growcap Examples.abc_quiet "t" "d" = Some b1 ∧
      Broadcast.Broadcast Examples.growcap b1 "s" 0 = Some r1 ∧
      Broadcast.Broadcast Examples.growcap Examples.abc_quiet "s" 0 = Some r ∧
      inv_delivery <$> r1.2 = inv_delivery <$> r.2) ∧
  (∃ b1 r1 r,
      UniqueBroadcast.Watch Examples.users "t" (Examples.keyed 5 "e") = Some b1 ∧
      UniqueBroadcast.Broadcast Examples.growcap b1 "s" 0 = Some r1 ∧
      UniqueBroadcast.Broadcast Examples.growcap Examples.users "s" 0 = Some r ∧
      inv_delivery <$> r1.2 = inv_delivery <$> r.2).
Proof.
  destruct X8_signals_are_independent as [Hd Hk]. split.
  - apply (Hd _ _ _ Examples.growcap Examples.abc_quiet "s" "t" "d" 0
              (CUnwatch "t" "d") wf_abc_quiet).
    + repeat constructor.
    + discriminate.
    + right. by left.
  - apply (Hk Z _ _ _ _ _ Examples.growcap Examples.users "s" "t"
              (Examples.keyed 5 "e") 0 (CWatch "t" (Examples.keyed 5 "e")) wf_users).
    + discriminate.
    + by left.
Defined.

(** ** X9 *)

Lemma fan_out_snoc {T : Type} (H : nat) (payloads : list T) :
  fan_out (S H) payloads = fan_out H payloads ++ imap (λ j v, (H, j, v)) payloads.
Proof.
  unfold fan_out, fan_out_from. rewrite seq_S. simpl.
  rewrite flat_map_app. simpl. by rewrite app_nil_r.
Qed.

(** ** X10 *)

Section SameListeners.
Context {P T E : Type}.
Implicit Types (b : registry P T E).

Lemma same_listeners_counts b1 b2 s :
  wf b1 → wf b2 → same_listeners b1 b2 →
  WatchCount b1 s = WatchCount b2 s ∧ HasWatch b1 s = HasWatch b2 s.
Proof.
  intros Hwf1 Hwf2 [_ Hsame].
  assert (Hc : WatchCount b1 s = WatchCount b2 s).
  { rewrite !WatchCount_view by done. by destruct (Hsame s) as [-> _]. }
  split; [done |]. by rewrite !HasWatch_decide, Hc.
Qed.

Lemma same_listeners_zero_New : same_listeners (@zero P T E) (@New P T E).
Proof.
  split; [done |]. intros s. unfold view, present, map_get. simpl.
  by rewrite lookup_empty.
Qed.
End SameListeners.

Section DirectSame.
Context {T E : Type} `{EqDecision T}.
Variables g1 g2 : nat → nat → nat.
Implicit Types (b : registry T T E).

Lemma direct_exec_same b1 b2 c :
  wf b1 → wf b2 → same_listeners b1 b2 →
  ∃ b1' b2', Broadcast.exec g1 b1 c = Some b1' ∧ Broadcast.exec g2 b2 c = Some b2' ∧
             wf b1' ∧ wf b2' ∧ same_listeners b1' b2'.
Proof.
  intros Hwf1 Hwf2 [Hh Hsame]. destruct c as [s p|s p|s| |handler]; simpl.
  - destruct (Watch_spec g1 b1 s p Hwf1) as (b1' & -> & Hwf1' & Hh1 & Hp1 & Hv1 & Hfr1 & _).
    destruct (Watch_spec g2 b2 s p Hwf2) as (b2' & -> & Hwf2' & Hh2 & Hp2 & Hv2 & Hfr2 & _).
    exists b1', b2'. split_and!; [done | done | done | done |].
    split; [congruence |]. intros s'. destruct (decide (s' = s)) as [->|Hne].
    + rewrite Hv1, Hv2, Hp1, Hp2. by destruct (Hsame s) as [-> _].
    + destruct (Hfr1 s' Hne) as [-> ->], (Hfr2 s' Hne) as [-> ->]. apply Hsame.
  - destruct (Unwatch_spec g1 b1 s p Hwf1)
      as (b1' & -> & Hwf1' & Hh1 & Hp1 & Hfr1 & Hc1 & _).
    destruct (Unwatch_spec g2 b2 s p Hwf2)
      as (b2' & -> & Hwf2' & Hh2 & Hp2 & Hfr2 & Hc2 & _).
    exists b1', b2'. split_and!; [done | done | done | done |].
    split; [congruence |]. intros s'. rewrite Hp1, Hp2.
    split; [| apply Hsame]. destruct (decide (s' = s)) as [->|Hne].
    + destruct (Hsame s) as [Hv _].
      destruct Hc1 as [[Hn1 ->]|(l1 & l2 & Hv1 & Hn1 & ->)],
               Hc2 as [[Hn2 ->]|(k1 & k2 & Hv2 & Hn2 & ->)].
      * done.
      * exfalso. apply Hn1. rewrite Hv, Hv2. apply elem_of_app. right. left.
      * exfalso. apply Hn2. rewrite <- Hv, Hv1. apply elem_of_app. right. left.
      * rewrite Hv1, Hv2 in Hv.
        destruct (first_match_unique id p l1 p l2 k1 p k2 Hv) as (-> & _ & ->);
          [done | done | by rewrite list_fmap_id..|]. done.
    + rewrite (Hfr1 s' Hne), (Hfr2 s' Hne). apply Hsame.
  - destruct (Clean_spec b1 s Hwf1) as (Hwf1' & Hv1 & Hp1 & Hfr1).
    destruct (Clean_spec b2 s Hwf2) as (Hwf2' & Hv2 & Hp2 & Hfr2).
    eexists _, _. split_and!; [done | done | done | done |].
    split; [done |]. intros s'. destruct (decide (s' = s)) as [->|Hne].
    + by rewrite Hv1, Hv2, Hp1, Hp2.
    + destruct (Hfr1 s' Hne) as [-> ->], (Hfr2 s' Hne) as [-> ->]. apply Hsame.
  - destruct (CleanAll_spec b1) as (Hwf1' & Hv1).
    destruct (CleanAll_spec b2) as (Hwf2' & Hv2).
    eexists _, _. split_and!; [done | done | done | done |].
    split; [done |]. intros s'.
    by destruct (Hv1 s') as [-> ->], (Hv2 s') as [-> ->].
  - eexists _, _. split_and!; [done | done | by apply Handle_spec.. |].
    split; [simpl; by rewrite Hh | apply Hsame].
Qed.

Lemma direct_run_calls_same b1 b2 cs :
  wf b1 → wf b2 → same_listeners b1 b2 →
  ∃ b1' b2', run_calls (Broadcast.exec g1) b1 cs = Some b1' ∧
             run_calls (Broadcast.exec g2) b2 cs = Some b2' ∧
             wf b1' ∧ wf b2' ∧ same_listeners b1' b2'.
Proof.
  revert b1 b2. induction cs as [|c cs IH]; intros b1 b2 Hwf1 Hwf2 Hsame; simpl.
  - by exists b1, b2.
  - destruct (direct_exec_same b1 b2 c Hwf1 Hwf2 Hsame)
      as (b1' & b2' & -> & -> & Hwf1' & Hwf2' & Hsame').
    simpl. by apply IH.
Qed.
End DirectSame.

Section KeyedSame.
Context {K T U E : Type} `{EqDecision K} `{!Uniquer K T U}.
Variables g1 g2 : nat → nat → nat.
Implicit Types (b : registry U T E).

Lemma keyed_exec_same b1 b2 c :
  wf b1 → wf b2 → same_listeners b1 b2 →
  ∃ b1' b2', UniqueBroadcast.exec g1 b1 c = Some b1' ∧
             UniqueBroadcast.exec g2 b2 c = Some b2' ∧
             wf b1' ∧ wf b2' ∧ same_listeners b1' b2'.
Proof.
  intros Hwf1 Hwf2 [Hh Hsame]. destruct c as [s u|s u|s| |handler]; simpl.
  - destruct (UWatch_spec b1 s u Hwf1) as (b1' & -> & Hwf1' & Hh1 & Hp1 & Hv1 & Hfr1 & _).
    destruct (UWatch_spec b2 s u Hwf2) as (b2' & -> & Hwf2' & Hh2 & Hp2 & Hv2 & Hfr2 & _).
    exists b1', b2'. split_and!; [done | done | done | done |].
    split; [congruence |]. intros s'. destruct (decide (s' = s)) as [->|Hne].
    + rewrite Hv1, Hv2, Hp1, Hp2. by destruct (Hsame s) as [-> _].
    + destruct (Hfr1 s' Hne) as [-> ->], (Hfr2 s' Hne) as [-> ->]. apply Hsame.
  - destruct (UUnwatch_spec g1 b1 s u Hwf1)
      as (b1' & -> & Hwf1' & Hh1 & Hp1 & Hfr1 & Hc1 & _).
    destruct (UUnwatch_spec g2 b2 s u Hwf2)
      as (b2' & -> & Hwf2' & Hh2 & Hp2 & Hfr2 & Hc2 & _).
    exists b1', b2'. split_and!; [done | done | done | done |].
    split; [congruence |]. intros s'. rewrite Hp1, Hp2.
    split; [| apply Hsame]. destruct (decide (s' = s)) as [->|Hne].
    + destruct (Hsame s) as [Hv _].
      destruct Hc1 as [[Hn1 ->]|(l1 & x & l2 & Hv1 & Hx & Hn1 & ->)],
               Hc2 as [[Hn2 ->]|(k1 & y & k2 & Hv2 & Hy & Hn2 & ->)].
      * done.
      * exfalso. apply Hn1. rewrite Hv, Hv2, fmap_app, fmap_cons, Hy.
        apply elem_of_app. right. left.
      * exfalso. apply Hn2. rewrite <- Hv, Hv1, fmap_app, fmap_cons, Hx.
        apply elem_of_app. right. left.
      * rewrite Hv1, Hv2 in Hv.
        by destruct (first_match_unique Unique (Unique u) l1 x l2 k1 y k2 Hv)
          as (-> & _ & ->).
    + rewrite (Hfr1 s' Hne), (Hfr2 s' Hne). apply Hsame.
  - destruct (Clean_spec b1 s Hwf1) as (Hwf1' & Hv1 & Hp1 & Hfr1).
    destruct (Clean_spec b2 s Hwf2) as (Hwf2' & Hv2 & Hp2 & Hfr2).
    eexists _, _. split_and!; [done | done | done | done |].
    split; [done |]. intros s'. destruct (decide (s' = s)) as [->|Hne].
    + by rewrite Hv1, Hv2, Hp1, Hp2.
    + destruct (Hfr1 s' Hne) as [-> ->], (Hfr2 s' Hne) as [-> ->]. apply Hsame.
  - destruct (CleanAll_spec b1) as (Hwf1' & Hv1).
    destruct (CleanAll_spec b2) as (Hwf2' & Hv2).
    eexists _, _. split_and!; [done | done | done | done |].
    split; [done |]. intros s'.
    by destruct (Hv1 s') as [-> ->], (Hv2 s') as [-> ->].
  - eexists _, _. split_and!; [done | done | by apply Handle_spec.. |].
    split; [simpl; by rewrite Hh | apply Hsame].
Qed.

Lemma keyed_run_calls_same b1 b2 cs :
  wf b1 → wf b2 → same_listeners b1 b2 →
  ∃ b1' b2', run_calls (UniqueBroadcast.exec g1) b1 cs = Some b1' ∧
             run_calls (UniqueBroadcast.exec g2) b2 cs = Some b2' ∧
             wf b1' ∧ wf b2' ∧ same_listeners b1' b2'.
Proof.
  revert b1 b2. induction cs as [|c cs IH]; intros b1 b2 Hwf1 Hwf2 Hsame; simpl.
  - by exists b1, b2.
  - destruct (keyed_exec_same b1 b2 c Hwf1 Hwf2 Hsame)
      as (b1' & b2' & -> & -> & Hwf1' & Hwf2' & Hsame').
    simpl. by apply IH.
Qed.
End KeyedSame.

(** X10: what a registry answers does not depend on how the runtime grows
    slices, nor on whether it started as the zero value or from the
    constructor.  In both registries, two well-formed states with the same
    handlers and, signal by signal, the same listeners and presence stay so
    under any sequence of [Handle], [Watch], [Unwatch], [Clean] and
    [CleanAll] calls, each run with its own growth policy; afterwards
    [WatchCount] and [HasWatch] agree on every signal and [Broadcast]
    delivers the same payloads in the same order (in [Broadcast[T]], for
    handlers that do not call [Unwatch] back).  The zero value and the
    constructor's result are two such states. *)
Theorem X10_growth_and_nil_map_do_not_show :
  (∀ (T E : Type) `(EqDecision T) g1 g2 (b1 b2 : registry T T E) cs,
      wf b1 → wf b2 → same_listeners b1 b2 →
      ∃ b1' b2',
        run_calls (Broadcast.exec g1) b1 cs = Some b1' ∧
        run_calls (Broadcast.exec g2) b2 cs = Some b2' ∧
        same_listeners b1' b2' ∧
        (∀ s, WatchCount b1' s = WatchCount b2' s ∧ HasWatch b1' s = HasWatch b2' s) ∧
        (Forall (tame no_unwatch) (handlers b1') →
         ∀ s env, ∃ r1 r2,
           Broadcast.Broadcast g1 b1' s env = Some r1 ∧
           Broadcast.Broadcast g2 b2' s env = Some r2 ∧
           inv_delivery <$> r1.2 = inv_delivery <$> r2.2)) ∧
  (∀ (K T U E : Type) `(EqDecision K) `(!Uniquer K T U) g1 g2
     (b1 b2 : registry U T E) cs,
      wf b1 → wf b2 → same_listeners b1 b2 →
      ∃ b1' b2',
        run_calls (UniqueBroadcast.exec g1) b1 cs = Some b1' ∧
        run_calls (UniqueBroadcast.exec g2) b2 cs = Some b2' ∧
        same_listeners b1' b2' ∧
        (∀ s, WatchCount b1' s = WatchCount b2' s ∧ HasWatch b1' s = HasWatch b2' s) ∧
        (∀ s env, ∃ r1 r2,
           UniqueBroadcast.Broadcast g1 b1' s env = Some r1 ∧
           UniqueBroadcast.Broadcast g2 b2' s env = Some r2 ∧
           inv_delivery <$> r1.2 = inv_delivery <$> r2.2)) ∧
  (∀ (P T E : Type), wf (@zero P T E) ∧ wf (@New P T E) ∧
                     same_listeners (@zero P T E) (@New P T E)).
Proof.
  split_and!.
  - intros T E ? g1 g2 b1 b2 cs Hwf1 Hwf2 Hsame.
    destruct (direct_run_calls_same g1 g2 b1 b2 cs Hwf1 Hwf2 Hsame)
      as (b1' & b2' & H1 & H2 & Hwf1' & Hwf2' & Hsame').
    exists b1', b2'. split_and!; [done | done | done | |].
    + intros s. by apply same_listeners_counts.
    + intros Htame s env. destruct Hsame' as [Hh Hv].
      destruct (Broadcast_direct_snapshot g1 b1' s env Hwf1' Htame)
        as (c1 & e1 & tr1 & Hb1 & _ & Hd1).
      destruct (Broadcast_direct_snapshot g2 b2' s env Hwf2')
        as (c2 & e2 & tr2 & Hb2 & _ & Hd2); [by rewrite <- Hh |].
      exists (c1, e1, tr1), (c2, e2, tr2). split_and!; [done | done |]. simpl.
      rewrite Hd1, Hd2, Hh. by destruct (Hv s) as [-> _].
  - intros K T U E ? ? g1 g2 b1 b2 cs Hwf1 Hwf2 Hsame.
    destruct (keyed_run_calls_same g1 g2 b1 b2 cs Hwf1 Hwf2 Hsame)
      as (b1' & b2' & H1 & H2 & Hwf1' & Hwf2' & Hsame').
    exists b1', b2'. split_and!; [done | done | done | |].
    + intros s. by apply same_listeners_counts.
    + intros s env. destruct Hsame' as [Hh Hv].
      destruct (Broadcast_keyed_snapshot g1 b1' s env Hwf1')
        as (c1 & e1 & tr1 & Hb1 & _ & _ & _ & Hd1).
      destruct (Broadcast_keyed_snapshot g2 b2' s env Hwf2')
        as (c2 & e2 & tr2 & Hb2 & _ & _ & _ & Hd2).
      exists (c1, e1, tr1), (c2, e2, tr2). split_and!; [done | done |]. simpl.
      rewrite Hd1, Hd2, Hh. by destruct (Hv s) as [-> _].
  - intros P T E. split_and!; [apply wf_zero | apply wf_New |].
    apply same_listeners_zero_New.
Qed.

Lemma X10_witness :
  (∃ b1' b2',
      run_calls (Broadcast.exec (λ c n, 2 * c)) (@zero string string nat)
        [CWatch "s" "a"; CWatch "s" "b"; CUnwatch "s" "a"; CWatch "s" "c"] = Some b1' ∧
      run_calls (Broadcast.exec (λ c n, n + 2)) (@New string string nat)
        [CWatch "s" "a"; CWatch "s" "b"; CUnwatch "s" "a"; CWatch "s" "c"] = Some b2' ∧
      view b1' "s" = view b2' "s" ∧ mem b1' ≠ mem b2') ∧
  (∃ b1' b2',
      run_calls (UniqueBroadcast.exec Examples.growcap)
        (@zero Examples.TestUniquer Examples.TestUniqueData nat)
        [CWatch "s" (Examples.keyed 1 "a"); CClean "s"] = Some b1' ∧
      run_calls (UniqueBroadcast.exec Examples.growcap)
        (@New Examples.TestUniquer Examples.TestUniqueData nat)
        [CWatch "s" (Examples.keyed 1 "a"); CClean "s"] = Some b2' ∧
      WatchCount b1' "s" = WatchCount b2' "s").
Proof.
  destruct X10_growth_and_nil_map_do_not_show as (Hd & Hk & H0). split.
  - destruct (H0 string string nat) as (Hz & HN & Hsame).
    destruct (Hd _ _ _ (λ c n, 2 * c) (λ c n, n + 2) zero New
                [CWatch "s" "a"; CWatch "s" "b"; CUnwatch "s" "a"; CWatch "s" "c"]
                Hz HN Hsame)
      as (b1' & b2' & H1 & H2 & [_ Hv] & _).
    exists b1', b2'. split_and!; [done | done | apply Hv |].
    vm_compute in H1, H2. injection H1 as <-. injection H2 as <-.
    vm_compute. intros Hmem. discriminate Hmem.
  - destruct (H0 Examples.TestUniquer Examples.TestUniqueData nat) as (Hz & HN & Hsame).
    destruct (Hk Z _ _ _ _ _ Examples.growcap Examples.growcap zero New
                [CWatch "s" (Examples.keyed 1 "a"); CClean "s"] Hz HN Hsame)
      as (b1' & b2' & H1 & H2 & _ & Hc & _).
    exists b1', b2'. split_and!; [done | done | apply Hc].
Defined.

(** ** X11 *)

Section Wrapped.
Context {T E E' : Type} `{EqDecision T}.
Variables g g' : nat → nat → nat.
Implicit Types (db : registry T T E) (kb : registry (uniqueWrapper.t T) T E').

Lemma Unique_Build (l : list T) :
  Unique <$> (uniqueWrapper.Build <$> l) = l.
Proof. induction l as [|x l IH]; [done |]. rewrite !fmap_cons, IH. done. Qed.

Lemma Value_Build (l : list T) :
  Value <$> (uniqueWrapper.Build <$> l) = l.
Proof. induction l as [|x l IH]; [done |]. rewrite !fmap_cons, IH. done. Qed.

Lemma wrapped_Watch db kb s p :
  wf db → wf kb → wrapped db kb →
  ∃ db' kb', Broadcast.Watch g db s p = Some db' ∧
             UniqueBroadcast.Watch kb s (uniqueWrapper.Build p) = Some kb' ∧
             wf db' ∧ wf kb' ∧ wrapped db' kb'.
Proof.
  intros Hwd Hwk Hw.
  destruct (Watch_spec g db s p Hwd) as (db' & -> & Hwd' & _ & Hp1 & Hv1 & Hfr1 & _).
  destruct (UWatch_spec kb s (uniqueWrapper.Build p) Hwk)
    as (kb' & -> & Hwk' & _ & Hp2 & Hv2 & Hfr2 & _).
  exists db', kb'. split_and!; [done | done | done | done |].
  intros s'. destruct (decide (s' = s)) as [->|Hne].
  - rewrite Hp1, Hp2. split; [| done]. rewrite Hv1, Hv2.
    destruct (Hw s) as [-> _]. rewrite Unique_Build. simpl.
    change (uniqueWrapper.Unique (uniqueWrapper.Build p)) with p.
    destruct (decide (p ∈ view db s)); [done |].
    by rewrite fmap_app.
  - destruct (Hfr1 s' Hne) as [-> ->], (Hfr2 s' Hne) as [-> ->]. apply Hw.
Qed.

Lemma wrapped_Unwatch db kb s p :
  wf db → wf kb → wrapped db kb →
  ∃ db' kb', Broadcast.Unwatch g db s p = Some db' ∧
             UniqueBroadcast.Unwatch g' kb s (uniqueWrapper.Build p) = Some kb' ∧
             wf db' ∧ wf kb' ∧ wrapped db' kb'.
Proof.
  intros Hwd Hwk Hw.
  destruct (Unwatch_spec g db s p Hwd) as (db' & -> & Hwd' & _ & Hp1 & Hfr1 & Hc1 & _).
  destruct (UUnwatch_spec g' kb s (uniqueWrapper.Build p) Hwk)
    as (kb' & -> & Hwk' & _ & Hp2 & Hfr2 & Hc2 & _).
  exists db', kb'. split_and!; [done | done | done | done |].
  intros s'. rewrite Hp1, Hp2. split; [| apply Hw].
  destruct (decide (s' = s)) as [->|Hne].
  - destruct (Hw s) as [Hv _]. rewrite Hv, Unique_Build in Hc2.
    change (Unique (uniqueWrapper.Build p)) with p in Hc2.
    destruct Hc1 as [[Hn1 ->]|(l1 & l2 & Hv1 & Hn1 & ->)],
             Hc2 as [[Hn2 ->]|(k1 & y & k2 & Hv2 & Hy & Hn2 & ->)].
    + done.
    + exfalso. apply Hn1.
      assert (Hin : Unique y ∈ Unique <$> (uniqueWrapper.Build <$> view db s)).
      { rewrite Hv2, fmap_app, fmap_cons. apply elem_of_app. right. left. }
      by rewrite Unique_Build, Hy in Hin.
    + exfalso. apply Hn2. rewrite Hv1. apply elem_of_app. right. left.
    + rewrite Hv1, fmap_app, fmap_cons in Hv2.
      destruct (first_match_unique Unique p (uniqueWrapper.Build <$> l1)
                  (uniqueWrapper.Build p) (uniqueWrapper.Build <$> l2) k1 y k2 Hv2)
        as (<- & _ & <-); [done | done | by rewrite Unique_Build | done |].
      by rewrite fmap_app.
  - rewrite (Hfr1 s' Hne), (Hfr2 s' Hne). apply Hw.
Qed.

Lemma wrapped_Clean db kb s :
  wf db → wf kb → wrapped db kb → wrapped (Clean db s) (Clean kb s).
Proof.
  intros Hwd Hwk Hw s'.
  destruct (Clean_spec db s Hwd) as (_ & Hv1 & Hp1 & Hfr1).
  destruct (Clean_spec kb s Hwk) as (_ & Hv2 & Hp2 & Hfr2).
  destruct (decide (s' = s)) as [->|Hne].
  - by rewrite Hv1, Hv2, Hp1, Hp2.
  - destruct (Hfr1 s' Hne) as [-> ->], (Hfr2 s' Hne) as [-> ->]. apply Hw.
Qed.

Lemma wrapped_CleanAll db kb : wrapped (CleanAll db) (CleanAll kb).
Proof.
  intros s. destruct (CleanAll_spec db) as (_ & Hv1), (CleanAll_spec kb) as (_ & Hv2).
  by destruct (Hv1 s) as [-> ->], (Hv2 s) as [-> ->].
Qed.
End Wrapped.

(** X11: [uniqueWrapper[T]] turns the keyed registry into the direct one.
    Its key and its value are both the wrapped datum, so a
    [UniqueBroadcast] over wrappers that holds, signal by signal, the
    wrapped listeners of a [Broadcast[T]] keeps doing so when both run the
    same [Watch], [Unwatch], [Clean] or [CleanAll] (the keyed one on the
    wrapped datum); the two then give the same [WatchCount] and
    [HasWatch], and with as many handlers on both sides [Broadcast]
    delivers the same payloads in the same order (in [Broadcast[T]], for
    handlers that do not call [Unwatch] back).  Two fresh registries are
    so related. *)
Theorem X11_uniqueWrapper_gives_the_direct_registry :
  ∀ (T E E' : Type) `(EqDecision T) (g g' : nat → nat → nat)
    (db : registry T T E) (kb : registry (uniqueWrapper.t T) T E'),
    wrapped (@New T T E) (@New (uniqueWrapper.t T) T E') ∧
    (wf db → wf kb → wrapped db kb →
     (∀ s p, ∃ db' kb',
         Broadcast.Watch g db s p = Some db' ∧
         UniqueBroadcast.Watch kb s (uniqueWrapper.Build p) = Some kb' ∧
         wf db' ∧ wf kb' ∧ wrapped db' kb') ∧
     (∀ s p, ∃ db' kb',
         Broadcast.Unwatch g db s p = Some db' ∧
         UniqueBroadcast.Unwatch g' kb s (uniqueWrapper.Build p) = Some kb' ∧
         wf db' ∧ wf kb' ∧ wrapped db' kb') ∧
     (∀ s, wrapped (Clean db s) (Clean kb s)) ∧
     wrapped (CleanAll db) (CleanAll kb) ∧
     (∀ s, Value <$> view kb s = view db s ∧
           WatchCount kb s = WatchCount db s ∧ HasWatch kb s = HasWatch db s) ∧
     (length (handlers kb) = length (handlers db) →
      Forall (tame no_unwatch) (handlers db) →
      ∀ s env env', ∃ r1 r2,
        Broadcast.Broadcast g db s env = Some r1 ∧
        UniqueBroadcast.Broadcast g' kb s env' = Some r2 ∧
        inv_delivery <$> r2.2 = inv_delivery <$> r1.2)).
Proof.
  intros T E E' ? g g' db kb. split.
  { intros s. unfold view, present, map_get. simpl. by rewrite !lookup_empty. }
  intros Hwd Hwk Hw. split_and!.
  - intros s p. by apply wrapped_Watch.
  - intros s p. by apply wrapped_Unwatch.
  - intros s. by apply wrapped_Clean.
  - apply wrapped_CleanAll.
  - intros s. destruct (Hw s) as [Hv Hp].
    assert (Hc : WatchCount kb s = WatchCount db s).
    { rewrite !WatchCount_view by done. by rewrite Hv, length_fmap. }
    split_and!; [by rewrite Hv, Value_Build | done |].
    by rewrite !HasWatch_decide, Hc.
  - intros Hlen Htame s env env'.
    destruct (Broadcast_direct_snapshot g db s env Hwd Htame)
      as (c1 & e1 & tr1 & Hb1 & _ & Hd1).
    destruct (Broadcast_keyed_snapshot g' kb s env' Hwk)
      as (c2 & e2 & tr2 & Hb2 & _ & _ & _ & Hd2).
    exists (c1, e1, tr1), (c2, e2, tr2). split_and!; [done | done |]. simpl.
    rewrite Hd1, Hd2, Hlen. destruct (Hw s) as [-> _]. by rewrite Value_Build.
Qed.

Lemma X11_witness :
  ∃ (db1 : registry string string nat) (kb1 : registry (uniqueWrapper.t string) string nat)
    db2 kb2,
    Broadcast.Watch Examples.growcap New "s" "a" = Some db1 ∧
    UniqueBroadcast.Watch New "s" (uniqueWrapper.Build "a") = Some kb1 ∧
    Broadcast.Unwatch Examples.growcap db1 "s" "a" = Some db2 ∧
    UniqueBroadcast.Unwatch Examples.growcap kb1 "s" (uniqueWrapper.Build "a") = Some kb2 ∧
    wrapped db2 kb2.
Proof.
  destruct (X11_uniqueWrapper_gives_the_direct_registry string nat nat _
              Examples.growcap Examples.growcap New New) as [H0 H].
  destruct (H wf_New wf_New H0) as (Hw & _).
  destruct (Hw "s" "a") as (db1 & kb1 & H1 & H2 & Hwd & Hwk & Hwr).
  destruct (X11_uniqueWrapper_gives_the_direct_registry string nat nat _
              Examples.growcap Examples.growcap db1 kb1) as [_ H'].
  destruct (H' Hwd Hwk Hwr) as (_ & Hu & _).
  destruct (Hu "s" "a") as (db2 & kb2 & H3 & H4 & _ & _ & Hwr2).
  by exists db1, kb1, db2, kb2.
Defined.

(** ** Runs of the dispatch loops *)

Section Runs.
Context {P T E : Type}.
Variable exec : registry P T E → call P T E → option (registry P T E).
Variable value : option P → option T.
Implicit Types (hs : list (Handler P T E)) (tr : list (invocation T)).

Lemma run_of_app hs s env tr1 env1 tr2 env2 :
  run_of hs s env tr1 env1 → run_of hs s env1 tr2 env2 →
  run_of hs s env (tr1 ++ tr2) env2.
Proof.
  revert env. induction tr1 as [|iv tr1 IH]; intros env; simpl.
  - by intros ->.
  - intros (h & Hh & He & Hr) H2. exists h. split_and!; [done | done |].
    by apply IH.
Qed.

Lemma run_of_pass hs s hi handler env tr env' :
  hs !! hi = Some handler → Forall (λ iv, inv_handler iv = hi) tr →
  run_of hs s env tr env' → env' = pass handler s (inv_payload <$> tr) env.
Proof.
  intros Hh Hall. revert env.
  induction Hall as [|iv tr Hi _ IH]; intros env; simpl; [done |].
  intros (h & Hh' & _ & Hr). simpl in Hi. rewrite Hi in Hh'.
  pose proof (eq_trans (eq_sym Hh) Hh') as Heq. injection Heq as <-. by apply IH.
Qed.

Lemma index_of_handler_slot hi js tr :
  Forall (λ iv, inv_handler iv = hi) tr → inv_slot <$> tr = js →
  inv_index <$> tr = (λ j, (hi, j)) <$> js.
Proof.
  intros Hall. revert js.
  induction Hall as [|iv tr Hi _ IH]; intros [|j js] Hs; try done.
  csimpl in *. injection Hs as Hj Hs. unfold inv_index at 1. rewrite Hi, Hj.
  f_equal. by apply IH.
Qed.

Lemma range_listeners_run hs hi handler s ls js b env tr r :
  hs !! hi = Some handler →
  range_listeners exec value hi handler s ls js (b, env, tr) = Some r →
  ∃ tr', r.2 = tr ++ tr' ∧ run_of hs s env tr' r.1.2 ∧
         Forall (λ iv, inv_handler iv = hi) tr' ∧ inv_slot <$> tr' = js.
Proof.
  intros Hh. revert b env tr. induction js as [|j js IH]; intros b env tr; simpl.
  - intros [= <-]. exists []. by rewrite app_nil_r.
  - destruct (sread (mem b) ls j) as [data|]; [| done]. simpl.
    destruct (value data) as [v|]; [| done]. simpl.
    destruct (handler s v env) as [[env1 calls] err] eqn:Hc.
    destruct (run_calls exec b calls) as [b1|]; [| done]. simpl.
    intros Hr. destruct (IH _ _ _ Hr) as (tr' & -> & Hrun & Hall & Hslots).
    exists (Invocation hi j v err :: tr'). split_and!.
    + by rewrite <- app_assoc.
    + simpl. exists handler. by rewrite Hc.
    + by constructor.
    + csimpl. by rewrite Hslots.
Qed.

Lemma range_handlers_run pre hs s ls b env tr r :
  range_handlers exec value hs (length pre) s ls (b, env, tr) = Some r →
  ∃ tr', r.2 = tr ++ tr' ∧ run_of (pre ++ hs) s env tr' r.1.2.
Proof.
  revert pre b env tr. induction hs as [|h hs IH]; intros pre b env tr; simpl.
  - intros [= <-]. exists []. by rewrite app_nil_r.
  - destruct (range_listeners exec value (length pre) h s ls (seq 0 (slen ls))
                (b, env, tr)) as [[[b1 env1] tr1]|] eqn:H1; [| done].
    simpl. intros Hr.
    destruct (range_listeners_run (pre ++ h :: hs) _ _ _ _ _ _ _ _ _
                (list_lookup_middle _ _ _ _ eq_refl) H1)
      as (tr1' & Htr1 & Hrun1 & _). simpl in Htr1, Hrun1. subst tr1.
    specialize (IH (pre ++ [h]) b1 env1 (tr ++ tr1')).
    rewrite length_app, Nat.add_1_r, <- app_assoc in IH.
    destruct (IH Hr) as (tr2 & -> & Hrun2).
    exists (tr1' ++ tr2). split; [by rewrite app_assoc |].
    by apply (run_of_app _ _ _ _ env1).
Qed.

Lemma range_handlers_app hs1 hs2 hi s ls st :
  range_handlers exec value (hs1 ++ hs2) hi s ls st
  = range_handlers exec value hs1 hi s ls st
    ≫= range_handlers exec value hs2 (hi + length hs1) s ls.
Proof.
  revert hi st. induction hs1 as [|h hs1 IH]; intros hi st; simpl.
  - by rewrite Nat.add_0_r.
  - destruct (range_listeners exec value hi h s ls (seq 0 (slen ls)) st) as [st1|];
      [| done].
    simpl. rewrite IH. by replace (S hi + length hs1) with (hi + S (length hs1)) by lia.
Qed.

(** Registered handlers play no part in what the methods do to the
    listeners: the loops go the same way from two states that differ in
    their handlers only. *)
Hypothesis exec_same : ∀ b1 b2 c,
  same_store b1 b2 → option_Forall2 same_store (exec b1 c) (exec b2 c).

Lemma run_calls_same b1 b2 cs :
  same_store b1 b2 →
  option_Forall2 same_store (run_calls exec b1 cs) (run_calls exec b2 cs).
Proof.
  revert b1 b2. induction cs as [|c cs IH]; intros b1 b2 Hs; simpl.
  - by constructor.
  - destruct (exec_same b1 b2 c Hs) as [b1' b2' Hs'|]; simpl; [by apply IH |].
    constructor.
Qed.

Lemma range_listeners_same hi handler s ls js b1 b2 env tr :
  same_store b1 b2 →
  option_Forall2 same_outcome
    (range_listeners exec value hi handler s ls js (b1, env, tr))
    (range_listeners exec value hi handler s ls js (b2, env, tr)).
Proof.
  revert b1 b2 env tr. induction js as [|j js IH]; intros b1 b2 env tr Hs; simpl.
  - by constructor.
  - destruct Hs as [Hm Hl]. rewrite <- Hm.
    destruct (sread (mem b1) ls j) as [data|]; [| constructor]. simpl.
    destruct (value data) as [v|]; [| constructor]. simpl.
    destruct (handler s v env) as [[env1 calls] err].
    destruct (run_calls_same b1 b2 calls (conj Hm Hl)) as [b1' b2' Hs'|]; simpl;
      [by apply IH | constructor].
Qed.

Lemma range_handlers_same hs hi s ls b1 b2 env tr :
  same_store b1 b2 →
  option_Forall2 same_outcome
    (range_handlers exec value hs hi s ls (b1, env, tr))
    (range_handlers exec value hs hi s ls (b2, env, tr)).
Proof.
  revert hi b1 b2 env tr. induction hs as [|h hs IH]; intros hi b1 b2 env tr Hs; simpl.
  - by constructor.
  - destruct (range_listeners_same hi h s ls (seq 0 (slen ls)) b1 b2 env tr Hs)
      as [[[c1 e1] t1] [[c2 e2] t2] (Hs' & He & Ht)|]; simpl; [| constructor].
    simpl in *. subst. by apply IH.
Qed.
Lemma range_handlers_snoc hs h s ls b1 b2 env b0 env0 tr0 r :
  same_store b1 b2 →
  range_handlers exec value hs 0 s ls (b2, env, []) = Some (b0, env0, tr0) →
  range_handlers exec value (hs ++ [h]) 0 s ls (b1, env, []) = Some r →
  ∃ tr1, r.2 = tr0 ++ tr1 ∧
         inv_index <$> tr1 = (λ j, (length hs, j)) <$> seq 0 (slen ls) ∧
         r.1.2 = pass h s (inv_payload <$> tr1) env0.
Proof.
  intros Hs H0 H1. rewrite range_handlers_app in H1.
  destruct (range_handlers_same hs 0 s ls b1 b2 env [] Hs)
    as [[[c1 e1] t1] [[c2 e2] t2] (_ & He & Ht)|]; [| done].
  injection H0 as -> -> ->. simpl in He, Ht, H1. subst e1 t1.
  destruct (range_listeners exec value (length hs) h s ls (seq 0 (slen ls))
              (c1, env0, tr0)) as [r1|] eqn:Hl; [| done].
  simpl in H1. injection H1 as ->.
  destruct (range_listeners_run (hs ++ [h]) _ _ _ _ _ _ _ _ _
              (list_lookup_middle _ _ _ _ eq_refl) Hl)
    as (tr1 & Htr & Hrun & Hall & Hslots).
  exists tr1. split_and!; [done | by apply index_of_handler_slot |].
  by apply (run_of_pass (hs ++ [h]) s (length hs)), Hrun;
    [apply list_lookup_middle |].
Qed.
End Runs.

Local Ltac same_store_step :=
  match goal with
  | |- option_Forall2 _ (Some _) (Some _) => constructor; by split
  | |- option_Forall2 _ None None => constructor
  | |- option_Forall2 _ (?m ≫= _) (?m ≫= _) => destruct m; simpl
  | |- option_Forall2 _ (if ?c then _ else _) (if ?c then _ else _) => destruct c
  | |- option_Forall2 _ (match ?c with _ => _ end) (match ?c with _ => _ end) =>
      destruct c; simpl
  end.

Lemma direct_exec_same_store {T E : Type} `{EqDecision T} growcap
    (b1 b2 : registry T T E) c :
  same_store b1 b2 →
  option_Forall2 same_store (Broadcast.exec growcap b1 c) (Broadcast.exec growcap b2 c).
Proof.
  destruct b1 as [m1 h1 l1], b2 as [m2 h2 l2]. intros [Hm Hl]. simpl in *. subst.
  destruct c as [s p|s p|s| |handler]; simpl.
  - unfold Broadcast.Watch. simpl.
    repeat same_store_step.
  - unfold Broadcast.Unwatch. simpl.
    repeat same_store_step.
  - by constructor.
  - by constructor.
  - by constructor.
Qed.

Lemma keyed_exec_same_store {K T U E : Type} `{EqDecision K} `{!Uniquer K T U} growcap
    (b1 b2 : registry U T E) c :
  same_store b1 b2 →
  option_Forall2 same_store
    (UniqueBroadcast.exec growcap b1 c) (UniqueBroadcast.exec growcap b2 c).
Proof.
  destruct b1 as [m1 h1 l1], b2 as [m2 h2 l2]. intros [Hm Hl]. simpl in *. subst.
  destruct c as [s p|s p|s| |handler]; simpl.
  - unfold UniqueBroadcast.Watch. simpl.
    repeat same_store_step.
  - unfold UniqueBroadcast.Unwatch. simpl.
    repeat same_store_step.
  - by constructor.
  - by constructor.
  - by constructor.
Qed.

(** ** What [Broadcast] runs *)

Lemma imap_payloads {T : Type} (f : nat → nat * nat) (payloads : list T) :
  (imap (λ j v, (f j, v)) payloads).*2 = payloads.
Proof.
  revert f. induction payloads as [|v payloads IH]; intros f; [done |].
  csimpl. f_equal. apply (IH (f ∘ S)).
Qed.

Lemma Broadcast_direct_run {T E : Type} `{EqDecision T} growcap
    (b : registry T T E) s env r :
  Broadcast.Broadcast growcap b s env = Some r →
  run_of (handlers b) s env r.2 r.1.2.
Proof.
  unfold Broadcast.Broadcast. intros Hr.
  destruct (range_handlers_run _ _ [] _ _ _ _ _ _ _ Hr) as (tr & -> & Hrun).
  done.
Qed.

Lemma Broadcast_keyed_run {K T U E : Type} `{EqDecision K} `{!Uniquer K T U} growcap
    (b : registry U T E) s env r :
  UniqueBroadcast.Broadcast growcap b s env = Some r →
  run_of (handlers b) s env r.2 r.1.2.
Proof.
  unfold UniqueBroadcast.Broadcast. intros Hr.
  destruct (make _ _ _) as [[h1 ls]|]; [| done]. cbn [mbind option_bind] in Hr.
  destruct (copy _ _ _) as [h2|]; [| done]. cbn [mbind option_bind] in Hr.
  destruct (range_handlers_run _ _ [] _ _ _ _ _ _ _ Hr) as (tr & -> & Hrun).
  done.
Qed.

Lemma Broadcast_direct_Handle {T E : Type} `{EqDecision T} growcap
    (b : registry T T E) handler s env b0 env0 tr0 r :
  Broadcast.Broadcast growcap b s env = Some (b0, env0, tr0) →
  Broadcast.Broadcast growcap (Handle b handler) s env = Some r →
  ∃ tr1, r.2 = tr0 ++ tr1 ∧
         inv_index <$> tr1
         = (λ j, (length (handlers b), j)) <$> seq 0 (WatchCount b s) ∧
         r.1.2 = pass handler s (inv_payload <$> tr1) env0.
Proof.
  unfold Broadcast.Broadcast. simpl. intros H0 H1.
  exact (range_handlers_snoc (Broadcast.exec growcap) Broadcast.Value
           (direct_exec_same_store growcap) _ _ _ _ (Handle b handler) b _ _ _ _ _
           (conj eq_refl eq_refl) H0 H1).
Qed.

Lemma Broadcast_keyed_Handle {K T U E : Type} `{EqDecision K} `{!Uniquer K T U} growcap
    (b : registry U T E) handler s env b0 env0 tr0 r :
  UniqueBroadcast.Broadcast growcap b s env = Some (b0, env0, tr0) →
  UniqueBroadcast.Broadcast growcap (Handle b handler) s env = Some r →
  ∃ tr1, r.2 = tr0 ++ tr1 ∧
         inv_index <$> tr1
         = (λ j, (length (handlers b), j)) <$> seq 0 (WatchCount b s) ∧
         r.1.2 = pass handler s (inv_payload <$> tr1) env0.
Proof.
  unfold UniqueBroadcast.Broadcast, WatchCount. simpl. intros H0 H1.
  destruct (make _ _ _) as [[h1 ls]|] eqn:Hmk; [| done].
  cbn [mbind option_bind] in H0, H1.
  destruct (copy _ _ _) as [h2|]; [| done]. cbn [mbind option_bind] in H0, H1.
  assert (Hlen : slen ls = slen (map_get (listeners b) s).1).
  { unfold make in Hmk. case_decide; [| done]. by injection Hmk as _ <-. }
  rewrite <- Hlen.
  exact (range_handlers_snoc (UniqueBroadcast.exec growcap) UniqueBroadcast.call_Value
           (keyed_exec_same_store growcap) _ _ _ _
           (set_mem (Handle b handler) h2) (set_mem b h2) _ _ _ _ _
           (conj eq_refl eq_refl) H0 H1).
Qed.

(** ** X9 *)

(** X9: [Handle] makes no check on the handler it is given.  In both
    registries, with [H] handlers registered, a [Broadcast] after
    [Handle(h)] first makes the very invocations the [Broadcast] before
    it makes, with the same payloads and errors; it then calls [h], as
    handler number [H], once per slot of the listener sequence in order,
    starting from the program state those invocations left, also when [h]
    was registered already.  The payloads [h] is handed are the listeners
    of the signal in [UniqueBroadcast[K,T]], and in [Broadcast[T]] when no
    handler calls [Unwatch] back. *)
Theorem X9_Handle_appends_a_handler :
  (∀ (T E : Type) `(EqDecision T) growcap (b : registry T T E) handler s env,
      wf b →
      ∃ b0 env0 tr0 b' env' tr1,
        Broadcast.Broadcast growcap b s env = Some (b0, env0, tr0) ∧
        Broadcast.Broadcast growcap (Handle b handler) s env
        = Some (b', env', tr0 ++ tr1) ∧
        inv_index <$> tr1
        = (λ j, (length (handlers b), j)) <$> seq 0 (WatchCount b s) ∧
        env' = pass handler s (inv_payload <$> tr1) env0 ∧
        (Forall (tame no_unwatch) (handlers b) → tame no_unwatch handler →
         inv_payload <$> tr1 = view b s)) ∧
  (∀ (K T U E : Type) `(EqDecision K) `(!Uniquer K T U) growcap
     (b : registry U T E) handler s env,
      wf b →
      ∃ b0 env0 tr0 b' env' tr1,
        UniqueBroadcast.Broadcast growcap b s env = Some (b0, env0, tr0) ∧
        UniqueBroadcast.Broadcast growcap (Handle b handler) s env
        = Some (b', env', tr0 ++ tr1) ∧
        inv_index <$> tr1
        = (λ j, (length (handlers b), j)) <$> seq 0 (WatchCount b s) ∧
        env' = pass handler s (inv_payload <$> tr1) env0 ∧
        inv_payload <$> tr1 = Value <$> view b s).
Proof.
  split.
  - intros T E ? growcap b handler s env Hwf.
    destruct (Broadcast_direct_indices growcap b s env Hwf)
      as (b0 & env0 & tr0 & H0 & _).
    destruct (Broadcast_direct_indices growcap (Handle b handler) s env)
      as (b' & env' & tr & H1 & _); [by apply Handle_spec |].
    destruct (Broadcast_direct_Handle growcap b handler s env _ _ _ _ H0 H1)
      as (tr1 & Htr & Hidx & Henv). simpl in Htr, Henv. subst tr.
    exists b0, env0, tr0, b', env', tr1. split_and!; [done | done | done | done |].
    intros Htame Hh.
    destruct (Broadcast_direct_snapshot growcap b s env Hwf Htame)
      as (c0 & e0 & t0 & Hb0 & _ & Hd0).
    rewrite H0 in Hb0. injection Hb0 as <- <- <-.
    destruct (Broadcast_direct_snapshot growcap (Handle b handler) s env)
      as (c1 & e1 & t1 & Hb1 & _ & Hd1).
    { by apply Handle_spec. }
    { simpl. apply Forall_app. split; [done | by constructor]. }
    rewrite H1 in Hb1. injection Hb1 as <- <- <-.
    simpl in Hd1. rewrite length_app, Nat.add_1_r, fan_out_snoc in Hd1.
    change (view (Handle b handler) s) with (view b s) in Hd1.
    rewrite fmap_app, Hd0 in Hd1. apply app_inv_head in Hd1.
    rewrite payload_of_delivery, Hd1.
    apply (imap_payloads (λ j, (length (handlers b), j))).
  - intros K T U E ? ? growcap b handler s env Hwf.
    destruct (Broadcast_keyed_snapshot growcap b s env Hwf)
      as (b0 & env0 & tr0 & H0 & _ & _ & _ & Hd0).
    destruct (Broadcast_keyed_snapshot growcap (Handle b handler) s env)
      as (b' & env' & tr & H1 & _ & _ & _ & Hd1); [by apply Handle_spec |].
    destruct (Broadcast_keyed_Handle growcap b handler s env _ _ _ _ H0 H1)
      as (tr1 & Htr & Hidx & Henv). simpl in Htr, Henv. subst tr.
    exists b0, env0, tr0, b', env', tr1. split_and!; [done | done | done | done |].
    simpl in Hd1. rewrite length_app, Nat.add_1_r, fan_out_snoc in Hd1.
    change (view (Handle b handler) s) with (view b s) in Hd1.
    rewrite fmap_app, Hd0 in Hd1. apply app_inv_head in Hd1.
    rewrite payload_of_delivery, Hd1.
    apply (imap_payloads (λ j, (length (handlers b), j))).
Qed.

Lemma X9_witness :
  (∃ b0 env0 tr0 b' tr1,
      Broadcast.Broadcast Examples.growcap Examples.abc_quiet "s" 0
      = Some (b0, env0, tr0) ∧
      Broadcast.Broadcast Examples.growcap
        (Handle Examples.abc_quiet Examples.watch_z) "s" 0
      = Some (b', pass Examples.watch_z "s" ["a"; "b"; "c"] env0, tr0 ++ tr1) ∧
      inv_payload <$> tr1 = ["a"; "b"; "c"]) ∧
  (∃ b0 env0 tr0 b' tr1,
      UniqueBroadcast.Broadcast Examples.growcap Examples.users "s" 0
      = Some (b0, env0, tr0) ∧
      UniqueBroadcast.Broadcast Examples.growcap
        (Handle Examples.users Examples.unwatch_self) "s" 0
      = Some (b', pass Examples.unwatch_self "s" (inv_payload <$> tr1) env0,
              tr0 ++ tr1) ∧
      inv_payload <$> tr1 = Value <$> view Examples.users "s").
Proof.
  destruct X9_Handle_appends_a_handler as [Hd Hk]. split.
  - destruct (Hd _ _ _ Examples.growcap Examples.abc_quiet Examples.watch_z "s" 0
                wf_abc_quiet)
      as (b0 & env0 & tr0 & b' & env' & tr1 & H0 & H1 & _ & Henv & Hpay).
    assert (Hp : inv_payload <$> tr1 = ["a"; "b"; "c"]).
    { apply Hpay; [repeat constructor |]. intros sg v e. repeat constructor. }
    rewrite Hp in Henv. subst env'. by exists b0, env0, tr0, b', tr1.
  - destruct (Hk Z _ _ _ _ _ Examples.growcap Examples.users Examples.unwatch_self
                "s" 0 wf_users)
      as (b0 & env0 & tr0 & b' & env' & tr1 & H0 & H1 & _ & Henv & Hpay).
    subst env'. by exists b0, env0, tr0, b', tr1.
Defined.

(** ** C2 *)

(** C2: in [Broadcast[T]] a handler is not always handed the listeners of
    the signal in their registration order.  With the listeners ["a"],
    ["b"], ["c"] under ["s"] and two handlers, the first of which unwatches
    ["a"] when it is handed ["a"], [Broadcast("s")] makes [2 * 3]
    invocations, handler after handler and slot after slot, each a call of
    the handler registered at that position; but the first handler is
    handed ["a"], ["c"], ["c"] and the second ["b"], ["c"], ["c"], not
    ["a"], ["b"], ["c"] each: [Unwatch] has shifted the elements of the
    backing array that the slice header kept by [Broadcast] reads. *)
Theorem C2_direct_listener_order_is_not_kept :
  Examples.abc_two_handlers = Some Examples.abc_unwatching_counting ∧
  dreachable Examples.growcap Examples.abc_unwatching_counting ∧
  length (handlers Examples.abc_unwatching_counting) = 2 ∧
  view Examples.abc_unwatching_counting "s" = ["a"; "b"; "c"] ∧
  WatchCount Examples.abc_unwatching_counting "s" = 3 ∧
  ∃ b' env' tr,
    Broadcast.Broadcast Examples.growcap Examples.abc_unwatching_counting "s" 0
    = Some (b', env', tr) ∧
    length tr = 2 * 3 ∧
    inv_index <$> tr = slots_from 0 2 3 ∧
    run_of (handlers Examples.abc_unwatching_counting) "s" 0 tr env' ∧
    inv_delivery <$> tr
    = [(0, 0, "a"); (0, 1, "c"); (0, 2, "c"); (1, 0, "b"); (1, 1, "c"); (1, 2, "c")] ∧
    inv_delivery <$> tr ≠ fan_out 2 (view Examples.abc_unwatching_counting "s").
Proof.
  split; [by vm_compute |]. split.
  { eapply dreach_step; [apply dreachable_abc_unwatching |].
    apply (dstep_Handle _ Examples.abc_unwatching Examples.count_calls). }
  split; [by vm_compute |]. split; [by vm_compute |]. split; [by vm_compute |].
  destruct (Broadcast.Broadcast Examples.growcap Examples.abc_unwatching_counting "s" 0)
    as [[[b' env'] tr]|] eqn:Hb; [| by vm_compute in Hb].
  pose proof (Broadcast_direct_run _ _ _ _ _ Hb) as Hrun. simpl in Hrun.
  exists b', env', tr. split; [done |].
  vm_compute in Hb. injection Hb as <- <- <-.
  split_and!; [done | done | exact Hrun | done |].
  vm_compute. intros Heq. discriminate Heq.
Qed.

(** ** X12 *)

(** X12: in both registries, with [H] handlers and [L] listeners under the
    signal when [Broadcast] starts, [Broadcast] returns after exactly
    [H * L] invocations, handler by handler in registration order and, for
    each handler, slot by slot of the listener sequence in order; each
    invocation is a call of the handler registered at that position, on the
    payload recorded and in the program state the previous invocation left,
    whatever the handlers return or call back.  In [UniqueBroadcast[K,T]]
    slot [j] always delivers the payload of the [j]-th listener registered
    when [Broadcast] started; in [Broadcast[T]] it does so when no handler
    calls [Unwatch] back during the dispatch. *)
Theorem X12_Broadcast_fan_out :
  (∀ (T E : Type) `(EqDecision T) growcap (b : registry T T E) s env,
      wf b →
      ∃ b' env' tr,
        Broadcast.Broadcast growcap b s env = Some (b', env', tr) ∧
        length tr = length (handlers b) * WatchCount b s ∧
        inv_index <$> tr = slots_from 0 (length (handlers b)) (WatchCount b s) ∧
        run_of (handlers b) s env tr env' ∧
        (Forall (tame no_unwatch) (handlers b) →
         inv_delivery <$> tr = fan_out (length (handlers b)) (view b s))) ∧
  (∀ (K T U E : Type) `(EqDecision K) `(!Uniquer K T U) growcap
     (b : registry U T E) s env,
      wf b →
      ∃ b' env' tr,
        UniqueBroadcast.Broadcast growcap b s env = Some (b', env', tr) ∧
        length tr = length (handlers b) * WatchCount b s ∧
        inv_index <$> tr = slots_from 0 (length (handlers b)) (WatchCount b s) ∧
        run_of (handlers b) s env tr env' ∧
        inv_delivery <$> tr = fan_out (length (handlers b)) (Value <$> view b s)).
Proof.
  split.
  - intros T E ? growcap b s env Hwf.
    destruct (Broadcast_direct_indices growcap b s env Hwf)
      as (b' & env' & tr & Hb & _ & _ & Hidx).
    rewrite <- WatchCount_view in Hidx by done.
    exists b', env', tr. split_and!; [done | | done | |].
    + rewrite <- (length_fmap inv_index), Hidx. apply slots_from_length.
    + apply (Broadcast_direct_run _ _ _ _ _ Hb).
    + intros Htame.
      destruct (Broadcast_direct_snapshot growcap b s env Hwf Htame)
        as (b2 & env2 & tr2 & Hb2 & _ & Hdel).
      rewrite Hb in Hb2. by injection Hb2 as _ _ <-.
  - intros K T U E ? ? growcap b s env Hwf.
    destruct (Broadcast_keyed_snapshot growcap b s env Hwf)
      as (b' & env' & tr & Hb & _ & _ & _ & Hdel).
    assert (Hidx : inv_index <$> tr
                   = slots_from 0 (length (handlers b)) (WatchCount b s)).
    { rewrite index_of_delivery, Hdel. unfold fan_out.
      by rewrite fan_out_from_indices, length_fmap, WatchCount_view. }
    exists b', env', tr. split_and!; [done | | done | | done].
    + rewrite <- (length_fmap inv_index), Hidx. apply slots_from_length.
    + apply (Broadcast_keyed_run _ _ _ _ _ Hb).
Qed.

Lemma X12_witness :
  (∃ b' env' tr,
      Broadcast.Broadcast Examples.growcap Examples.abc_quiet "s" 0 = Some (b', env', tr) ∧
      length tr = 1 * 3 ∧
      run_of [Examples.count_calls] "s" 0 tr env' ∧
      inv_delivery <$> tr = [(0, 0, "a"); (0, 1, "b"); (0, 2, "c")]) ∧
  (∃ b' env' tr,
      UniqueBroadcast.Broadcast Examples.growcap Examples.users "s" 0
      = Some (b', env', tr) ∧
      run_of [Examples.unwatch_self] "s" 0 tr env' ∧
      inv_delivery <$> tr
      = [(0, 0, {| Examples.ID := 1; Examples.Name := "a" |});
         (0, 1, {| Examples.ID := 2; Examples.Name := "b" |})]).
Proof.
  destruct X12_Broadcast_fan_out as [Hd Hk]. split.
  - destruct (Hd _ _ _ Examples.growcap Examples.abc_quiet "s" 0 wf_abc_quiet)
      as (b' & env' & tr & Hb & Hlen & _ & Hrun & Hdel).
    exists b', env', tr. split_and!; [done | done | exact Hrun |]. apply Hdel.
    repeat constructor.
  - destruct (Hk Z _ _ _ _ _ Examples.growcap Examples.users "s" 0 wf_users)
      as (b' & env' & tr & Hb & _ & _ & Hrun & Hdel).
    by exists b', env', tr.
Defined.
